(** * Keystore decoding of the wallet front end

    A shallow embedding of the keystore routines of
    [packages/neotracker-shared-web/src/AppShell.js] (second module of the
    file, the wallet utilities): [prependKey], [decipherBuffer],
    [getPrivateKey], [isValidKDFParams] and [extractKeystore], together with
    the fragment of JavaScript they rely on: dynamically typed values,
    [typeof], property reads that throw on [null]/[undefined], strict
    equality, short-circuit [&&]/[||], exceptions and [try]/[catch].  An
    [async] function that throws is a run that ends with the exception.

    The cryptographic and platform routines the code calls ([JSON.parse],
    [Buffer.from], [scrypt], [crypto.pbkdf2], [sha3_256],
    [crypto.createDecipheriv], [privateKeyToAddress]) come from other
    packages; they are the fields of the class [Platform].

    The keystore routines are given a second time in the module [Mutable],
    over a store of objects that are reached by reference and can be
    written to, where a library routine that is handed a value of the
    document is handed the store with it.

    The other utilities of the module follow: [validateName], [add0x],
    [strip0x], [createKeystoreFilename], and the asynchronous ones that
    drive the wallet client, [doConvertAccount], [convertAccount],
    [unlockWalletDeprecated], [doSendAsset], [claimAllGAS] and
    [deleteAccount], as runs over the states of a client that is the class
    [Client]; and the path of the canonical URL that the [App] component
    (first module of the file) computes. *)

From Stdlib Require Import QArith Ascii.
From stdpp Require Import gmap strings list.
From Equations Require Import Equations.

Local Open Scope string_scope.
Local Open Scope list_scope.
Local Set Warnings "-register-all".

(** ** JavaScript values *)

(** A JavaScript number.  Every finite double is a rational; the two
    infinities and NaN are kept apart.  The code only ever compares numbers
    with [===]. *)
Inductive number :=
| Finite (q : Q)
| Infinity (negative : bool)
| NaN.

Definition number_eq (a b : number) : bool :=
  match a, b with
  | Finite x, Finite y => Qeq_bool x y
  | Infinity s, Infinity t => Bool.eqb s t
  | _, _ => false
  end.

Definition number_of_nat (n : nat) : number := Finite (inject_Z (Z.of_nat n)).

(** The values a keystore document is made of: what [JSON.parse] returns,
    and [undefined], which reading an absent property yields.  An object is
    a finite map from property names to values; a string is a sequence of
    code units, one character here for each. *)
Inductive JSValue :=
| JUndefined
| JNull
| JBool (b : bool)
| JNumber (n : number)
| JString (s : string)
| JArray (items : list JSValue)
| JObject (fields : gmap string JSValue).

(** [typeof v] *)
Definition typeof (v : JSValue) : string :=
  match v with
  | JUndefined => "undefined"
  | JNull => "object"
  | JBool _ => "boolean"
  | JNumber _ => "number"
  | JString _ => "string"
  | JArray _ => "object"
  | JObject _ => "object"
  end.

(** [a === b] where one side is a string, resp. a number: no coercion. *)
Definition strict_eq_string (v : JSValue) (s : string) : bool :=
  match v with
  | JString t => bool_decide (t = s)
  | _ => false
  end.

Definition strict_eq_number (v : JSValue) (n : number) : bool :=
  match v with
  | JNumber m => number_eq m n
  | _ => false
  end.


(** ** Exceptions *)

(** The codes of [CodedClientError] the keystore routines use. *)
Inductive ErrorCode :=
| EXTRACT_KEYSTORE_INVALID_FILE
| EXTRACT_KEYSTORE_INVALID_JSON
| EXTRACT_KEYSTORE_INVALID_FORMAT
| DECRYPT_KEYSTORE_DERIVED_KEY_ERROR
| DECRYPT_KEYSTORE_UNSUPPORTED_PBKDF2_PARAMETERS
| DECRYPT_KEYSTORE_UNSUPPORTED_ALGO
| DECRYPT_KEYSTORE_UNKNOWN_CRYPTO_ERROR
| DECRYPT_KEYSTORE_WRONG_PASSPHRASE
| DECRYPT_KEYSTORE_DECIPHER_ERROR
| DECRYPT_KEYSTORE_WRONG_ADDRESS.

(** What can be thrown: the engine's [TypeError] (a property read on
    [null] or [undefined]) and [SyntaxError] (from [JSON.parse]), an error
    raised inside a library routine, and [new CodedClientError(code,
    originalError)], whose second argument is optional. *)
Inductive Exn :=
| TypeError
| SyntaxError
| LibraryError
| CodedClientError (code : ErrorCode) (originalError : option Exn).

Inductive Outcome (A : Type) :=
| Return (a : A)
| Throw (e : Exn).
Arguments Return {A} a.
Arguments Throw {A} e.

(** ** Property reads *)

(** [v.p] for the property names the keystore code reads.  On [null] and
    [undefined] the read throws; an object yields its own property or
    [undefined]; a string and an array have a [length]; nothing else
    carries any of the names read here. *)
Definition getp (v : JSValue) (p : string) : Outcome JSValue :=
  match v with
  | JUndefined | JNull => Throw TypeError
  | JObject fields => Return (default JUndefined (fields !! p))
  | JString s =>
      Return (if bool_decide (p = "length")
              then JNumber (number_of_nat (String.length s)) else JUndefined)
  | JArray items =>
      Return (if bool_decide (p = "length")
              then JNumber (number_of_nat (length items)) else JUndefined)
  | JBool _ | JNumber _ => Return JUndefined
  end.

(** ** The exception monad, with the trace of library calls *)

(** A [Buffer] is a byte array. *)
Abbreviation Buffer := (list Byte.byte).

(** The calls that leave the module, in the order they are made, with the
    document values handed over ([Buffer] arguments are freshly built). *)
Inductive Call :=
| CallBufferFromHex (value : JSValue)
| CallScrypt (n r p dklen : JSValue)
| CallPbkdf2 (c dklen : JSValue)
| CallSha3
| CallCreateDecipheriv (cipher : JSValue)
| CallDecipherUpdate
| CallDecipherFinal
| CallPrivateKeyToAddress.

Definition is_mac (c : Call) : bool :=
  match c with CallSha3 => true | _ => false end.
Definition is_decryption (c : Call) : bool :=
  match c with
  | CallCreateDecipheriv _ | CallDecipherUpdate | CallDecipherFinal => true
  | _ => false
  end.

#[export] Instance Outcome_ret : MRet Outcome := @Return.
#[export] Instance Outcome_bind : MBind Outcome := fun A B f m =>
  match m with
  | Return a => f a
  | Throw e => Throw e
  end.

(** A run: the calls made so far and how the run ended. *)
Definition Run (A : Type) : Type := list Call * Outcome A.

#[export] Instance Run_ret : MRet Run := fun A a => ([], Return a).
#[export] Instance Run_bind : MBind Run := fun A B f m =>
  match m with
  | (t, Return a) => let '(t', r) := f a in (t ++ t', r)
  | (t, Throw e) => (t, Throw e)
  end.

Definition throw {A} (e : Exn) : Run A := ([], Throw e).

(** [try { body } catch (error) { handler }] *)
Definition try_catch {A} (body : Run A) (handler : Exn -> Run A) : Run A :=
  match body with
  | (t, Throw error) => let '(t', r) := handler error in (t ++ t', r)
  | done => done
  end.

(** An expression of the module itself: no call is recorded. *)
Definition eval {A} (o : Outcome A) : Run A := ([], o).

(** A call into a library: [None] is the library throwing. *)
Definition call {A} (c : Call) (result : option A) : Run A :=
  ([c], from_option Return (Throw LibraryError) result).

Definition calls {A} (r : Run A) : list Call := fst r.
Definition outcome {A} (r : Run A) : Outcome A := snd r.

(** ** Buffers *)

Definition hex_digit (n : N) : ascii :=
  default "0"%char (String.get (N.to_nat n) "0123456789abcdef").

(** [buffer.toString('hex')]: two lower-case digits per byte. *)
Fixpoint Buffer_toString_hex (b : Buffer) : string :=
  match b with
  | [] => ""
  | x :: rest =>
      String (hex_digit (Byte.to_N x / 16))
        (String (hex_digit (Byte.to_N x mod 16)) (Buffer_toString_hex rest))
  end.

(** [buffer.slice(start, end)], for [0 <= start <= end]. *)
Definition Buffer_slice (b : Buffer) (start stop : nat) : Buffer :=
  take (stop - start) (drop start b).

(** [prependKey]: the loop puts one zero byte in front of the seed for as
    long as the seed is shorter than 32 bytes. *)
Equations? prependKey (seedIn : Buffer) : Buffer by wf (32 - length seedIn) lt :=
  prependKey seed with decide (length seed < 32) => {
    | left _ := prependKey ([Byte.x00] ++ seed);
    | right _ := seed }.
Proof. simpl. lia. Qed.

(** ** The routines of other packages *)

(** [None] stands for the routine throwing (or, for the two key derivation
    routines, reporting an error to their callback, which rejects the
    promise [getPrivateKey] awaits).  Every routine is taken to answer. *)
Class Platform := {
  (** [JSON.parse(text)] *)
  JSON_parse : string -> option JSValue;
  (** [Buffer.from(password)] *)
  Buffer_from_string : string -> Buffer;
  (** [Buffer.from(value, 'hex')] *)
  Buffer_from_hex : JSValue -> option Buffer;
  (** [scrypt(password, salt, n, r, p, dklen, callback)] of scrypt-js: the
      key it hands to the callback *)
  scrypt : Buffer -> Buffer -> JSValue -> JSValue -> JSValue -> JSValue ->
           option Buffer;
  (** [crypto.pbkdf2(password, salt, c, dklen, digest, callback)] *)
  pbkdf2 : Buffer -> Buffer -> JSValue -> JSValue -> string -> option Buffer;
  (** [sha3_256(message)] of js-sha3: the digest as a lower-case hex string *)
  sha3_256 : Buffer -> string;
  (** [crypto.createDecipheriv(cipher, key, iv)] and the two methods of the
      object it returns *)
  Decipher : Type;
  createDecipheriv : JSValue -> Buffer -> Buffer -> option Decipher;
  decipher_update : Decipher -> Buffer -> option (Buffer * Decipher);
  decipher_final : Decipher -> option Buffer;
  (** [privateKeyToAddress(privateKey)] of the blockchain client *)
  privateKeyToAddress : string -> option string
}.

(** ** The keystore routines *)

Section Keystore.
Context `{P : Platform}.

(** [keystore.crypto.p] *)
Definition keystore_crypto (keystore : JSValue) (p : string) : Outcome JSValue :=
  crypto ← getp keystore "crypto"; getp crypto p.

(** [decipherBuffer]:
    [Buffer.concat([decipher.update(data), decipher.final()])] *)
Definition decipherBuffer (decipher : Decipher) (data : Buffer) : Run Buffer :=
  updated ← call CallDecipherUpdate (decipher_update decipher data);
  final ← call CallDecipherFinal (decipher_final updated.2);
  mret (updated.1 ++ final).

(** The first block of [getPrivateKey]: the derived key, by [kdf]. *)
Definition getPrivateKey_derivedKey (keystore : JSValue) (password : string)
  : Run Buffer :=
  crypto ← eval (getp keystore "crypto");
  kdfparams ← eval (getp crypto "kdfparams");
  kdf ← eval (keystore_crypto keystore "kdf");
  if strict_eq_string kdf "scrypt" then
    try_catch
      (salt ← eval (getp kdfparams "salt");
       saltBuffer ← call (CallBufferFromHex salt) (Buffer_from_hex salt);
       n ← eval (getp kdfparams "n");
       r ← eval (getp kdfparams "r");
       p ← eval (getp kdfparams "p");
       dklen ← eval (getp kdfparams "dklen");
       call (CallScrypt n r p dklen)
         (scrypt (Buffer_from_string password) saltBuffer n r p dklen))
      (fun error =>
         throw (CodedClientError DECRYPT_KEYSTORE_DERIVED_KEY_ERROR (Some error)))
  else
    kdf ← eval (keystore_crypto keystore "kdf");
    if strict_eq_string kdf "pbkdf2" then
      prf ← eval (getp kdfparams "prf");
      if negb (strict_eq_string prf "hmac-sha256") then
        throw (CodedClientError
                 DECRYPT_KEYSTORE_UNSUPPORTED_PBKDF2_PARAMETERS None)
      else
        try_catch
          (salt ← eval (getp kdfparams "salt");
           saltBuffer ← call (CallBufferFromHex salt) (Buffer_from_hex salt);
           c ← eval (getp kdfparams "c");
           dklen ← eval (getp kdfparams "dklen");
           call (CallPbkdf2 c dklen)
             (pbkdf2 (Buffer_from_string password) saltBuffer c dklen "sha256"))
          (fun error =>
             throw (CodedClientError DECRYPT_KEYSTORE_DERIVED_KEY_ERROR
                      (Some error)))
    else
      throw (CodedClientError DECRYPT_KEYSTORE_UNSUPPORTED_ALGO None).

(** The second block: the decoded ciphertext and the MAC over the second
    half of the derived key and the ciphertext. *)
Definition getPrivateKey_mac (keystore : JSValue) (derivedKey : Buffer)
  : Run (Buffer * string) :=
  try_catch
    (text ← eval (keystore_crypto keystore "ciphertext");
     ciphertext ← call (CallBufferFromHex text) (Buffer_from_hex text);
     mac ← call CallSha3
             (Some (sha3_256 (Buffer_slice derivedKey 16 32 ++ ciphertext)));
     mret (ciphertext, mac))
    (fun error =>
       throw (CodedClientError DECRYPT_KEYSTORE_UNKNOWN_CRYPTO_ERROR
                (Some error))).

(** The third block: the decipher is built and run on the ciphertext, and
    what it yields is left-padded by [prependKey]; all of it inside one
    [try]. *)
Definition getPrivateKey_decipher (keystore : JSValue)
    (derivedKey ciphertext : Buffer) : Run Buffer :=
  cipher ← eval (keystore_crypto keystore "cipher");
  cipherparams ← eval (keystore_crypto keystore "cipherparams");
  iv ← eval (getp cipherparams "iv");
  ivBuffer ← call (CallBufferFromHex iv) (Buffer_from_hex iv);
  decipher ← call (CallCreateDecipheriv cipher)
               (createDecipheriv cipher (Buffer_slice derivedKey 0 16) ivBuffer);
  decipherBuffer decipher ciphertext.

Definition getPrivateKey_seed (keystore : JSValue)
    (derivedKey ciphertext : Buffer) : Run Buffer :=
  try_catch
    (deciphered ← getPrivateKey_decipher keystore derivedKey ciphertext;
     mret (prependKey deciphered))
    (fun error =>
       throw (CodedClientError DECRYPT_KEYSTORE_DECIPHER_ERROR (Some error))).

(** [getPrivateKey].  [mac] is the string [sha3_256] returned, so
    [mac.toString('hex')] is [mac] itself. *)
Definition getPrivateKey (keystore : JSValue) (password : string) : Run string :=
  derivedKey ← getPrivateKey_derivedKey keystore password;
  ciphertext_mac ← getPrivateKey_mac keystore derivedKey;
  expected ← eval (keystore_crypto keystore "mac");
  if negb (strict_eq_string expected ciphertext_mac.2) then
    throw (CodedClientError DECRYPT_KEYSTORE_WRONG_PASSPHRASE None)
  else
    seed ← getPrivateKey_seed keystore derivedKey ciphertext_mac.1;
    let privateKey := Buffer_toString_hex seed in
    address ← call CallPrivateKeyToAddress (privateKeyToAddress privateKey);
    expected ← eval (getp keystore "address");
    if negb (strict_eq_string expected address) then
      throw (CodedClientError DECRYPT_KEYSTORE_WRONG_ADDRESS None)
    else
      mret privateKey.

(** [typeof e === t], [a && b] and [a || b] over expressions that may
    throw: the right operand is only evaluated when the left one does not
    decide. *)
Definition typeof_is (e : Outcome JSValue) (t : string) : Outcome bool :=
  v ← e; mret (bool_decide (typeof v = t)).

Definition and_then (a b : Outcome bool) : Outcome bool :=
  a ≫= λ x : bool, if x then b else mret false.

Definition or_else (a b : Outcome bool) : Outcome bool :=
  a ≫= λ x : bool, if x then mret true else b.

Infix "&&&" := and_then (at level 40, left associativity).
Infix "|||" := or_else (at level 50, left associativity).

(** [isValidKDFParams] *)
Definition isValidKDFParams (kdf kdfparams : JSValue) : Outcome bool :=
  typeof_is (getp kdfparams "dklen") "number" &&&
  typeof_is (getp kdfparams "salt") "string" &&&
  ((mret (strict_eq_string kdf "scrypt") &&&
    typeof_is (getp kdfparams "n") "number" &&&
    typeof_is (getp kdfparams "r") "number" &&&
    typeof_is (getp kdfparams "p") "number") |||
   (mret (strict_eq_string kdf "pbkdf2") &&&
    typeof_is (getp kdfparams "c") "number" &&&
    typeof_is (getp kdfparams "prf") "string")).

(** The condition of the [if] of [extractKeystore], before negation. *)
Definition extractKeystore_check (keystore : JSValue) : Outcome bool :=
  typeof_is (mret keystore) "object" &&&
  typeof_is (getp keystore "version") "number" &&&
  (version ← getp keystore "version";
   mret (strict_eq_number version (number_of_nat 3))) &&&
  typeof_is (getp keystore "id") "string" &&&
  typeof_is (getp keystore "address") "string" &&&
  (address ← getp keystore "address";
   len ← getp address "length";
   mret (strict_eq_number len (number_of_nat 34))) &&&
  typeof_is (getp keystore "crypto") "object" &&&
  typeof_is (keystore_crypto keystore "ciphertext") "string" &&&
  typeof_is (keystore_crypto keystore "cipherparams") "object" &&&
  typeof_is (cipherparams ← keystore_crypto keystore "cipherparams";
             getp cipherparams "iv") "string" &&&
  typeof_is (keystore_crypto keystore "cipher") "string" &&&
  typeof_is (keystore_crypto keystore "kdf") "string" &&&
  typeof_is (keystore_crypto keystore "kdfparams") "object" &&&
  (kdf ← keystore_crypto keystore "kdf";
   kdfparams ← keystore_crypto keystore "kdfparams";
   isValidKDFParams kdf kdfparams) &&&
  typeof_is (keystore_crypto keystore "mac") "string".

(** [extractKeystore]: [text] is any value; the first test is
    [typeof text !== 'string']. *)
Definition extractKeystore (text : JSValue) : Outcome JSValue :=
  match text with
  | JString text =>
      match JSON_parse text with
      | None =>
          Throw (CodedClientError EXTRACT_KEYSTORE_INVALID_JSON
                   (Some SyntaxError))
      | Some keystore =>
          ok ← extractKeystore_check keystore;
          if negb ok then
            Throw (CodedClientError EXTRACT_KEYSTORE_INVALID_FORMAT None)
          else
            Return keystore
      end
  | _ => Throw (CodedClientError EXTRACT_KEYSTORE_INVALID_FILE None)
  end.

(** ** What the validation establishes *)

(** The only exception the expressions of the validation raise by
    themselves is the [TypeError] of a read on [null] or [undefined]. *)
Definition only_TypeError {A} (o : Outcome A) : Prop :=
  forall e, o = Throw e -> e = TypeError.

(** The parameters [isValidKDFParams] lets through. *)
Inductive ValidKDFParams (kdf : string) (kdfparams : JSValue) : Prop :=
| valid_scrypt dklen salt n r p :
    kdf = "scrypt" ->
    getp kdfparams "dklen" = Return (JNumber dklen) ->
    getp kdfparams "salt" = Return (JString salt) ->
    getp kdfparams "n" = Return (JNumber n) ->
    getp kdfparams "r" = Return (JNumber r) ->
    getp kdfparams "p" = Return (JNumber p) ->
    ValidKDFParams kdf kdfparams
| valid_pbkdf2 dklen salt c prf :
    kdf = "pbkdf2" ->
    getp kdfparams "dklen" = Return (JNumber dklen) ->
    getp kdfparams "salt" = Return (JString salt) ->
    getp kdfparams "c" = Return (JNumber c) ->
    getp kdfparams "prf" = Return (JString prf) ->
    ValidKDFParams kdf kdfparams.

(** The documents the condition of [extractKeystore] lets through. *)
Inductive Validated (keystore : JSValue) : Prop :=
| validated version id address crypto ciphertext cipherparams iv cipher kdf
    kdfparams mac :
    getp keystore "version" = Return (JNumber version) ->
    number_eq version (number_of_nat 3) = true ->
    getp keystore "id" = Return (JString id) ->
    getp keystore "address" = Return (JString address) ->
    String.length address = 34 ->
    getp keystore "crypto" = Return crypto ->
    getp crypto "ciphertext" = Return (JString ciphertext) ->
    getp crypto "cipherparams" = Return cipherparams ->
    getp cipherparams "iv" = Return (JString iv) ->
    getp crypto "cipher" = Return (JString cipher) ->
    getp crypto "kdf" = Return (JString kdf) ->
    getp crypto "kdfparams" = Return kdfparams ->
    ValidKDFParams kdf kdfparams ->
    getp crypto "mac" = Return (JString mac) ->
    Validated keystore.

(** The password passes the integrity check of [getPrivateKey]: the key
    is derived, the MAC is computed, and it is the string under
    [keystore.crypto.mac]. *)
Definition mac_matches (keystore : JSValue) (password : string) : Prop :=
  exists t1 derivedKey t2 ciphertext mac,
    getPrivateKey_derivedKey keystore password = (t1, Return derivedKey) /\
    getPrivateKey_mac keystore derivedKey = (t2, Return (ciphertext, mac)) /\
    keystore_crypto keystore "mac" = Return (JString mac).

(** Whether a key derivation fails depends on its parameters, not on the
    password. *)
Definition derivation_ignores_password : Prop :=
  (forall password password' salt n r p dklen,
     scrypt password salt n r p dklen = None ->
     scrypt password' salt n r p dklen = None) /\
  (forall password password' salt c dklen digest,
     pbkdf2 password salt c dklen digest = None ->
     pbkdf2 password' salt c dklen digest = None).

End Keystore.

(** ** A sample platform *)

(** A small platform on which the routines can be run: genuine hex
    decoding, and stand-ins for the key derivation, the digest, the cipher
    and the address encoding.  [JSON_parse] knows the sample documents
    below. *)
Module Sample.

Definition hex_value (c : ascii) : option N :=
  let n := N_of_ascii c in
  if (48 <=? n)%N && (n <=? 57)%N then Some (n - 48)%N
  else if (97 <=? n)%N && (n <=? 102)%N then Some (n - 87)%N
  else if (65 <=? n)%N && (n <=? 70)%N then Some (n - 55)%N
  else None.

Fixpoint hex_decode (s : string) : option Buffer :=
  match s with
  | EmptyString => Some []
  | String a (String b rest) =>
      hi ← hex_value a;
      lo ← hex_value b;
      byte ← Byte.of_N (16 * hi + lo);
      tail ← hex_decode rest;
      Some (byte :: tail)
  | String _ EmptyString => None
  end.

Definition from_hex (v : JSValue) : option Buffer :=
  match v with
  | JString s => hex_decode s
  | _ => None
  end.

Definition is_number (v : JSValue) : bool := bool_decide (typeof v = "number").

(** Stand-in key derivation: password, then salt, zero-filled to 32 bytes. *)
Definition stretch (password salt : Buffer) : Buffer :=
  take 32 (password ++ salt ++ replicate 32 Byte.x00).

Definition sample_scrypt (password salt : Buffer) (n r p dklen : JSValue)
  : option Buffer :=
  if is_number n && is_number r && is_number p && is_number dklen
  then Some (stretch password salt) else None.

Definition sample_pbkdf2 (password salt : Buffer) (c dklen : JSValue)
    (digest : string) : option Buffer :=
  if is_number c && is_number dklen then Some (stretch password salt) else None.

(** Stand-in cipher: only ["aes-128-ctr"] is known; the plaintext is the
    ciphertext, delivered by [update]. *)
Definition sample_createDecipheriv (cipher : JSValue) (key iv : Buffer)
  : option unit :=
  if strict_eq_string cipher "aes-128-ctr" then Some () else None.

(** Stand-in address encoding: ["A"] and the first 33 digits of the key. *)
Definition sample_address (privateKey : string) : option string :=
  Some (String "A" (String.substring 0 33 privateKey)).

Definition object (fields : list (string * JSValue)) : JSValue :=
  JObject (list_to_map fields).

Definition num (z : Z) : JSValue := JNumber (Finite (inject_Z z)).

Definition scrypt_params : JSValue :=
  object [("dklen", num 32); ("salt", JString "000102030405060708090a0b0c0d0e0f");
          ("n", num 262144); ("r", num 8); ("p", num 1)].

Definition pbkdf2_params (prf : string) : JSValue :=
  object [("dklen", num 32); ("salt", JString "000102030405060708090a0b0c0d0e0f");
          ("c", num 262144); ("prf", JString prf)].

Definition address34 : string := "A000000000000000000000000000000000".

Definition document (address kdf : string) (kdfparams : JSValue)
    (ciphertext mac : string) : JSValue :=
  object [("version", num 3); ("id", JString "3198bc9c");
          ("address", JString address);
          ("crypto", object [("ciphertext", JString ciphertext);
                             ("cipherparams", object [("iv", JString "6087dab2f9fdbbfa")]);
                             ("cipher", JString "aes-128-ctr");
                             ("kdf", JString kdf);
                             ("kdfparams", kdfparams);
                             ("mac", JString mac)])].

(** The documents: a scrypt keystore whose password is ["test123"], and a
    PBKDF2 keystore that names another pseudo-random function. *)
Definition scrypt_keystore : JSValue :=
  document address34 "scrypt" scrypt_params "c0ffee"
    "090a0b0c0d0e0f000000000000000000c0ffee".

Definition pbkdf2_sha512_keystore : JSValue :=
  document address34 "pbkdf2" (pbkdf2_params "hmac-sha512") "c0ffee"
    "090a0b0c0d0e0f000000000000000000c0ffee".

(** The scrypt keystore under the address of another key. *)
Definition misaddressed_keystore : JSValue :=
  document "A111111111111111111111111111111111" "scrypt" scrypt_params "c0ffee"
    "090a0b0c0d0e0f000000000000000000c0ffee".

(** A scrypt keystore whose ciphertext deciphers to 33 bytes. *)
Definition long_ciphertext : string :=
  "0102030405060708090a0b0c0d0e0f101112131415161718191a1b1c1d1e1f2021".

Definition long_keystore : JSValue :=
  document "A0102030405060708090a0b0c0d0e0f101" "scrypt" scrypt_params
    long_ciphertext ("090a0b0c0d0e0f000000000000000000" +:+ long_ciphertext).

(** A keystore that names a key derivation the code does not know. *)
Definition argon2_keystore : JSValue :=
  document address34 "argon2id" scrypt_params "c0ffee" "00".

(** Their JSON texts.  [q s] is [s] between double quotes. *)
Definition q (s : string) : string := String "034" (s +:+ String "034" "").

Definition field (name value : string) : string := q name +:+ ":" +:+ value.

Definition document_text (kdf kdfparams ciphertext mac : string) : string :=
  "{" +:+ field "version" "3" +:+ "," +:+ field "id" (q "3198bc9c") +:+ "," +:+
  field "address" (q address34) +:+ "," +:+
  field "crypto"
    ("{" +:+ field "ciphertext" (q ciphertext) +:+ "," +:+
     field "cipherparams" ("{" +:+ field "iv" (q "6087dab2f9fdbbfa") +:+ "}")
     +:+ "," +:+ field "cipher" (q "aes-128-ctr") +:+ "," +:+
     field "kdf" (q kdf) +:+ "," +:+ field "kdfparams" kdfparams +:+ "," +:+
     field "mac" (q mac) +:+ "}") +:+ "}".

Definition scrypt_text : string :=
  document_text "scrypt"
    ("{" +:+ field "dklen" "32" +:+ "," +:+
     field "salt" (q "000102030405060708090a0b0c0d0e0f") +:+ "," +:+
     field "n" "262144" +:+ "," +:+ field "r" "8" +:+ "," +:+ field "p" "1"
     +:+ "}")
    "c0ffee" "090a0b0c0d0e0f000000000000000000c0ffee".

Definition pbkdf2_sha512_text : string :=
  document_text "pbkdf2"
    ("{" +:+ field "dklen" "32" +:+ "," +:+
     field "salt" (q "000102030405060708090a0b0c0d0e0f") +:+ "," +:+
     field "c" "262144" +:+ "," +:+ field "prf" (q "hmac-sha512") +:+ "}")
    "c0ffee" "090a0b0c0d0e0f000000000000000000c0ffee".

(** What [JSON.parse] returns on the texts above and on [null]; any other
    text counts as unparseable here. *)
Definition parse (text : string) : option JSValue :=
  if bool_decide (text = "null") then Some JNull
  else if bool_decide (text = scrypt_text) then Some scrypt_keystore
  else if bool_decide (text = pbkdf2_sha512_text) then Some pbkdf2_sha512_keystore
  else None.

(** The values a run on these keystores goes through. *)
Definition salt : JSValue := JString "000102030405060708090a0b0c0d0e0f".

Definition derivedKey (password : string) : Buffer :=
  stretch (String.list_byte_of_string password) (default [] (from_hex salt)).

Definition derivation_calls : list Call :=
  [CallBufferFromHex salt; CallScrypt (num 262144) (num 8) (num 1) (num 32)].

Definition mac_calls (ciphertext : string) : list Call :=
  [CallBufferFromHex (JString ciphertext); CallSha3].

Definition decipher_calls : list Call :=
  [CallBufferFromHex (JString "6087dab2f9fdbbfa");
   CallCreateDecipheriv (JString "aes-128-ctr");
   CallDecipherUpdate; CallDecipherFinal].

Definition platform : Platform := {|
  JSON_parse := parse;
  Buffer_from_string := String.list_byte_of_string;
  Buffer_from_hex := from_hex;
  scrypt := sample_scrypt;
  pbkdf2 := sample_pbkdf2;
  sha3_256 := Buffer_toString_hex;
  Decipher := unit;
  createDecipheriv := sample_createDecipheriv;
  decipher_update := fun d data => Some (data, d);
  decipher_final := fun _ => Some [];
  privateKeyToAddress := sample_address
|}.

(** The sample platform with an address encoding that, like the one of the
    client, takes keys of 32 bytes only: 64 digits. *)
Definition strict_platform : Platform := {|
  JSON_parse := parse;
  Buffer_from_string := String.list_byte_of_string;
  Buffer_from_hex := from_hex;
  scrypt := sample_scrypt;
  pbkdf2 := sample_pbkdf2;
  sha3_256 := Buffer_toString_hex;
  Decipher := unit;
  createDecipheriv := sample_createDecipheriv;
  decipher_update := fun d data => Some (data, d);
  decipher_final := fun _ => Some [];
  privateKeyToAddress := fun privateKey =>
    if (String.length privateKey =? 64)%nat
    then sample_address privateKey else None
|}.

End Sample.

(** * The other utilities of the module *)

(** ** Names, hashes and paths *)

(** [value.startsWith(prefix)] *)
Definition String_startsWith (value prefix : string) : bool :=
  String.prefix prefix value.

(** [value.slice(start)], for [start >= 0]: the string without its first
    [start] characters. *)
Fixpoint String_slice (start : nat) (value : string) : string :=
  match start, value with
  | 0, _ => value
  | S _, EmptyString => EmptyString
  | S start', String _ rest => String_slice start' rest
  end.

(** [value.endsWith(suffix)] *)
Definition String_endsWith (value suffix : string) : bool :=
  (String.length suffix <=? String.length value)%nat &&
  bool_decide
    (String_slice (String.length value - String.length suffix) value = suffix).

(** [value.slice(0, -1)]: the string without its last character. *)
Definition String_slice_0_minus1 (value : string) : string :=
  String.substring 0 (String.length value - 1) value.

(** The codes of [CodedClientError] the wallet utilities use beside those
    of the keystore routines. *)
Inductive WalletErrorCode :=
| NAME_TOO_SHORT_ERROR
| NAME_TOO_LONG_ERROR
| CREATE_NEP2_ERROR.

Definition MAX_NAME_CHARACTERS : nat := 34.

(** [validateName]: [inl code] is [throw new CodedClientError(code)], [inr
    tt] the return. *)
Definition validateName (name : string) : WalletErrorCode + unit :=
  if (String.length name =? 0)%nat then inl NAME_TOO_SHORT_ERROR
  else if (MAX_NAME_CHARACTERS <? String.length name)%nat then inl NAME_TOO_LONG_ERROR
  else inr tt.

(** [add0x] and [strip0x] *)
Definition add0x (value : string) : string :=
  if String_startsWith value "0x" then value else "0x" +:+ value.

Definition strip0x (value : string) : string :=
  if String_startsWith value "0x" then String_slice 2 value else value.

(** [createKeystoreFilename] *)
Definition createKeystoreFilename (address : string) : string :=
  address +:+ ".txt".

(** The path and the canonical URL computed by the [App] component from
    [location.pathname] and [appOptions.url]. *)
Definition App_path (pathname : string) : string :=
  if String_endsWith pathname "/" then String_slice_0_minus1 pathname
  else pathname.

Definition App_canonicalURL (url pathname : string) : string :=
  url +:+ App_path pathname.

(** The two key derivations among the library calls. *)
Definition is_key_derivation (c : Call) : bool :=
  match c with CallScrypt _ _ _ _ | CallPbkdf2 _ _ => true | _ => false end.

(** The digits of [buffer.toString('hex')]. *)
Definition hex_digits : list ascii := String.list_ascii_of_string "0123456789abcdef".

(** ** The wallet client *)

(** [UserAccountID], [UserAccount] and the two kinds of wallet the
    utilities are handed: the fields the module reads. *)
Record UserAccountID := {
  id_network : string;
  id_address : string;
}.

Record UserAccount := {
  account_id : UserAccountID;
  account_name : string;
}.

Record UnlockedLocalWallet := {
  wallet_account : UserAccount;
  wallet_privateKey : string;
}.

Record LockedWalletDeprecated := {
  wallet_keystore : JSValue;
  wallet_name : string;
}.

(** The argument of [keystore.addAccount]: an object literal with
    [network] and some of the other properties. *)
Record AddAccountOptions := {
  add_network : string;
  add_name : option string;
  add_privateKey : option string;
  add_password : option string;
  add_nep2 : option string;
  add_address : option string;
}.

(** What [readClient.getAccount] resolves to. *)
Record Account := {
  Account_address : string;
  Account_balances : gmap string number;
}.

(** [AppContext]: the network, and the options [options$] emits first
    (taken to be there when asked for). *)
Record AppContext := {
  appContext_network : string;
  appOptions_confirmLimitMS : number;
}.

Inductive ClaimAllGASProgress :=
| fetch_unspent_sending
| fetch_unspent_done
| spend_all_sending
| spend_all_confirming (hash : string)
| spend_all_confirmed
| spend_all_skip
| fetch_unclaimed_sending
| fetch_unclaimed_done
| claim_gas_sending
| claim_gas_confirming (hash : string)
| claim_gas_confirmed
| claim_gas_skip.

(** A [BigNumber] is a decimal number, an infinity or NaN; [numbers.ZERO]
    is zero and [a.gt(b)] the strict order, false when either side is
    NaN. *)
Definition numbers_ZERO : number := Finite 0.

Definition BigNumber_gt (a b : number) : bool :=
  match a, b with
  | NaN, _ | _, NaN => false
  | Finite x, Finite y => negb (Qle_bool x y)
  | Finite _, Infinity negative => negative
  | Infinity negative, Finite _ => negb negative
  | Infinity negative, Infinity negative' => negb negative && negative'
  end.

(** What the module asks of the client and of its callbacks, as the trace
    records it. *)
Inductive Event :=
| Crypto (c : Call)
| MemoryDeleteAccount (id : UserAccountID)
| MemoryAddAccount (options : AddAccountOptions)
| LocalStorageAddAccount (options : AddAccountOptions)
| SelectAccount (id : option UserAccountID)
| DeleteAccount (id : UserAccountID)
| GetAccounts
| DeleteWallet
| GetDecimals (asset : string)
| CreateNEP5SmartContract (network asset : string) (decimals : number)
| ContractTransfer (from to : string) (amount : number) (options_from : UserAccountID)
| Transfer (amount : number) (asset to : string) (options_from : UserAccountID)
| Claim (options_from : UserAccountID)
| Confirmed (hash : string) (timeoutMS : number)
| GetAccount (address : string)
| OnProgress (progress : ClaimAllGASProgress).

(** The progress a callback was told, if the event is a report. *)
Definition progress_of (e : Event) : option ClaimAllGASProgress :=
  match e with
  | OnProgress progress => Some progress
  | _ => None
  end.

(** What a promise of the module is rejected with: an exception of the
    keystore routines, a rejection of the client or of a callback, or
    [new CodedClientError(code, error)] with a code of the utilities. *)
Inductive Thrown (Failure : Type) :=
| KeystoreThrown (e : Exn)
| ClientThrown (e : Failure)
| WalletThrown (code : WalletErrorCode) (originalError : option (Thrown Failure)).
Arguments KeystoreThrown {Failure} e.
Arguments ClientThrown {Failure} e.
Arguments WalletThrown {Failure} code originalError.

Inductive Settled (E A : Type) :=
| Fulfilled (a : A)
| Rejected (e : E).
Arguments Fulfilled {E A} a.
Arguments Rejected {E A} e.

(** The client of [@neo-one/client], its providers and the results of its
    calls.  A call is made in a state of the world (the stores, the chain)
    and leaves a new one; [inl e] is the promise rejected, or the call
    throwing, with [e]. *)
Class Client := {
  World : Type;
  Failure : Type;
  Wallet : Type;
  Contract : Type;
  TransactionResult : Type;
  (** [error.code] and [error instanceof ClientError] *)
  Failure_code : Failure -> JSValue;
  instanceof_ClientError : Thrown Failure -> bool;
  NEO_ASSET_HASH_0X : string;
  Wallet_account : Wallet -> UserAccount;
  transaction_hash : TransactionResult -> string;
  memory_deleteAccount : UserAccountID -> World -> World * (Failure + unit);
  memory_addAccount : AddAccountOptions -> World -> World * (Failure + Wallet);
  localStorage_addAccount : AddAccountOptions -> World -> World * (Failure + Wallet);
  client_selectAccount : option UserAccountID -> World -> World * (Failure + unit);
  client_deleteAccount : UserAccountID -> World -> World * (Failure + unit);
  client_getAccounts : World -> World * (Failure + list UserAccount);
  client_transfer :
    number -> string -> string -> UserAccountID ->
    World -> World * (Failure + TransactionResult);
  client_claim : UserAccountID -> World -> World * (Failure + TransactionResult);
  result_confirmed : TransactionResult -> number -> World -> World * (Failure + unit);
  readClient_getAccount : string -> World -> World * (Failure + Account);
  nep5_getDecimals : string -> World -> World * (Failure + number);
  nep5_createNEP5SmartContract :
    string -> string -> number -> World -> World * (Failure + Contract);
  contract_transfer :
    Contract -> string -> string -> number -> UserAccountID ->
    World -> World * (Failure + TransactionResult);
}.

(** ** Asynchronous runs *)

(** The run of an async function from a state of the world: the events in
    the order they happen, the state left, and how the promise settles. *)
Definition Flow `{Client} (A : Type) : Type :=
  World -> list Event * World * Settled (Thrown Failure) A.

#[export] Instance Flow_ret `{Client} : MRet Flow := fun A a w => ([], w, Fulfilled a).
#[export] Instance Flow_bind `{Client} : MBind Flow := fun A B f m w =>
  match m w with
  | (t, w', Fulfilled a) => let '(t', w'', r) := f a w' in (t ++ t', w'', r)
  | (t, w', Rejected e) => (t, w', Rejected e)
  end.

Definition reject `{Client} {A} (e : Thrown Failure) : Flow A :=
  fun w => ([], w, Rejected e).

(** [try { body } catch (error) { handler }] around awaited calls *)
Definition Flow_try `{Client} {A} (body : Flow A)
    (handler : Thrown Failure -> Flow A) : Flow A := fun w =>
  match body w with
  | (t, w', Rejected error) =>
      let '(t', w'', r) := handler error w' in (t ++ t', w'', r)
  | done => done
  end.

(** An awaited call of the client or of a callback. *)
Definition invoke `{Client} {A} (e : Event)
    (operation : World -> World * (Failure + A)) : Flow A := fun w =>
  let '(w', r) := operation w in
  ([e], w',
   match r with
   | inl failure => Rejected (ClientThrown failure)
   | inr a => Fulfilled a
   end).

(** An awaited run of a keystore routine: it leaves the world as it is. *)
Definition await_run `{Client} {A} (r : Run A) : Flow A := fun w =>
  (Crypto <$> calls r, w,
   match outcome r with
   | Return a => Fulfilled a
   | Throw e => Rejected (KeystoreThrown e)
   end).

(** The call of an async function gives a promise and throws nothing: what
    its body throws rejects the promise.  The promise is the run still to
    come. *)
Definition async_call `{Client} {A} (body : Flow A) : Flow (Flow A) := mret body.

Definition events `{Client} {A}
    (r : list Event * World * Settled (Thrown Failure) A) : list Event := r.1.1.
Definition world `{Client} {A}
    (r : list Event * World * Settled (Thrown Failure) A) : World := r.1.2.
Definition settled `{Client} {A}
    (r : list Event * World * Settled (Thrown Failure) A)
  : Settled (Thrown Failure) A := r.2.

(** ** The wallet utilities *)

Section Wallet.
Context `{P : Platform} `{C : Client}.

(** The [try] block of [doConvertAccount] and the one inside its [catch]
    clause. *)
Definition doConvertAccount_store (wallet : UnlockedLocalWallet)
    (password : string) : Flow unit :=
  let account := wallet_account wallet in
  let options := {|
    add_network := id_network (account_id account);
    add_name := Some (account_name account);
    add_privateKey := Some (wallet_privateKey wallet);
    add_password := Some password;
    add_nep2 := None;
    add_address := None;
  |} in
  _ ← invoke (LocalStorageAddAccount options) (localStorage_addAccount options);
  invoke (SelectAccount (Some (account_id account)))
    (client_selectAccount (Some (account_id account))).

Definition doConvertAccount_restore (wallet : UnlockedLocalWallet) : Flow unit :=
  let account := wallet_account wallet in
  let options := {|
    add_network := id_network (account_id account);
    add_name := Some (account_name account);
    add_privateKey := Some (wallet_privateKey wallet);
    add_password := None;
    add_nep2 := None;
    add_address := None;
  |} in
  _ ← invoke (MemoryAddAccount options) (memory_addAccount options);
  invoke (SelectAccount (Some (account_id account)))
    (client_selectAccount (Some (account_id account))).

Definition doConvertAccount (wallet : UnlockedLocalWallet)
    (password : string) : Flow unit :=
  let account := wallet_account wallet in
  _ ← invoke (MemoryDeleteAccount (account_id account))
        (memory_deleteAccount (account_id account));
  Flow_try (doConvertAccount_store wallet password)
    (fun error =>
       _ ← Flow_try (doConvertAccount_restore wallet) (fun err => mret tt);
       reject error).

(** [convertAccount]: the [try] block returns the promise of
    [doConvertAccount] without awaiting it, so the block ends with the
    call, and the promise returned settles the one of [convertAccount]. *)
Definition convertAccount (wallet : UnlockedLocalWallet)
    (password : string) : Flow unit :=
  promise ← Flow_try (async_call (doConvertAccount wallet password))
    (fun error =>
       if instanceof_ClientError error then reject error
       else reject (WalletThrown CREATE_NEP2_ERROR (Some error)));
  promise.

Definition unlockWalletDeprecated (appContext : AppContext)
    (wallet : LockedWalletDeprecated) (password : string)
    (deleteWallet : World -> World * (Failure + unit)) : Flow unit :=
  privateKey ← await_run (getPrivateKey (wallet_keystore wallet) password);
  let options := {|
    add_network := appContext_network appContext;
    add_name := Some (wallet_name wallet);
    add_privateKey := Some privateKey;
    add_password := Some password;
    add_nep2 := None;
    add_address := None;
  |} in
  _ ← invoke (LocalStorageAddAccount options) (localStorage_addAccount options);
  invoke DeleteWallet deleteWallet.

Definition doSendAsset (appContext : AppContext) (account : UserAccountID)
    (toAddress : string) (amount : number) (assetType assetHashIn : string)
  : Flow string :=
  let asset := add0x assetHashIn in
  if bool_decide (assetType = "NEP5") then
    decimals ← invoke (GetDecimals asset) (nep5_getDecimals asset);
    contract ←
      invoke (CreateNEP5SmartContract (appContext_network appContext) asset decimals)
        (nep5_createNEP5SmartContract (appContext_network appContext) asset decimals);
    result ←
      invoke (ContractTransfer (id_address account) toAddress amount account)
        (contract_transfer contract (id_address account) toAddress amount account);
    mret (strip0x (transaction_hash result))
  else
    result ←
      invoke (Transfer amount asset toAddress account)
        (client_transfer amount asset toAddress account);
    mret (strip0x (transaction_hash result)).

Definition callOnProgress
    (onProgress : option (ClaimAllGASProgress -> World -> World * (Failure + unit)))
    (progress : ClaimAllGASProgress) : Flow unit :=
  match onProgress with
  | Some callback => invoke (OnProgress progress) (callback progress)
  | None => mret tt
  end.

(** [error.code === 'NOTHING_TO_CLAIM']; no code of [CodedClientError] is
    spelled so. *)
Definition is_NOTHING_TO_CLAIM (error : Thrown Failure) : bool :=
  match error with
  | ClientThrown e => strict_eq_string (Failure_code e) "NOTHING_TO_CLAIM"
  | _ => false
  end.

(** The two halves of [claimAllGAS] after the account is fetched, and the
    function passed to [captureSpanLog], which is taken to run it and to
    settle as it does. *)
Definition claimAllGAS_spend (appContext : AppContext)
    (accountID : UserAccountID)
    (onProgress : option (ClaimAllGASProgress -> World -> World * (Failure + unit)))
    (account : Account) (neoBalance : number) : Flow unit :=
  if BigNumber_gt neoBalance numbers_ZERO then
    _ ← callOnProgress onProgress spend_all_sending;
    result ←
      invoke (Transfer neoBalance NEO_ASSET_HASH_0X (Account_address account) accountID)
        (client_transfer neoBalance NEO_ASSET_HASH_0X (Account_address account)
           accountID);
    _ ← callOnProgress onProgress
          (spend_all_confirming (strip0x (transaction_hash result)));
    _ ← invoke
          (Confirmed (transaction_hash result) (appOptions_confirmLimitMS appContext))
          (result_confirmed result (appOptions_confirmLimitMS appContext));
    callOnProgress onProgress spend_all_confirmed
  else callOnProgress onProgress spend_all_skip.

Definition claimAllGAS_claim (appContext : AppContext)
    (accountID : UserAccountID)
    (onProgress : option (ClaimAllGASProgress -> World -> World * (Failure + unit)))
  : Flow unit :=
  _ ← callOnProgress onProgress claim_gas_sending;
  result ← invoke (Claim accountID) (client_claim accountID);
  _ ← callOnProgress onProgress
        (claim_gas_confirming (strip0x (transaction_hash result)));
  _ ← invoke
        (Confirmed (transaction_hash result) (appOptions_confirmLimitMS appContext))
        (result_confirmed result (appOptions_confirmLimitMS appContext));
  callOnProgress onProgress claim_gas_confirmed.

Definition claimAllGAS (appContext : AppContext) (accountID : UserAccountID)
    (onProgress : option (ClaimAllGASProgress -> World -> World * (Failure + unit)))
  : Flow unit :=
  _ ← callOnProgress onProgress fetch_unspent_sending;
  account ← invoke (GetAccount (id_address accountID))
              (readClient_getAccount (id_address accountID));
  let neoBalance :=
    default numbers_ZERO (Account_balances account !! NEO_ASSET_HASH_0X) in
  _ ← callOnProgress onProgress fetch_unspent_done;
  _ ← claimAllGAS_spend appContext accountID onProgress account neoBalance;
  Flow_try (claimAllGAS_claim appContext accountID onProgress)
    (fun error =>
       if is_NOTHING_TO_CLAIM error then callOnProgress onProgress claim_gas_skip
       else reject error).

(** [deleteAccount] *)
Definition deleteAccount (id : UserAccountID) : Flow unit :=
  _ ← invoke (DeleteAccount id) (client_deleteAccount id);
  accounts ← invoke GetAccounts client_getAccounts;
  let selected := account_id <$> head accounts in
  invoke (SelectAccount selected) (client_selectAccount selected).

End Wallet.

(** ** A sample client *)

(** A small client on which the utilities can be run: two stores of
    accounts with their keys, the selected account, one NEO balance and
    something to claim or not.  A failure is its code. *)
Module SampleClient.

Record state := {
  memory : list UnlockedLocalWallet;
  stored : list UnlockedLocalWallet;
  current : option UserAccountID;
  neo : number;
  claimable : bool;
}.

Definition same_id (a b : UserAccountID) : bool :=
  bool_decide (id_network a = id_network b) &&
  bool_decide (id_address a = id_address b).

Definition holds (id : UserAccountID) (wallet : UnlockedLocalWallet) : bool :=
  same_id id (account_id (wallet_account wallet)).

Definition without (id : UserAccountID) (wallets : list UnlockedLocalWallet)
  : list UnlockedLocalWallet :=
  List.filter (fun wallet => negb (holds id wallet)) wallets.

Definition wallet_of (options : AddAccountOptions) : option UnlockedLocalWallet :=
  privateKey ← add_privateKey options;
  address ← Sample.sample_address privateKey;
  Some {|
    wallet_account := {|
      account_id := {| id_network := add_network options; id_address := address |};
      account_name := default "" (add_name options);
    |};
    wallet_privateKey := privateKey;
  |}.

Definition sample_memory_deleteAccount (id : UserAccountID) (w : state)
  : state * (string + unit) :=
  if existsb (holds id) (memory w) then
    ({| memory := without id (memory w); stored := stored w;
        current := current w; neo := neo w; claimable := claimable w |},
     inr tt)
  else (w, inl "UNKNOWN_ACCOUNT").

Definition sample_memory_addAccount (options : AddAccountOptions) (w : state)
  : state * (string + UnlockedLocalWallet) :=
  match wallet_of options with
  | Some wallet =>
      ({| memory := memory w ++ [wallet]; stored := stored w;
          current := current w; neo := neo w; claimable := claimable w |},
       inr wallet)
  | None => (w, inl "INVALID_PRIVATE_KEY")
  end.

Definition sample_localStorage_addAccount (options : AddAccountOptions)
    (w : state) : state * (string + UnlockedLocalWallet) :=
  match add_password options, wallet_of options with
  | Some _, Some wallet =>
      ({| memory := memory w; stored := stored w ++ [wallet];
          current := current w; neo := neo w; claimable := claimable w |},
       inr wallet)
  | None, _ => (w, inl "PASSWORD_REQUIRED")
  | _, None => (w, inl "INVALID_PRIVATE_KEY")
  end.

Definition sample_selectAccount (id : option UserAccountID) (w : state)
  : state * (string + unit) :=
  match id with
  | Some selected =>
      if existsb (holds selected) (stored w ++ memory w) then
        ({| memory := memory w; stored := stored w; current := id;
            neo := neo w; claimable := claimable w |},
         inr tt)
      else (w, inl "UNKNOWN_ACCOUNT")
  | None =>
      ({| memory := memory w; stored := stored w; current := None;
          neo := neo w; claimable := claimable w |},
       inr tt)
  end.

Definition sample_deleteAccount (id : UserAccountID) (w : state)
  : state * (string + unit) :=
  ({| memory := without id (memory w); stored := without id (stored w);
      current := current w; neo := neo w; claimable := claimable w |},
   inr tt).

Definition sample_getAccounts (w : state) : state * (string + list UserAccount) :=
  (w, inr (wallet_account <$> stored w ++ memory w)).

Definition sample_transfer (amount : number) (asset to : string)
    (options_from : UserAccountID) (w : state) : state * (string + string) :=
  if BigNumber_gt amount (neo w) then (w, inl "INSUFFICIENT_FUNDS")
  else (w, inr "0x5e9d").

Definition sample_claim (options_from : UserAccountID) (w : state)
  : state * (string + string) :=
  if claimable w then
    ({| memory := memory w; stored := stored w; current := current w;
        neo := neo w; claimable := false |},
     inr "0xc1a1")
  else (w, inl "NOTHING_TO_CLAIM").

Definition neo_hash : string := "0xc56f33fc".

Definition sample_getAccount (address : string) (w : state)
  : state * (string + Account) :=
  (w, inr {| Account_address := address;
             Account_balances := {[ neo_hash := neo w ]} |}).

Definition client : Client := {|
  World := state;
  Failure := string;
  Wallet := UnlockedLocalWallet;
  Contract := string;
  TransactionResult := string;
  Failure_code := JString;
  instanceof_ClientError := fun error =>
    match error with ClientThrown _ => false | _ => true end;
  NEO_ASSET_HASH_0X := neo_hash;
  Wallet_account := wallet_account;
  transaction_hash := fun hash => hash;
  memory_deleteAccount := sample_memory_deleteAccount;
  memory_addAccount := sample_memory_addAccount;
  localStorage_addAccount := sample_localStorage_addAccount;
  client_selectAccount := sample_selectAccount;
  client_deleteAccount := sample_deleteAccount;
  client_getAccounts := sample_getAccounts;
  client_transfer := sample_transfer;
  client_claim := sample_claim;
  result_confirmed := fun _ _ w => (w, inr tt);
  readClient_getAccount := sample_getAccount;
  nep5_getDecimals := fun _ w => (w, inr (Finite 8));
  nep5_createNEP5SmartContract := fun _ asset _ w => (w, inr asset);
  contract_transfer := fun _ _ _ _ _ w => (w, inr "0x7e95");
|}.

(** A callback that fails on the report [claim-gas-skip], with the code of
    a claim that had nothing to claim. *)
Definition failing_callback (progress : ClaimAllGASProgress) (w : state)
  : state * (string + unit) :=
  match progress with
  | claim_gas_skip => (w, inl "NOTHING_TO_CLAIM")
  | _ => (w, inr tt)
  end.

(** The account of the sample keystore, held in memory, and states of the
    world with and without NEO to spend. *)
Definition key : string :=
  "0000000000000000000000000000000000000000000000000000000000c0ffee".

Definition id : UserAccountID :=
  {| id_network := "main"; id_address := Sample.address34 |}.

Definition unlocked : UnlockedLocalWallet := {|
  wallet_account := {| account_id := id; account_name := "savings" |};
  wallet_privateKey := key;
|}.

Definition funded : state := {|
  memory := [unlocked]; stored := []; current := Some id;
  neo := Finite 5; claimable := true;
|}.

Definition spent : state := {|
  memory := [unlocked]; stored := []; current := Some id;
  neo := Finite 0; claimable := false;
|}.

Definition appContext : AppContext := {|
  appContext_network := "main";
  appOptions_confirmLimitMS := Finite 180000;
|}.

(** A second account, and a client that holds both. *)
Definition other_id : UserAccountID :=
  {| id_network := "main"; id_address := "A111111111111111111111111111111111" |}.

Definition other : UnlockedLocalWallet := {|
  wallet_account := {| account_id := other_id; account_name := "spending" |};
  wallet_privateKey :=
    "1111111111111111111111111111111111111111111111111111111111111111";
|}.

Definition crowded : state := {|
  memory := [unlocked; other]; stored := []; current := Some id;
  neo := Finite 5; claimable := true;
|}.

End SampleClient.

(** * The keystore routines over a store *)

(** The same routines once more, with the document where JavaScript has
    it: in a store of objects that are reached by reference and can be
    written to.  A library routine that is handed a value of the document
    is handed the store with it: given a reference it may read and write
    the objects behind it. *)
Module Mutable.

Definition Loc := nat.

(** A value is a primitive or a reference to an object or an array. *)
Inductive Value :=
| VUndefined
| VNull
| VBool (b : bool)
| VNumber (n : number)
| VString (s : string)
| VRef (l : Loc).

Inductive Cell :=
| ObjectCell (fields : gmap string Value)
| ArrayCell (items : list Value).

Definition Store := gmap Loc Cell.

Definition typeof (v : Value) : string :=
  match v with
  | VUndefined => "undefined"
  | VNull => "object"
  | VBool _ => "boolean"
  | VNumber _ => "number"
  | VString _ => "string"
  | VRef _ => "object"
  end.

Definition strict_eq_string (v : Value) (s : string) : bool :=
  match v with
  | VString t => bool_decide (t = s)
  | _ => false
  end.

Definition strict_eq_number (v : Value) (n : number) : bool :=
  match v with
  | VNumber m => number_eq m n
  | _ => false
  end.

Definition is_primitive (v : Value) : bool :=
  match v with
  | VRef _ => false
  | _ => true
  end.

(** [v.p] in the store [h]; a reference always names a cell of the
    store. *)
Definition getp (h : Store) (v : Value) (p : string) : Outcome Value :=
  match v with
  | VUndefined | VNull => Throw TypeError
  | VRef l =>
      match h !! l with
      | Some (ObjectCell fields) => Return (default VUndefined (fields !! p))
      | Some (ArrayCell items) =>
          Return (if bool_decide (p = "length")
                  then VNumber (number_of_nat (length items)) else VUndefined)
      | None => Return VUndefined
      end
  | VString s =>
      Return (if bool_decide (p = "length")
              then VNumber (number_of_nat (String.length s)) else VUndefined)
  | VBool _ | VNumber _ => Return VUndefined
  end.

(** The objects a value leads to, through properties and items. *)
Inductive Reach (h : Store) : Value -> Loc -> Prop :=
| Reach_here l : Reach h (VRef l) l
| Reach_field l fields p v l' :
    h !! l = Some (ObjectCell fields) -> fields !! p = Some v ->
    Reach h v l' -> Reach h (VRef l) l'
| Reach_item l items i v l' :
    h !! l = Some (ArrayCell items) -> items !! i = Some v ->
    Reach h v l' -> Reach h (VRef l) l'.

(** The store [h'] holds the document [v] as [h] does: every object the
    document leads to in [h] is the same in [h'].  The rest of the two
    stores may differ. *)
Definition same_document (h h' : Store) (v : Value) : Prop :=
  forall l, Reach h v l -> h' !! l = h !! l.

(** A step of a routine: from a store to a store and a result or an
    exception. *)
Definition Step (A : Type) : Type := Store -> Store * Outcome A.

#[global] Instance Step_ret : MRet Step := fun A a h => (h, Return a).
#[global] Instance Step_bind : MBind Step := fun A B f m h =>
  match m h with
  | (h', Return a) => f a h'
  | (h', Throw e) => (h', Throw e)
  end.

Definition throw {A} (e : Exn) : Step A := fun h => (h, Throw e).

Definition try_catch {A} (body : Step A) (handler : Exn -> Step A) : Step A :=
  fun h =>
    match body h with
    | (h', Throw error) => handler error h'
    | done => done
    end.

(** An expression of the module itself: it reads the store. *)
Definition read {A} (expression : Store -> Outcome A) : Step A :=
  fun h => (h, expression h).

(** A call of a library routine that was handed a value of the document,
    and one that was handed buffers and strings of the module only; [None]
    is the routine throwing. *)
Definition call {A} (routine : Store -> Store * option A) : Step A :=
  fun h =>
    let '(h', result) := routine h in
    (h', from_option Return (Throw LibraryError) result).

Definition call_pure {A} (result : option A) : Step A :=
  fun h => (h, from_option Return (Throw LibraryError) result).

(** The routines of other packages. *)
Class Library := {
  JSON_parse : string -> Store -> Store * option Value;
  Buffer_from_string : string -> Buffer;
  Buffer_from_hex : Value -> Store -> Store * option Buffer;
  scrypt : Buffer -> Buffer -> Value -> Value -> Value -> Value ->
           Store -> Store * option Buffer;
  pbkdf2 : Buffer -> Buffer -> Value -> Value -> string ->
           Store -> Store * option Buffer;
  sha3_256 : Buffer -> string;
  Decipher : Type;
  createDecipheriv : Value -> Buffer -> Buffer -> Store -> Store * option Decipher;
  decipher_update : Decipher -> Buffer -> option (Buffer * Decipher);
  decipher_final : Decipher -> option Buffer;
  privateKeyToAddress : string -> option string
}.

(** A routine that is handed primitives only has no way into the store: it
    leaves the store as it is and its answer does not depend on it. *)
Record Library_local (L : Library) : Prop := {
  local_Buffer_from_hex : forall v h h',
    is_primitive v = true ->
    Buffer_from_hex v h = (h, (Buffer_from_hex v h').2);
  local_scrypt : forall password salt n r p dklen h h',
    is_primitive n = true -> is_primitive r = true ->
    is_primitive p = true -> is_primitive dklen = true ->
    scrypt password salt n r p dklen h
    = (h, (scrypt password salt n r p dklen h').2);
  local_pbkdf2 : forall password salt c dklen digest h h',
    is_primitive c = true -> is_primitive dklen = true ->
    pbkdf2 password salt c dklen digest h
    = (h, (pbkdf2 password salt c dklen digest h').2);
  local_createDecipheriv : forall cipher key iv h h',
    is_primitive cipher = true ->
    createDecipheriv cipher key iv h = (h, (createDecipheriv cipher key iv h').2)
}.

Section Keystore.
Context `{L : Library}.

Definition keystore_crypto (h : Store) (keystore : Value) (p : string)
  : Outcome Value :=
  crypto ← getp h keystore "crypto"; getp h crypto p.

Definition decipherBuffer (decipher : Decipher) (data : Buffer) : Step Buffer :=
  updated ← call_pure (decipher_update decipher data);
  final ← call_pure (decipher_final updated.2);
  mret (updated.1 ++ final).

Definition getPrivateKey_derivedKey (keystore : Value) (password : string)
  : Step Buffer :=
  crypto ← read (fun h => getp h keystore "crypto");
  kdfparams ← read (fun h => getp h crypto "kdfparams");
  kdf ← read (fun h => keystore_crypto h keystore "kdf");
  if strict_eq_string kdf "scrypt" then
    try_catch
      (salt ← read (fun h => getp h kdfparams "salt");
       saltBuffer ← call (Buffer_from_hex salt);
       n ← read (fun h => getp h kdfparams "n");
       r ← read (fun h => getp h kdfparams "r");
       p ← read (fun h => getp h kdfparams "p");
       dklen ← read (fun h => getp h kdfparams "dklen");
       call (scrypt (Buffer_from_string password) saltBuffer n r p dklen))
      (fun error =>
         throw (CodedClientError DECRYPT_KEYSTORE_DERIVED_KEY_ERROR (Some error)))
  else
    kdf ← read (fun h => keystore_crypto h keystore "kdf");
    if strict_eq_string kdf "pbkdf2" then
      prf ← read (fun h => getp h kdfparams "prf");
      if negb (strict_eq_string prf "hmac-sha256") then
        throw (CodedClientError
                 DECRYPT_KEYSTORE_UNSUPPORTED_PBKDF2_PARAMETERS None)
      else
        try_catch
          (salt ← read (fun h => getp h kdfparams "salt");
           saltBuffer ← call (Buffer_from_hex salt);
           c ← read (fun h => getp h kdfparams "c");
           dklen ← read (fun h => getp h kdfparams "dklen");
           call (pbkdf2 (Buffer_from_string password) saltBuffer c dklen "sha256"))
          (fun error =>
             throw (CodedClientError DECRYPT_KEYSTORE_DERIVED_KEY_ERROR
                      (Some error)))
    else
      throw (CodedClientError DECRYPT_KEYSTORE_UNSUPPORTED_ALGO None).

Definition getPrivateKey_mac (keystore : Value) (derivedKey : Buffer)
  : Step (Buffer * string) :=
  try_catch
    (text ← read (fun h => keystore_crypto h keystore "ciphertext");
     ciphertext ← call (Buffer_from_hex text);
     mac ← call_pure
             (Some (sha3_256 (Buffer_slice derivedKey 16 32 ++ ciphertext)));
     mret (ciphertext, mac))
    (fun error =>
       throw (CodedClientError DECRYPT_KEYSTORE_UNKNOWN_CRYPTO_ERROR
                (Some error))).

Definition getPrivateKey_decipher (keystore : Value)
    (derivedKey ciphertext : Buffer) : Step Buffer :=
  cipher ← read (fun h => keystore_crypto h keystore "cipher");
  cipherparams ← read (fun h => keystore_crypto h keystore "cipherparams");
  iv ← read (fun h => getp h cipherparams "iv");
  ivBuffer ← call (Buffer_from_hex iv);
  decipher ← call (createDecipheriv cipher (Buffer_slice derivedKey 0 16) ivBuffer);
  decipherBuffer decipher ciphertext.

Definition getPrivateKey_seed (keystore : Value)
    (derivedKey ciphertext : Buffer) : Step Buffer :=
  try_catch
    (deciphered ← getPrivateKey_decipher keystore derivedKey ciphertext;
     mret (prependKey deciphered))
    (fun error =>
       throw (CodedClientError DECRYPT_KEYSTORE_DECIPHER_ERROR (Some error))).

Definition getPrivateKey (keystore : Value) (password : string) : Step string :=
  derivedKey ← getPrivateKey_derivedKey keystore password;
  ciphertext_mac ← getPrivateKey_mac keystore derivedKey;
  expected ← read (fun h => keystore_crypto h keystore "mac");
  if negb (strict_eq_string expected ciphertext_mac.2) then
    throw (CodedClientError DECRYPT_KEYSTORE_WRONG_PASSPHRASE None)
  else
    seed ← getPrivateKey_seed keystore derivedKey ciphertext_mac.1;
    let privateKey := Buffer_toString_hex seed in
    address ← call_pure (privateKeyToAddress privateKey);
    expected ← read (fun h => getp h keystore "address");
    if negb (strict_eq_string expected address) then
      throw (CodedClientError DECRYPT_KEYSTORE_WRONG_ADDRESS None)
    else
      mret privateKey.

Definition typeof_is (e : Outcome Value) (t : string) : Outcome bool :=
  v ← e; mret (bool_decide (typeof v = t)).

Infix "&&&" := and_then (at level 40, left associativity).
Infix "|||" := or_else (at level 50, left associativity).

Definition isValidKDFParams (h : Store) (kdf kdfparams : Value) : Outcome bool :=
  typeof_is (getp h kdfparams "dklen") "number" &&&
  typeof_is (getp h kdfparams "salt") "string" &&&
  ((mret (strict_eq_string kdf "scrypt") &&&
    typeof_is (getp h kdfparams "n") "number" &&&
    typeof_is (getp h kdfparams "r") "number" &&&
    typeof_is (getp h kdfparams "p") "number") |||
   (mret (strict_eq_string kdf "pbkdf2") &&&
    typeof_is (getp h kdfparams "c") "number" &&&
    typeof_is (getp h kdfparams "prf") "string")).

Definition extractKeystore_check (h : Store) (keystore : Value) : Outcome bool :=
  typeof_is (mret keystore) "object" &&&
  typeof_is (getp h keystore "version") "number" &&&
  (version ← getp h keystore "version";
   mret (strict_eq_number version (number_of_nat 3))) &&&
  typeof_is (getp h keystore "id") "string" &&&
  typeof_is (getp h keystore "address") "string" &&&
  (address ← getp h keystore "address";
   len ← getp h address "length";
   mret (strict_eq_number len (number_of_nat 34))) &&&
  typeof_is (getp h keystore "crypto") "object" &&&
  typeof_is (keystore_crypto h keystore "ciphertext") "string" &&&
  typeof_is (keystore_crypto h keystore "cipherparams") "object" &&&
  typeof_is (cipherparams ← keystore_crypto h keystore "cipherparams";
             getp h cipherparams "iv") "string" &&&
  typeof_is (keystore_crypto h keystore "cipher") "string" &&&
  typeof_is (keystore_crypto h keystore "kdf") "string" &&&
  typeof_is (keystore_crypto h keystore "kdfparams") "object" &&&
  (kdf ← keystore_crypto h keystore "kdf";
   kdfparams ← keystore_crypto h keystore "kdfparams";
   isValidKDFParams h kdf kdfparams) &&&
  typeof_is (keystore_crypto h keystore "mac") "string".

Definition extractKeystore (text : Value) : Step Value :=
  match text with
  | VString text =>
      keystore ←
        try_catch
          (fun h =>
             let '(h', parsed) := JSON_parse text h in
             (h', from_option Return (Throw SyntaxError) parsed))
          (fun error =>
             throw (CodedClientError EXTRACT_KEYSTORE_INVALID_JSON (Some error)));
      ok ← read (fun h => extractKeystore_check h keystore);
      if negb ok then
        throw (CodedClientError EXTRACT_KEYSTORE_INVALID_FORMAT None)
      else
        mret keystore
  | _ => throw (CodedClientError EXTRACT_KEYSTORE_INVALID_FILE None)
  end.

End Keystore.

(** The parameters [isValidKDFParams] lets through, and the documents the
    condition of [extractKeystore] lets through, in a store. *)
Inductive ValidKDFParams (h : Store) (kdf : string) (kdfparams : Value) : Prop :=
| valid_scrypt dklen salt n r p :
    kdf = "scrypt" ->
    getp h kdfparams "dklen" = Return (VNumber dklen) ->
    getp h kdfparams "salt" = Return (VString salt) ->
    getp h kdfparams "n" = Return (VNumber n) ->
    getp h kdfparams "r" = Return (VNumber r) ->
    getp h kdfparams "p" = Return (VNumber p) ->
    ValidKDFParams h kdf kdfparams
| valid_pbkdf2 dklen salt c prf :
    kdf = "pbkdf2" ->
    getp h kdfparams "dklen" = Return (VNumber dklen) ->
    getp h kdfparams "salt" = Return (VString salt) ->
    getp h kdfparams "c" = Return (VNumber c) ->
    getp h kdfparams "prf" = Return (VString prf) ->
    ValidKDFParams h kdf kdfparams.

Inductive Validated (h : Store) (keystore : Value) : Prop :=
| validated version id address crypto ciphertext cipherparams iv cipher kdf
    kdfparams mac :
    getp h keystore "version" = Return (VNumber version) ->
    number_eq version (number_of_nat 3) = true ->
    getp h keystore "id" = Return (VString id) ->
    getp h keystore "address" = Return (VString address) ->
    String.length address = 34 ->
    getp h keystore "crypto" = Return crypto ->
    getp h crypto "ciphertext" = Return (VString ciphertext) ->
    getp h crypto "cipherparams" = Return cipherparams ->
    getp h cipherparams "iv" = Return (VString iv) ->
    getp h crypto "cipher" = Return (VString cipher) ->
    getp h crypto "kdf" = Return (VString kdf) ->
    getp h crypto "kdfparams" = Return kdfparams ->
    ValidKDFParams h kdf kdfparams ->
    getp h crypto "mac" = Return (VString mac) ->
    Validated h keystore.

(** A routine ends the same way on two stores and changes neither. *)
Definition unobserved {A} (m : Step A) (h h' : Store) : Prop :=
  (m h).1 = h /\ (m h').1 = h' /\ (m h').2 = (m h).2.

End Mutable.

(** ** A sample store *)

(** The sample platform as a library over the store, and the scrypt
    keystore as four objects.  [Buffer.from(value, 'hex')] of this library
    decodes a string; handed an object or an array instead, it clears it. *)
Module SampleStore.

Definition num (z : Z) : Mutable.Value := Mutable.VNumber (Finite (inject_Z z)).

Definition is_number (v : Mutable.Value) : bool :=
  bool_decide (Mutable.typeof v = "number").

Definition from_hex (v : Mutable.Value) (h : Mutable.Store)
  : Mutable.Store * option Buffer :=
  match v with
  | Mutable.VString s => (h, Sample.hex_decode s)
  | Mutable.VRef l => (<[l := Mutable.ObjectCell ∅]> h, None)
  | _ => (h, None)
  end.

Definition object (fields : list (string * Mutable.Value)) : Mutable.Cell :=
  Mutable.ObjectCell (list_to_map fields).

(** The objects of the scrypt keystore, from the location [base] on; the
    salt is the value [salt]. *)
Definition cells (base : Mutable.Loc) (salt : Mutable.Value)
  : list (Mutable.Loc * Mutable.Cell) :=
  [(base,
    object [("version", num 3); ("id", Mutable.VString "3198bc9c");
            ("address", Mutable.VString Sample.address34);
            ("crypto", Mutable.VRef (base + 1))]);
   (base + 1,
    object [("ciphertext", Mutable.VString "c0ffee");
            ("cipherparams", Mutable.VRef (base + 2));
            ("cipher", Mutable.VString "aes-128-ctr");
            ("kdf", Mutable.VString "scrypt");
            ("kdfparams", Mutable.VRef (base + 3));
            ("mac", Mutable.VString "090a0b0c0d0e0f000000000000000000c0ffee")]);
   (base + 2, object [("iv", Mutable.VString "6087dab2f9fdbbfa")]);
   (base + 3,
    object [("dklen", num 32); ("salt", salt);
            ("n", num 262144); ("r", num 8); ("p", num 1)])].

Definition salt : Mutable.Value :=
  Mutable.VString "000102030405060708090a0b0c0d0e0f".

(** The first location no object of the store has. *)
Definition next (h : Mutable.Store) : Mutable.Loc :=
  map_fold (fun l _ n => Nat.max (S l) n) 0 h.

(** [JSON.parse] knows the text of the scrypt keystore, and makes its four
    objects anew each time. *)
Definition parse (text : string) (h : Mutable.Store)
  : Mutable.Store * option Mutable.Value :=
  if bool_decide (text = Sample.scrypt_text)
  then (list_to_map (cells (next h) salt) ∪ h, Some (Mutable.VRef (next h)))
  else (h, None).

Definition library : Mutable.Library := {|
  Mutable.JSON_parse := parse;
  Mutable.Buffer_from_string := String.list_byte_of_string;
  Mutable.Buffer_from_hex := from_hex;
  Mutable.scrypt := fun password salt n r p dklen h =>
    (h, if is_number n && is_number r && is_number p && is_number dklen
        then Some (Sample.stretch password salt) else None);
  Mutable.pbkdf2 := fun password salt c dklen digest h =>
    (h, if is_number c && is_number dklen
        then Some (Sample.stretch password salt) else None);
  Mutable.sha3_256 := Buffer_toString_hex;
  Mutable.Decipher := unit;
  Mutable.createDecipheriv := fun cipher key iv h =>
    (h, if Mutable.strict_eq_string cipher "aes-128-ctr" then Some () else None);
  Mutable.decipher_update := fun d data => Some (data, d);
  Mutable.decipher_final := fun _ => Some [];
  Mutable.privateKeyToAddress := Sample.sample_address
|}.

(** The store after the text of the scrypt keystore was parsed in an empty
    store, the same store with an object more, and a store whose document
    has an object where the salt is to be. *)
Definition document : Mutable.Store := list_to_map (cells 0 salt).

Definition crowded : Mutable.Store :=
  <[7 := object [("name", Mutable.VString "savings")]]> document.

Definition bent : Mutable.Store :=
  <[4 := object [("hex", Mutable.VString "000102030405060708090a0b0c0d0e0f")]]>
    (list_to_map (cells 0 (Mutable.VRef 4))).

End SampleStore.

(** * Properties *)

(** ** Values and property reads *)

Lemma typeof_string v : typeof v = "string" <-> exists s, v = JString s.
Proof.
  split; [| intros [s ->]; reflexivity].
  destruct v; simpl; try discriminate. eauto.
Qed.

Lemma typeof_number v : typeof v = "number" <-> exists n, v = JNumber n.
Proof.
  split; [| intros [s ->]; reflexivity].
  destruct v; simpl; try discriminate. eauto.
Qed.

Lemma strict_eq_string_true v s : strict_eq_string v s = true <-> v = JString s.
Proof.
  destruct v; simpl; try (split; [discriminate | congruence]).
  rewrite bool_decide_eq_true. split; congruence.
Qed.

Lemma strict_eq_string_false v s : strict_eq_string v s = false <-> v <> JString s.
Proof.
  rewrite <- strict_eq_string_true.
  destruct (strict_eq_string v s); split; congruence.
Qed.

(** A value on which one read returns is neither [null] nor [undefined],
    so every read on it returns. *)
Lemma getp_returns v p x q : getp v p = Return x -> exists y, getp v q = Return y.
Proof. destruct v; simpl; try discriminate; eauto. Qed.

Lemma number_of_nat_eq a b :
  number_eq (number_of_nat a) (number_of_nat b) = true <-> a = b.
Proof.
  unfold number_of_nat, number_eq. rewrite Qeq_bool_iff, inject_Z_injective.
  split; [apply Nat2Z.inj | congruence].
Qed.

(** ** [prependKey] *)

(** The loop always ends, having put [32 - length seed] zero bytes in front
    of the seed (none when the seed has 32 bytes or more). *)
Lemma prependKey_replicate (seed : Buffer) :
  prependKey seed = replicate (32 - length seed) Byte.x00 ++ seed.
Proof.
  funelim (prependKey seed).
  - simpl in *.
    match goal with IH : prependKey _ = replicate _ _ ++ _ |- _ => rewrite IH end.
    replace (32 - length seed) with (S (32 - S (length seed))) by lia.
    rewrite replicate_S_end, <- app_assoc. reflexivity.
  - replace (32 - length seed) with 0 by lia. reflexivity.
Qed.

Lemma prependKey_unchanged (seed : Buffer) :
  32 <= length seed -> prependKey seed = seed.
Proof.
  intros Hlong. rewrite prependKey_replicate.
  replace (32 - length seed) with 0 by lia. reflexivity.
Qed.

Lemma Buffer_toString_hex_length (b : Buffer) :
  String.length (Buffer_toString_hex b) = 2 * length b.
Proof. induction b as [| x rest IH]; simpl; [reflexivity | rewrite IH; lia]. Qed.

(** C5.  A seed shorter than 32 bytes is left-padded to exactly 32 bytes:
    the result is zero bytes followed by the seed itself, untouched. *)
Theorem prependKey_left_pads (seed : Buffer) :
  length seed < 32 ->
  length (prependKey seed) = 32 /\
  exists padding,
    prependKey seed = padding ++ seed /\
    Forall (fun byte => byte = Byte.x00) padding.
Proof.
  intros Hshort. rewrite prependKey_replicate. split.
  - rewrite length_app, length_replicate. lia.
  - exists (replicate (32 - length seed) Byte.x00). split; [reflexivity |].
    apply Forall_replicate. reflexivity.
Qed.

Lemma prependKey_left_pads_witness :
  length (prependKey [Byte.xc0; Byte.xff; Byte.xee]) = 32 /\
  exists padding,
    prependKey [Byte.xc0; Byte.xff; Byte.xee]
      = padding ++ [Byte.xc0; Byte.xff; Byte.xee] /\
    Forall (fun byte => byte = Byte.x00) padding.
Proof.
  apply (prependKey_left_pads [Byte.xc0; Byte.xff; Byte.xee]). simpl. lia.
Defined.

(** ** Validation *)

Section Properties.
Context `{P : Platform}.

Lemma and_then_true a b :
  and_then a b = Return true <-> a = Return true /\ b = Return true.
Proof.
  unfold and_then, mbind, Outcome_bind, mret, Outcome_ret.
  destruct a as [[] |]; split; try tauto; try (intros [? ?]; congruence);
    try congruence.
Qed.

Lemma or_else_true a b :
  or_else a b = Return true <->
  a = Return true \/ (a = Return false /\ b = Return true).
Proof.
  unfold or_else, mbind, Outcome_bind, mret, Outcome_ret.
  destruct a as [[] |]; split; try tauto; intros [? | [? ?]]; congruence.
Qed.

Lemma typeof_is_true e t :
  typeof_is e t = Return true <-> exists v, e = Return v /\ typeof v = t.
Proof.
  unfold typeof_is, mbind, Outcome_bind, mret, Outcome_ret. destruct e as [v |].
  - split.
    + intros [= Ht%bool_decide_eq_true]. eauto.
    + intros (? & [= <-] & Ht). f_equal. apply bool_decide_eq_true. assumption.
  - split; [discriminate | intros (? & ? & _); discriminate].
Qed.

Lemma keystore_crypto_Return keystore p v :
  keystore_crypto keystore p = Return v <->
  exists crypto, getp keystore "crypto" = Return crypto /\ getp crypto p = Return v.
Proof.
  unfold keystore_crypto, mbind, Outcome_bind.
  destruct (getp keystore "crypto") as [c |].
  - split; [eauto | intros (? & [= <-] & ?); assumption].
  - split; [discriminate | intros (? & ? & _); discriminate].
Qed.

Lemma isValidKDFParams_true kdf kdfparams :
  isValidKDFParams (JString kdf) kdfparams = Return true <->
  ValidKDFParams kdf kdfparams.
Proof.
  unfold isValidKDFParams. split.
  - rewrite !and_then_true, or_else_true, !and_then_true, !typeof_is_true.
    setoid_rewrite typeof_number. setoid_rewrite typeof_string.
    unfold mret, Outcome_ret.
    intros [[(? & Hd & dklen & ->) (? & Hs & salt & ->)] Hvariant].
    destruct Hvariant as [Hs1 | [_ Hp]].
    + destruct Hs1 as [[[[= Hk%bool_decide_eq_true] (? & Hn & n & ->)]
                          (? & Hr & r & ->)] (? & Hp & p & ->)].
      eapply valid_scrypt; eauto.
    + destruct Hp as [[[= Hk%bool_decide_eq_true] (? & Hc & c & ->)]
                        (? & Hprf & prf & ->)].
      eapply valid_pbkdf2; eauto.
  - intros [dklen salt n r p -> Hd Hs Hn Hr Hp | dklen salt c prf -> Hd Hs Hc Hp].
    + rewrite Hd, Hs, Hn, Hr, Hp. reflexivity.
    + rewrite Hd, Hs, Hc, Hp. reflexivity.
Qed.

Lemma extractKeystore_check_true keystore :
  extractKeystore_check keystore = Return true <-> Validated keystore.
Proof.
  unfold extractKeystore_check. split.
  - rewrite !and_then_true, !typeof_is_true.
    intros H0.
    repeat match type of H0 with
           | _ /\ _ => let H' := fresh "K" in destruct H0 as [H0 H']
           end.
    destruct K7 as (crypto & Hcrypto & _).
    unfold keystore_crypto, mbind, Outcome_bind, mret, Outcome_ret in *.
    rewrite Hcrypto in *. clear H0.
    destruct K12 as (? & Hversion & [version ->]%typeof_number).
    rewrite Hversion in K11. injection K11 as K11. simpl in K11.
    destruct K10 as (? & Hid & [id ->]%typeof_string).
    destruct K9 as (? & Haddress & [address ->]%typeof_string).
    rewrite Haddress in K8. injection K8 as K8. simpl in K8.
    apply number_of_nat_eq in K8.
    destruct K6 as (? & Hciphertext & [ciphertext ->]%typeof_string).
    destruct K5 as (cipherparams & Hcipherparams & _).
    rewrite Hcipherparams in K4.
    destruct K4 as (? & Hiv & [iv ->]%typeof_string).
    destruct K3 as (? & Hcipher & [cipher ->]%typeof_string).
    destruct K2 as (? & Hkdf & [kdf ->]%typeof_string).
    destruct K1 as (kdfparams & Hkdfparams & _).
    rewrite Hkdf, Hkdfparams in K0. apply isValidKDFParams_true in K0.
    destruct K as (? & Hmac & [mac ->]%typeof_string).
    eapply validated; eauto.
  - intros [version id address crypto ciphertext cipherparams iv cipher kdf
              kdfparams mac Hversion H3 Hid Haddress H34 Hcrypto Hciphertext
              Hcipherparams Hiv Hcipher Hkdf Hkdfparams Hvalid Hmac].
    assert (Hobj : typeof keystore = "object")
      by (destruct keystore; try discriminate; reflexivity).
    assert (Hobj1 : typeof crypto = "object")
      by (destruct crypto; try discriminate; reflexivity).
    assert (Hobj2 : typeof cipherparams = "object")
      by (destruct cipherparams; try discriminate; reflexivity).
    assert (Hobj3 : typeof kdfparams = "object")
      by (destruct Hvalid; destruct kdfparams; try discriminate; reflexivity).
    apply isValidKDFParams_true in Hvalid.
    unfold keystore_crypto, and_then, typeof_is, mbind, Outcome_bind, mret,
      Outcome_ret.
    rewrite Hobj, Hversion, Hid, Haddress, Hcrypto, Hciphertext, Hcipherparams,
      Hiv, Hcipher, Hkdf, Hkdfparams, Hvalid, Hmac, Hobj1, Hobj2, Hobj3.
    cbv beta iota. unfold strict_eq_number. rewrite H3. cbv beta iota.
    unfold getp. rewrite H34. reflexivity.
Qed.

Lemma extractKeystore_Return text keystore :
  extractKeystore text = Return keystore <->
  exists s, text = JString s /\ JSON_parse s = Some keystore /\ Validated keystore.
Proof.
  setoid_rewrite <- extractKeystore_check_true. unfold extractKeystore. split.
  - destruct text; try discriminate.
    destruct (JSON_parse s) as [parsed |] eqn:Hparse; [| discriminate].
    unfold mbind, Outcome_bind.
    destruct (extractKeystore_check parsed) as [[] |] eqn:Hcheck; simpl;
      try discriminate.
    intros [= ->]. eauto.
  - intros (s & -> & -> & Hcheck). unfold mbind, Outcome_bind.
    rewrite Hcheck. reflexivity.
Qed.

(** ** Runs *)

(** The handlers of [getPrivateKey] wrap what was thrown. *)
Lemma try_catch_wrap {A} (body : Run A) code :
  try_catch body (fun error => throw (CodedClientError code (Some error))) =
  (calls body,
   match outcome body with
   | Return a => Return a
   | Throw error => Throw (CodedClientError code (Some error))
   end).
Proof.
  destruct body as [t [a | e]]; simpl; [reflexivity |].
  rewrite app_nil_r. reflexivity.
Qed.

Lemma Run_bind_eq {A B} (m : Run A) (f : A -> Run B) :
  m ≫= f =
  match outcome m with
  | Return a => (calls m ++ calls (f a), outcome (f a))
  | Throw e => (calls m, Throw e)
  end.
Proof.
  destruct m as [t [a | e]]; simpl; [| reflexivity].
  destruct (f a); reflexivity.
Qed.

Lemma eval_bind {A B} (o : Outcome A) (f : A -> Run B) :
  eval o ≫= f = match o with Return a => f a | Throw e => ([], Throw e) end.
Proof. destruct o as [a | e]; simpl; [destruct (f a) |]; reflexivity. Qed.

Lemma call_bind {A B} c (o : option A) (f : A -> Run B) :
  call c o ≫= f =
  match o with
  | Some a => (c :: calls (f a), outcome (f a))
  | None => ([c], Throw LibraryError)
  end.
Proof. destruct o as [a |]; simpl; [destruct (f a) |]; reflexivity. Qed.

(** ** The blocks of [getPrivateKey] *)

Lemma strict_eq_string_refl s : strict_eq_string (JString s) s = true.
Proof. apply strict_eq_string_true. reflexivity. Qed.

(** The first block on a scrypt keystore whose parameters can be read. *)
Lemma derivedKey_scrypt keystore password crypto kdfparams salt n r p dklen :
  getp keystore "crypto" = Return crypto ->
  getp crypto "kdfparams" = Return kdfparams ->
  getp crypto "kdf" = Return (JString "scrypt") ->
  getp kdfparams "salt" = Return salt ->
  getp kdfparams "n" = Return n ->
  getp kdfparams "r" = Return r ->
  getp kdfparams "p" = Return p ->
  getp kdfparams "dklen" = Return dklen ->
  getPrivateKey_derivedKey keystore password =
  match Buffer_from_hex salt with
  | None =>
      ([CallBufferFromHex salt],
       Throw (CodedClientError DECRYPT_KEYSTORE_DERIVED_KEY_ERROR
                (Some LibraryError)))
  | Some saltBuffer =>
      ([CallBufferFromHex salt; CallScrypt n r p dklen],
       match scrypt (Buffer_from_string password) saltBuffer n r p dklen with
       | Some key => Return key
       | None =>
           Throw (CodedClientError DECRYPT_KEYSTORE_DERIVED_KEY_ERROR
                    (Some LibraryError))
       end)
  end.
Proof.
  intros Hcrypto Hkdfparams Hkdf Hsalt Hn Hr Hp Hdklen.
  unfold getPrivateKey_derivedKey, keystore_crypto.
  rewrite Hcrypto, eval_bind, Hkdfparams, eval_bind.
  change (Return crypto ≫= (fun c => getp c "kdf")) with (getp crypto "kdf").
  rewrite Hkdf, eval_bind, strict_eq_string_refl, try_catch_wrap.
  rewrite Hsalt, eval_bind, call_bind.
  destruct (Buffer_from_hex salt) as [saltBuffer |]; [| reflexivity].
  rewrite Hn, eval_bind, Hr, eval_bind, Hp, eval_bind, Hdklen, eval_bind.
  unfold call.
  destruct (scrypt _ _ _ _ _ _); reflexivity.
Qed.

(** The first block on a PBKDF2 keystore whose parameters can be read. *)
Lemma derivedKey_pbkdf2 keystore password crypto kdfparams prf salt c dklen :
  getp keystore "crypto" = Return crypto ->
  getp crypto "kdfparams" = Return kdfparams ->
  getp crypto "kdf" = Return (JString "pbkdf2") ->
  getp kdfparams "prf" = Return prf ->
  getp kdfparams "salt" = Return salt ->
  getp kdfparams "c" = Return c ->
  getp kdfparams "dklen" = Return dklen ->
  getPrivateKey_derivedKey keystore password =
  if negb (strict_eq_string prf "hmac-sha256") then
    ([], Throw (CodedClientError
                  DECRYPT_KEYSTORE_UNSUPPORTED_PBKDF2_PARAMETERS None))
  else
    match Buffer_from_hex salt with
    | None =>
        ([CallBufferFromHex salt],
         Throw (CodedClientError DECRYPT_KEYSTORE_DERIVED_KEY_ERROR
                  (Some LibraryError)))
    | Some saltBuffer =>
        ([CallBufferFromHex salt; CallPbkdf2 c dklen],
         match pbkdf2 (Buffer_from_string password) saltBuffer c dklen "sha256" with
         | Some key => Return key
         | None =>
             Throw (CodedClientError DECRYPT_KEYSTORE_DERIVED_KEY_ERROR
                      (Some LibraryError))
         end)
    end.
Proof.
  intros Hcrypto Hkdfparams Hkdf Hprf Hsalt Hc Hdklen.
  unfold getPrivateKey_derivedKey, keystore_crypto.
  rewrite Hcrypto, eval_bind, Hkdfparams, eval_bind.
  change (Return crypto ≫= (fun c => getp c "kdf")) with (getp crypto "kdf").
  rewrite Hkdf, eval_bind.
  change (strict_eq_string (JString "pbkdf2") "scrypt") with false.
  cbv iota. rewrite eval_bind, strict_eq_string_refl, Hprf, eval_bind.
  destruct (strict_eq_string prf "hmac-sha256"); [| reflexivity].
  cbn [negb]. rewrite try_catch_wrap, Hsalt, eval_bind, call_bind.
  destruct (Buffer_from_hex salt) as [saltBuffer |]; [| reflexivity].
  rewrite Hc, eval_bind, Hdklen, eval_bind.
  unfold call.
  destruct (pbkdf2 _ _ _ _ _); reflexivity.
Qed.

(** The first block on any other [kdf]. *)
Lemma derivedKey_unsupported keystore password crypto kdf :
  getp keystore "crypto" = Return crypto ->
  getp crypto "kdf" = Return kdf ->
  kdf <> JString "scrypt" ->
  kdf <> JString "pbkdf2" ->
  getPrivateKey_derivedKey keystore password =
  ([], Throw (CodedClientError DECRYPT_KEYSTORE_UNSUPPORTED_ALGO None)).
Proof.
  intros Hcrypto Hkdf Hscrypt%strict_eq_string_false Hpbkdf2%strict_eq_string_false.
  destruct (getp_returns crypto "kdf" kdf "kdfparams" Hkdf) as [kdfparams Hkdfparams].
  unfold getPrivateKey_derivedKey, keystore_crypto.
  rewrite Hcrypto, eval_bind, Hkdfparams, eval_bind.
  change (Return crypto ≫= (fun c => getp c "kdf")) with (getp crypto "kdf").
  rewrite Hkdf, eval_bind, Hscrypt, eval_bind, Hpbkdf2. reflexivity.
Qed.

Lemma getPrivateKey_Throw_derivedKey keystore password t e :
  getPrivateKey_derivedKey keystore password = (t, Throw e) ->
  getPrivateKey keystore password = (t, Throw e).
Proof. intros Hkey. unfold getPrivateKey. rewrite Hkey. reflexivity. Qed.

(** The second block, once the ciphertext can be read. *)
Lemma mac_block keystore derivedKey text :
  keystore_crypto keystore "ciphertext" = Return text ->
  getPrivateKey_mac keystore derivedKey =
  match Buffer_from_hex text with
  | None =>
      ([CallBufferFromHex text],
       Throw (CodedClientError DECRYPT_KEYSTORE_UNKNOWN_CRYPTO_ERROR
                (Some LibraryError)))
  | Some ciphertext =>
      ([CallBufferFromHex text; CallSha3],
       Return (ciphertext,
               sha3_256 (Buffer_slice derivedKey 16 32 ++ ciphertext)))
  end.
Proof.
  intros Htext. unfold getPrivateKey_mac.
  rewrite try_catch_wrap, Htext, eval_bind, call_bind.
  destruct (Buffer_from_hex text); reflexivity.
Qed.

(** Whatever the document, the second block ends with a ciphertext and a
    MAC or with [DECRYPT_KEYSTORE_UNKNOWN_CRYPTO_ERROR], and it deciphers
    nothing. *)
Lemma mac_block_outcome keystore derivedKey :
  match outcome (getPrivateKey_mac keystore derivedKey) with
  | Return (ciphertext, mac) =>
      mac = sha3_256 (Buffer_slice derivedKey 16 32 ++ ciphertext)
  | Throw e =>
      exists error,
        e = CodedClientError DECRYPT_KEYSTORE_UNKNOWN_CRYPTO_ERROR (Some error)
  end /\
  Forall (fun c => is_decryption c = false)
    (calls (getPrivateKey_mac keystore derivedKey)).
Proof.
  unfold getPrivateKey_mac. rewrite try_catch_wrap, eval_bind.
  destruct (keystore_crypto keystore "ciphertext") as [text |];
    [| simpl; eauto].
  rewrite call_bind. destruct (Buffer_from_hex text); simpl; eauto 10.
Qed.

Lemma try_catch_wrap_calls {A} (body : Run A) code :
  calls (try_catch body
           (fun error => throw (CodedClientError code (Some error))))
  = calls body.
Proof. rewrite try_catch_wrap. reflexivity. Qed.

(** The calls of the first block are key derivations and hex decodings. *)
Lemma derivedKey_block_calls keystore password :
  Forall (fun c => is_decryption c = false /\ is_mac c = false)
    (calls (getPrivateKey_derivedKey keystore password)).
Proof.
  unfold getPrivateKey_derivedKey. rewrite eval_bind.
  destruct (getp keystore "crypto") as [crypto |]; [| constructor].
  rewrite eval_bind.
  destruct (getp crypto "kdfparams") as [kdfparams |]; [| constructor].
  rewrite eval_bind.
  destruct (keystore_crypto keystore "kdf") as [kdf |]; [| constructor].
  destruct (strict_eq_string kdf "scrypt").
  - rewrite try_catch_wrap_calls, eval_bind.
    destruct (getp kdfparams "salt") as [salt |]; [| constructor].
    rewrite call_bind.
    destruct (Buffer_from_hex salt); [| repeat constructor].
    rewrite !eval_bind.
    destruct (getp kdfparams "n"); [| repeat constructor].
    destruct (getp kdfparams "r"); [| repeat constructor].
    destruct (getp kdfparams "p"); [| repeat constructor].
    destruct (getp kdfparams "dklen"); repeat constructor.
  - rewrite eval_bind.
    destruct (strict_eq_string kdf "pbkdf2"); [| constructor].
    rewrite eval_bind.
    destruct (getp kdfparams "prf") as [prf |]; [| constructor].
    destruct (negb (strict_eq_string prf "hmac-sha256")); [constructor |].
    rewrite try_catch_wrap_calls, eval_bind.
    destruct (getp kdfparams "salt") as [salt |]; [| constructor].
    rewrite call_bind.
    destruct (Buffer_from_hex salt); [| repeat constructor].
    rewrite !eval_bind.
    destruct (getp kdfparams "c"); [| repeat constructor].
    destruct (getp kdfparams "dklen"); repeat constructor.
Qed.

(** ** The integrity check *)

(** How [getPrivateKey] goes on after its first two blocks. *)
Lemma getPrivateKey_after_mac keystore password t1 derivedKey t2 ciphertext mac :
  getPrivateKey_derivedKey keystore password = (t1, Return derivedKey) ->
  getPrivateKey_mac keystore derivedKey = (t2, Return (ciphertext, mac)) ->
  getPrivateKey keystore password =
  match keystore_crypto keystore "mac" with
  | Throw e => (t1 ++ t2, Throw e)
  | Return expected =>
      if strict_eq_string expected mac then
        match getPrivateKey_seed keystore derivedKey ciphertext with
        | (t3, Throw e) => (t1 ++ t2 ++ t3, Throw e)
        | (t3, Return seed) =>
            match privateKeyToAddress (Buffer_toString_hex seed) with
            | None =>
                (t1 ++ t2 ++ t3 ++ [CallPrivateKeyToAddress],
                 Throw LibraryError)
            | Some address =>
                (t1 ++ t2 ++ t3 ++ [CallPrivateKeyToAddress],
                 match getp keystore "address" with
                 | Throw e => Throw e
                 | Return expected =>
                     if strict_eq_string expected address
                     then Return (Buffer_toString_hex seed)
                     else Throw (CodedClientError
                                   DECRYPT_KEYSTORE_WRONG_ADDRESS None)
                 end)
            end
        end
      else
        (t1 ++ t2,
         Throw (CodedClientError DECRYPT_KEYSTORE_WRONG_PASSPHRASE None))
  end.
Proof.
  intros Hkey Hmac. unfold getPrivateKey.
  rewrite Hkey, Run_bind_eq. cbn [outcome calls fst snd].
  rewrite Hmac, Run_bind_eq. cbn [outcome calls fst snd].
  rewrite eval_bind.
  destruct (keystore_crypto keystore "mac") as [expected |];
    [| rewrite app_nil_r; reflexivity].
  destruct (strict_eq_string expected mac); cbn [negb];
    [| rewrite app_nil_r; reflexivity].
  rewrite Run_bind_eq.
  destruct (getPrivateKey_seed keystore derivedKey ciphertext) as [t3 [seed | e]];
    cbn [outcome calls fst snd]; [| reflexivity].
  rewrite call_bind.
  destruct (privateKeyToAddress (Buffer_toString_hex seed)) as [address |];
    [| reflexivity].
  rewrite eval_bind.
  destruct (getp keystore "address") as [expected' |]; [| reflexivity].
  destruct (strict_eq_string expected' address); reflexivity.
Qed.

Lemma getPrivateKey_Throw_mac keystore password t1 derivedKey t2 e :
  getPrivateKey_derivedKey keystore password = (t1, Return derivedKey) ->
  getPrivateKey_mac keystore derivedKey = (t2, Throw e) ->
  getPrivateKey keystore password = (t1 ++ t2, Throw e).
Proof.
  intros Hkey Hmac. unfold getPrivateKey.
  rewrite Hkey, Run_bind_eq. cbn [outcome calls fst snd].
  rewrite Hmac. reflexivity.
Qed.

(** On a validated keystore the first block ends with a key, with
    [DECRYPT_KEYSTORE_DERIVED_KEY_ERROR] or with
    [DECRYPT_KEYSTORE_UNSUPPORTED_PBKDF2_PARAMETERS]. *)
Lemma derivedKey_block_validated keystore password :
  Validated keystore ->
  match outcome (getPrivateKey_derivedKey keystore password) with
  | Return _ => True
  | Throw e =>
      e = CodedClientError DECRYPT_KEYSTORE_DERIVED_KEY_ERROR (Some LibraryError)
      \/ e = CodedClientError DECRYPT_KEYSTORE_UNSUPPORTED_PBKDF2_PARAMETERS None
  end.
Proof.
  intros [version id address crypto ciphertext cipherparams iv cipher kdf
            kdfparams mac _ _ _ _ _ Hcrypto _ _ _ _ Hkdf Hkdfparams Hvalid _].
  destruct Hvalid as [dklen salt n r p -> Hdklen Hsalt Hn Hr Hp
                     | dklen salt c prf -> Hdklen Hsalt Hc Hprf].
  - erewrite derivedKey_scrypt by eassumption.
    destruct (Buffer_from_hex _); simpl; [| auto].
    destruct (scrypt _ _ _ _ _ _); simpl; auto.
  - erewrite derivedKey_pbkdf2 by eassumption.
    destruct (negb _); simpl; [auto |].
    destruct (Buffer_from_hex _); simpl; [| auto].
    destruct (pbkdf2 _ _ _ _ _); simpl; auto.
Qed.

(** On a validated keystore, when the key derivations fail on their
    parameters only, the first block succeeds for every password once it
    succeeds for one. *)
Lemma derivedKey_block_any_password keystore correct password t derivedKey :
  Validated keystore ->
  derivation_ignores_password ->
  getPrivateKey_derivedKey keystore correct = (t, Return derivedKey) ->
  exists derivedKey',
    getPrivateKey_derivedKey keystore password = (t, Return derivedKey').
Proof.
  intros [version id address crypto ciphertext cipherparams iv cipher kdf
            kdfparams mac _ _ _ _ _ Hcrypto _ _ _ _ Hkdf Hkdfparams Hvalid _]
    [Hscrypt Hpbkdf2].
  destruct Hvalid as [dklen salt n r p -> Hdklen Hsalt Hn Hr Hp
                     | dklen salt c prf -> Hdklen Hsalt Hc Hprf].
  - rewrite !(derivedKey_scrypt keystore _ _ _ _ _ _ _ _
                Hcrypto Hkdfparams Hkdf Hsalt Hn Hr Hp Hdklen).
    destruct (Buffer_from_hex _) as [saltBuffer |]; [| discriminate].
    destruct (scrypt (Buffer_from_string password) _ _ _ _ _) eqn:Hpassword.
    + intros [= <- _]. eauto.
    + rewrite (Hscrypt _ (Buffer_from_string correct) _ _ _ _ _ Hpassword).
      discriminate.
  - rewrite !(derivedKey_pbkdf2 keystore _ _ _ _ _ _ _
                Hcrypto Hkdfparams Hkdf Hprf Hsalt Hc Hdklen).
    destruct (negb _); [discriminate |].
    destruct (Buffer_from_hex _) as [saltBuffer |]; [| discriminate].
    destruct (pbkdf2 (Buffer_from_string password) _ _ _ _) eqn:Hpassword.
    + intros [= <- _]. eauto.
    + rewrite (Hpbkdf2 _ (Buffer_from_string correct) _ _ _ _ Hpassword).
      discriminate.
Qed.

(** The second block succeeds for every derived key once it succeeds for
    one. *)
Lemma mac_block_any_key keystore derivedKey derivedKey' t ciphertext mac :
  getPrivateKey_mac keystore derivedKey = (t, Return (ciphertext, mac)) ->
  exists mac',
    getPrivateKey_mac keystore derivedKey' = (t, Return (ciphertext, mac')).
Proof.
  unfold getPrivateKey_mac. rewrite !try_catch_wrap, !eval_bind.
  destruct (keystore_crypto keystore "ciphertext") as [text |];
    [| discriminate].
  rewrite !call_bind.
  destruct (Buffer_from_hex text) as [decoded |]; [| discriminate].
  rewrite !call_bind. cbn. intros [= <- <- _]. eauto.
Qed.

Lemma wrong_passphrase_when_openable keystore correct password :
  Validated keystore ->
  ~ mac_matches keystore password ->
  derivation_ignores_password ->
  mac_matches keystore correct ->
  exists t,
    getPrivateKey keystore password =
    (t, Throw (CodedClientError DECRYPT_KEYSTORE_WRONG_PASSPHRASE None)).
Proof.
  intros Hvalid Hwrong Hignores
    (t1 & derivedKey & t2 & ciphertext & mac & Hkey & Hmac & Hexpected).
  destruct (derivedKey_block_any_password _ _ password _ _ Hvalid Hignores Hkey)
    as [derivedKey' Hkey'].
  destruct (mac_block_any_key _ _ derivedKey' _ _ _ Hmac) as [mac' Hmac'].
  exists (t1 ++ t2).
  rewrite (getPrivateKey_after_mac _ _ _ _ _ _ _ Hkey' Hmac'), Hexpected.
  destruct (strict_eq_string (JString mac) mac') eqn:Hsame; [| reflexivity].
  apply strict_eq_string_true in Hsame as [= ->].
  contradiction Hwrong. unfold mac_matches. eauto 10.
Qed.

(** [buffer.slice(start, end)] holds the bytes of the buffer from index
    [start] up to, not including, index [end]. *)
Lemma Buffer_slice_lookup (b : Buffer) (start stop i : nat) :
  Buffer_slice b start stop !! i
  = if decide (i < stop - start) then b !! (start + i) else None.
Proof.
  unfold Buffer_slice. destruct (decide (i < stop - start)) as [Hin | Hout].
  - rewrite lookup_take_lt by assumption. apply lookup_drop.
  - apply lookup_take_ge. lia.
Qed.

Lemma mac_block_Return keystore derivedKey t ciphertext mac :
  Validated keystore ->
  getPrivateKey_mac keystore derivedKey = (t, Return (ciphertext, mac)) ->
  (exists hex,
     keystore_crypto keystore "ciphertext" = Return (JString hex) /\
     Buffer_from_hex (JString hex) = Some ciphertext) /\
  mac = sha3_256 (take 16 (drop 16 derivedKey) ++ ciphertext).
Proof.
  intros Hvalid Hmac.
  assert (Hhex : exists hex,
             keystore_crypto keystore "ciphertext" = Return (JString hex)).
  { destruct Hvalid. eexists. apply keystore_crypto_Return. eauto. }
  destruct Hhex as [hex Hhex].
  rewrite (mac_block _ _ _ Hhex) in Hmac.
  destruct (Buffer_from_hex (JString hex)) as [decoded |] eqn:Hdecoded;
    [| discriminate].
  injection Hmac as _ <- <-. split; [eauto | reflexivity].
Qed.

(** C1, as the code has it.  On a keystore accepted by [extractKeystore]
    and a password that does not pass the integrity check: when the key
    derivation and the MAC computation go through, the MAC is the SHA3-256
    digest of [take 16 (drop 16 derivedKey)], bytes 16 to 32 of the derived
    key, followed by the decoded ciphertext; it differs, as a string, from
    [keystore.crypto.mac], and the run ends right after the digest with
    [DECRYPT_KEYSTORE_WRONG_PASSPHRASE].  The run ends with that code in
    these runs only: when a step before the comparison fails, the failure
    is the one of that step.  In every case the run ends with a coded
    error other than [DECRYPT_KEYSTORE_DECIPHER_ERROR], returns no key and
    has deciphered nothing.  When some password opens the keystore and the
    key derivations fail on their parameters only, every password that does
    not pass the check ends with [DECRYPT_KEYSTORE_WRONG_PASSPHRASE]. *)
Theorem getPrivateKey_wrong_passphrase text keystore password :
  extractKeystore text = Return keystore ->
  ~ mac_matches keystore password ->
  (forall t1 derivedKey t2 ciphertext mac,
     getPrivateKey_derivedKey keystore password = (t1, Return derivedKey) ->
     getPrivateKey_mac keystore derivedKey = (t2, Return (ciphertext, mac)) ->
     (exists hex,
        keystore_crypto keystore "ciphertext" = Return (JString hex) /\
        Buffer_from_hex (JString hex) = Some ciphertext) /\
     mac = sha3_256 (take 16 (drop 16 derivedKey) ++ ciphertext) /\
     (exists expected,
        keystore_crypto keystore "mac" = Return (JString expected) /\
        expected <> mac) /\
     getPrivateKey keystore password =
     (t1 ++ t2, Throw (CodedClientError DECRYPT_KEYSTORE_WRONG_PASSPHRASE None)))
  /\ (outcome (getPrivateKey keystore password)
      = Throw (CodedClientError DECRYPT_KEYSTORE_WRONG_PASSPHRASE None) <->
      exists t1 derivedKey t2 ciphertext mac,
        getPrivateKey_derivedKey keystore password = (t1, Return derivedKey) /\
        getPrivateKey_mac keystore derivedKey = (t2, Return (ciphertext, mac)))
  /\ (exists code original,
        outcome (getPrivateKey keystore password)
        = Throw (CodedClientError code original) /\
        code <> DECRYPT_KEYSTORE_DECIPHER_ERROR /\
        (code = DECRYPT_KEYSTORE_WRONG_PASSPHRASE \/
         code = DECRYPT_KEYSTORE_DERIVED_KEY_ERROR \/
         code = DECRYPT_KEYSTORE_UNSUPPORTED_PBKDF2_PARAMETERS \/
         code = DECRYPT_KEYSTORE_UNKNOWN_CRYPTO_ERROR))
  /\ Forall (fun c => is_decryption c = false)
       (calls (getPrivateKey keystore password))
  /\ (derivation_ignores_password ->
      forall correct,
        mac_matches keystore correct ->
        exists t,
          getPrivateKey keystore password =
          (t, Throw (CodedClientError DECRYPT_KEYSTORE_WRONG_PASSPHRASE None))).
Proof.
  intros (s & -> & _ & Hvalid)%extractKeystore_Return Hwrong.
  assert (Hopenable : derivation_ignores_password ->
    forall correct,
      mac_matches keystore correct ->
      exists t,
        getPrivateKey keystore password =
        (t, Throw (CodedClientError DECRYPT_KEYSTORE_WRONG_PASSPHRASE None))).
  { intros Hignores correct Hcorrect.
    apply (wrong_passphrase_when_openable _ correct); assumption. }
  assert (Hexpected : exists expected,
             keystore_crypto keystore "mac" = Return (JString expected)).
  { destruct Hvalid. eexists. apply keystore_crypto_Return. eauto. }
  destruct Hexpected as [expected Hexpected].
  assert (Hcheck : forall t1 derivedKey t2 ciphertext mac,
     getPrivateKey_derivedKey keystore password = (t1, Return derivedKey) ->
     getPrivateKey_mac keystore derivedKey = (t2, Return (ciphertext, mac)) ->
     expected <> mac /\
     getPrivateKey keystore password =
     (t1 ++ t2, Throw (CodedClientError DECRYPT_KEYSTORE_WRONG_PASSPHRASE None))).
  { intros t1 derivedKey t2 ciphertext mac Hkey Hmac.
    assert (Hne : expected <> mac).
    { intros ->. apply Hwrong. unfold mac_matches. eauto 10. }
    split; [assumption |].
    rewrite (getPrivateKey_after_mac _ _ _ _ _ _ _ Hkey Hmac), Hexpected.
    assert (Hfalse : strict_eq_string (JString expected) mac = false)
      by (apply strict_eq_string_false; congruence).
    rewrite Hfalse. reflexivity. }
  split; [| split; [| split; [| split; [| exact Hopenable]]]].
  - intros t1 derivedKey t2 ciphertext mac Hkey Hmac.
    destruct (mac_block_Return _ _ _ _ _ Hvalid Hmac) as [Hhex Hdigest].
    destruct (Hcheck _ _ _ _ _ Hkey Hmac) as [Hne Hrun].
    eauto 10.
  - split.
    + intros Hthrown.
      pose proof (derivedKey_block_validated keystore password Hvalid) as Hkey.
      destruct (getPrivateKey_derivedKey keystore password)
        as [t1 [derivedKey | e]] eqn:Ekey; cbn [outcome snd] in Hkey.
      2: { rewrite (getPrivateKey_Throw_derivedKey _ _ _ _ Ekey) in Hthrown.
           cbn [outcome snd] in Hthrown. destruct Hkey; congruence. }
      pose proof (mac_block_outcome keystore derivedKey) as [Hmac _].
      destruct (getPrivateKey_mac keystore derivedKey)
        as [t2 [[ciphertext mac] | e]] eqn:Emac; cbn [outcome snd] in Hmac.
      2: { rewrite (getPrivateKey_Throw_mac _ _ _ _ _ _ Ekey Emac) in Hthrown.
           cbn [outcome snd] in Hthrown. destruct Hmac as [error ->].
           discriminate Hthrown. }
      eauto 10.
    + intros (t1 & derivedKey & t2 & ciphertext & mac & Hkey & Hmac).
      destruct (Hcheck _ _ _ _ _ Hkey Hmac) as [_ ->]. reflexivity.
  - pose proof (derivedKey_block_validated keystore password Hvalid) as Hkey.
    destruct (getPrivateKey_derivedKey keystore password)
      as [t1 [derivedKey | e]] eqn:Ekey; cbn [outcome snd] in Hkey.
    2: { rewrite (getPrivateKey_Throw_derivedKey _ _ _ _ Ekey).
         cbn [outcome snd].
         destruct Hkey as [-> | ->]; eexists _, _;
           (split; [reflexivity | split; [discriminate | auto]]). }
    pose proof (mac_block_outcome keystore derivedKey) as [Hmac _].
    destruct (getPrivateKey_mac keystore derivedKey)
      as [t2 [[ciphertext mac] | e]] eqn:Emac; cbn [outcome snd] in Hmac.
    + destruct (Hcheck _ _ _ _ _ eq_refl Emac) as [_ ->].
      eexists _, _. split; [reflexivity | split; [discriminate | auto]].
    + destruct Hmac as [error ->].
      rewrite (getPrivateKey_Throw_mac _ _ _ _ _ _ Ekey Emac).
      eexists _, _. split; [reflexivity | split; [discriminate | auto]].
  - pose proof (derivedKey_block_calls keystore password) as Hcalls1.
    assert (Hquiet1 : Forall (fun c => is_decryption c = false)
                        (calls (getPrivateKey_derivedKey keystore password))).
    { eapply Forall_impl; [exact Hcalls1 | intros ? []; assumption]. }
    destruct (getPrivateKey_derivedKey keystore password)
      as [t1 [derivedKey | e]] eqn:Ekey; cbn [calls fst] in Hquiet1.
    2: { rewrite (getPrivateKey_Throw_derivedKey _ _ _ _ Ekey). assumption. }
    pose proof (mac_block_outcome keystore derivedKey) as [_ Hquiet2].
    destruct (getPrivateKey_mac keystore derivedKey)
      as [t2 [[ciphertext mac] | e]] eqn:Emac; cbn [calls fst] in Hquiet2.
    + destruct (Hcheck _ _ _ _ _ eq_refl Emac) as [_ ->].
      apply Forall_app. split; assumption.
    + rewrite (getPrivateKey_Throw_mac _ _ _ _ _ _ Ekey Emac).
      apply Forall_app. split; assumption.
Qed.

(** ** Unsupported algorithms *)

(** C7.  When [keystore.crypto.kdf] is neither ['scrypt'] nor ['pbkdf2'],
    [getPrivateKey] fails with [DECRYPT_KEYSTORE_UNSUPPORTED_ALGO] without
    having called any library routine: no key derivation, no digest, no
    decipher. *)
Theorem getPrivateKey_unsupported_algo keystore password crypto kdf :
  getp keystore "crypto" = Return crypto ->
  getp crypto "kdf" = Return kdf ->
  kdf <> JString "scrypt" ->
  kdf <> JString "pbkdf2" ->
  getPrivateKey keystore password =
  ([], Throw (CodedClientError DECRYPT_KEYSTORE_UNSUPPORTED_ALGO None)).
Proof.
  intros Hcrypto Hkdf Hscrypt Hpbkdf2.
  apply getPrivateKey_Throw_derivedKey.
  eapply derivedKey_unsupported; eassumption.
Qed.


(** ** What the validation can throw *)

Lemma only_TypeError_getp v p : only_TypeError (getp v p).
Proof. intros e. destruct v; simpl; congruence. Qed.

Lemma only_TypeError_mret {A} (a : A) : only_TypeError (mret a).
Proof. intros e. discriminate. Qed.

Lemma only_TypeError_bind {A B} (m : Outcome A) (f : A -> Outcome B) :
  only_TypeError m -> (forall a, only_TypeError (f a)) -> only_TypeError (m ≫= f).
Proof.
  intros Hm Hf e. destruct m as [a | e']; simpl.
  - apply Hf.
  - intros [= <-]. apply Hm. reflexivity.
Qed.

Lemma only_TypeError_keystore_crypto keystore p :
  only_TypeError (keystore_crypto keystore p).
Proof.
  apply only_TypeError_bind; [apply only_TypeError_getp |].
  intros crypto. apply only_TypeError_getp.
Qed.

Lemma only_TypeError_typeof_is e t : only_TypeError e -> only_TypeError (typeof_is e t).
Proof.
  intros He. apply only_TypeError_bind; [assumption |].
  intros v. apply only_TypeError_mret.
Qed.

Lemma only_TypeError_and_then a b :
  only_TypeError a -> only_TypeError b -> only_TypeError (and_then a b).
Proof.
  intros Ha Hb. apply only_TypeError_bind; [assumption |].
  intros []; [assumption | apply only_TypeError_mret].
Qed.

Lemma only_TypeError_or_else a b :
  only_TypeError a -> only_TypeError b -> only_TypeError (or_else a b).
Proof.
  intros Ha Hb. apply only_TypeError_bind; [assumption |].
  intros []; [apply only_TypeError_mret | assumption].
Qed.

Create HintDb type_error.
#[local] Hint Resolve only_TypeError_getp only_TypeError_mret
  only_TypeError_keystore_crypto only_TypeError_typeof_is
  only_TypeError_and_then only_TypeError_or_else : type_error.

Lemma only_TypeError_isValidKDFParams kdf kdfparams :
  only_TypeError (isValidKDFParams kdf kdfparams).
Proof. unfold isValidKDFParams. auto 20 with type_error. Qed.

Lemma only_TypeError_extractKeystore_check keystore :
  only_TypeError (extractKeystore_check keystore).
Proof.
  unfold extractKeystore_check.
  repeat first
    [ apply only_TypeError_and_then | apply only_TypeError_typeof_is
    | apply only_TypeError_isValidKDFParams
    | apply only_TypeError_keystore_crypto
    | apply only_TypeError_getp | apply only_TypeError_mret
    | apply only_TypeError_bind
    | match goal with |- forall _, _ => intro end ].
Qed.

(** Every way [extractKeystore] can end. *)
Lemma extractKeystore_outcomes text :
  match extractKeystore text with
  | Return keystore => Validated keystore
  | Throw e =>
      e = CodedClientError EXTRACT_KEYSTORE_INVALID_FILE None \/
      e = CodedClientError EXTRACT_KEYSTORE_INVALID_JSON (Some SyntaxError) \/
      e = CodedClientError EXTRACT_KEYSTORE_INVALID_FORMAT None \/
      e = TypeError
  end.
Proof.
  destruct (extractKeystore text) as [keystore | e] eqn:Hrun.
  - apply extractKeystore_Return in Hrun as (? & _ & _ & ?). assumption.
  - unfold extractKeystore in Hrun.
    destruct text; try (injection Hrun as <-; auto).
    destruct (JSON_parse s) as [keystore |]; [| injection Hrun as <-; auto].
    pose proof (only_TypeError_extractKeystore_check keystore) as Htype.
    destruct (extractKeystore_check keystore) as [[] | e']; simpl in Hrun.
    + discriminate.
    + injection Hrun as <-. auto.
    + injection Hrun as <-. rewrite (Htype e' eq_refl). auto.
Qed.

(** ** Malformed documents *)

Lemma and_then_Throw a b e :
  and_then a b = Throw e <-> a = Throw e \/ (a = Return true /\ b = Throw e).
Proof.
  unfold and_then, mbind, Outcome_bind, mret, Outcome_ret.
  destruct a as [[] |]; split; try tauto; try (intros [? | [? ?]]; congruence);
    try (intros [= <-]; auto); try discriminate.
Qed.

(** Case analysis on the reads a hypothesis depends on. *)
Ltac split_reads :=
  repeat (first
    [ discriminate
    | match goal with
      | H : _ /\ _ |- _ => destruct H
      | H : exists _, _ |- _ => destruct H
      | H : Return _ = Return _ |- _ => injection H as H; try subst
      | H : context [match getp ?v ?p with _ => _ end] |- _ =>
          destruct (getp v p) eqn:?
      | H : context [if ?b then _ else _] |- _ => destruct b eqn:?
      end ]; cbv beta iota in *).

(** A read that throws on a value whose [typeof] is known: the value is
    [null]. *)
Ltac find_null :=
  repeat match goal with
    | H1 : getp ?v _ = Return _, H2 : getp ?v _ = Throw _ |- _ =>
        destruct v; discriminate
    | H : getp ?v _ = Throw _, T : typeof ?v = _ |- _ =>
        destruct v; try discriminate; clear H
    end.

(** The condition of [extractKeystore] throws only on a [null]: the
    document itself, or what is under [crypto], [crypto.cipherparams] or
    [crypto.kdfparams].  Each of them has passed [typeof ... === 'object']
    when a property of it is read. *)
Lemma extractKeystore_check_Throw keystore e :
  extractKeystore_check keystore = Throw e ->
  keystore = JNull \/
  getp keystore "crypto" = Return JNull \/
  keystore_crypto keystore "cipherparams" = Return JNull \/
  keystore_crypto keystore "kdfparams" = Return JNull.
Proof.
  unfold extractKeystore_check. intros Hthrow.
  repeat (apply and_then_Throw in Hthrow as [Hthrow | [Htrue Hthrow]];
    [| rewrite ?and_then_true, ?typeof_is_true in Htrue ]).
  all: unfold keystore_crypto, isValidKDFParams in *.
  all: unfold typeof_is, and_then, or_else, mbind, Outcome_bind, mret,
         Outcome_ret in *.
  all: split_reads.
  all: find_null.
  all: auto.
Qed.

(** A parsed document with no [null] at those four places is returned as
    it is when it is validated, and fails with
    [EXTRACT_KEYSTORE_INVALID_FORMAT] when it is not: a required property
    missing or of another type, a [version] other than 3, an [address]
    whose length is not 34, parameters that do not fit [kdf]. *)
Lemma extractKeystore_parsed text keystore :
  JSON_parse text = Some keystore ->
  keystore <> JNull ->
  getp keystore "crypto" <> Return JNull ->
  keystore_crypto keystore "cipherparams" <> Return JNull ->
  keystore_crypto keystore "kdfparams" <> Return JNull ->
  (Validated keystore -> extractKeystore (JString text) = Return keystore) /\
  (~ Validated keystore ->
   extractKeystore (JString text)
   = Throw (CodedClientError EXTRACT_KEYSTORE_INVALID_FORMAT None)).
Proof.
  intros Hparse Hdocument Hcrypto Hcipherparams Hkdfparams. split.
  - intros Hvalid. apply extractKeystore_Return. eauto.
  - intros Hinvalid. unfold extractKeystore. rewrite Hparse.
    destruct (extractKeystore_check keystore) as [[] | e] eqn:Hcheck.
    + contradiction Hinvalid. apply extractKeystore_check_true. assumption.
    + reflexivity.
    + apply extractKeystore_check_Throw in Hcheck. tauto.
Qed.

(** The text [null] parses, and the validation of the result throws. *)
Lemma extractKeystore_null text :
  JSON_parse text = Some JNull -> extractKeystore (JString text) = Throw TypeError.
Proof. intros Hparse. unfold extractKeystore. rewrite Hparse. reflexivity. Qed.

(** ** The pseudo-random function of PBKDF2 *)

(** C3, as the code has it.  A PBKDF2 keystore whose [prf] is not
    ['hmac-sha256'] is turned down by [getPrivateKey], with
    [DECRYPT_KEYSTORE_UNSUPPORTED_PBKDF2_PARAMETERS] and before any library
    call.  [extractKeystore] never raises that error: [isValidKDFParams]
    lets every string [prf] through. *)
Theorem unsupported_prf_rejected_by_getPrivateKey
    keystore password crypto kdfparams prf :
  getp keystore "crypto" = Return crypto ->
  getp crypto "kdf" = Return (JString "pbkdf2") ->
  getp crypto "kdfparams" = Return kdfparams ->
  getp kdfparams "prf" = Return prf ->
  prf <> JString "hmac-sha256" ->
  getPrivateKey keystore password =
  ([], Throw (CodedClientError
                DECRYPT_KEYSTORE_UNSUPPORTED_PBKDF2_PARAMETERS None)) /\
  (forall text original,
     extractKeystore text <>
     Throw (CodedClientError DECRYPT_KEYSTORE_UNSUPPORTED_PBKDF2_PARAMETERS
              original)) /\
  (forall dklen salt c name,
     getp kdfparams "dklen" = Return (JNumber dklen) ->
     getp kdfparams "salt" = Return (JString salt) ->
     getp kdfparams "c" = Return (JNumber c) ->
     prf = JString name ->
     isValidKDFParams (JString "pbkdf2") kdfparams = Return true).
Proof.
  intros Hcrypto Hkdf Hkdfparams Hprf Hother%strict_eq_string_false.
  split; [| split].
  - apply getPrivateKey_Throw_derivedKey.
    destruct (getp_returns _ _ _ "salt" Hprf) as [salt Hsalt].
    destruct (getp_returns _ _ _ "c" Hprf) as [c Hc].
    destruct (getp_returns _ _ _ "dklen" Hprf) as [dklen Hdklen].
    erewrite derivedKey_pbkdf2 by eassumption.
    rewrite Hother. reflexivity.
  - intros text original Hrun.
    pose proof (extractKeystore_outcomes text) as Hcases.
    rewrite Hrun in Hcases.
    destruct Hcases as [? | [? | [? | ?]]]; discriminate.
  - intros dklen salt c name Hdklen Hsalt Hc ->.
    apply isValidKDFParams_true. eapply valid_pbkdf2; eauto.
Qed.

(** ** The algorithm of an accepted keystore *)

(** The third block ends with a seed or with
    [DECRYPT_KEYSTORE_DECIPHER_ERROR]. *)
Lemma seed_block_outcome keystore derivedKey ciphertext :
  match outcome (getPrivateKey_seed keystore derivedKey ciphertext) with
  | Return _ => True
  | Throw e =>
      exists error,
        e = CodedClientError DECRYPT_KEYSTORE_DECIPHER_ERROR (Some error)
  end.
Proof.
  unfold getPrivateKey_seed. rewrite try_catch_wrap. cbn [outcome snd].
  destruct (outcome _); eauto.
Qed.

(** [DECRYPT_KEYSTORE_UNSUPPORTED_ALGO] can only come from the first
    block. *)
Lemma unsupported_algo_from_derivedKey keystore password original :
  outcome (getPrivateKey keystore password)
  = Throw (CodedClientError DECRYPT_KEYSTORE_UNSUPPORTED_ALGO original) ->
  outcome (getPrivateKey_derivedKey keystore password)
  = Throw (CodedClientError DECRYPT_KEYSTORE_UNSUPPORTED_ALGO original).
Proof.
  destruct (getPrivateKey_derivedKey keystore password)
    as [t1 [derivedKey | e]] eqn:Ekey.
  2: { rewrite (getPrivateKey_Throw_derivedKey _ _ _ _ Ekey). intros [= ->]. reflexivity. }
  pose proof (mac_block_outcome keystore derivedKey) as [Hmac _].
  destruct (getPrivateKey_mac keystore derivedKey)
    as [t2 [[ciphertext mac] | e]] eqn:Emac; cbn [outcome snd] in Hmac.
  2: { rewrite (getPrivateKey_Throw_mac _ _ _ _ _ _ Ekey Emac).
       destruct Hmac as [error ->]. discriminate. }
  rewrite (getPrivateKey_after_mac _ _ _ _ _ _ _ Ekey Emac).
  pose proof (only_TypeError_keystore_crypto keystore "mac") as Hexpected.
  destruct (keystore_crypto keystore "mac") as [expected | e].
  2: { rewrite (Hexpected e eq_refl). discriminate. }
  destruct (strict_eq_string expected mac); [| discriminate].
  pose proof (seed_block_outcome keystore derivedKey ciphertext) as Hseed.
  destruct (getPrivateKey_seed keystore derivedKey ciphertext)
    as [t3 [seed | e]]; cbn [outcome snd] in Hseed.
  2: { destruct Hseed as [error ->]. discriminate. }
  destruct (privateKeyToAddress _) as [address |]; [| discriminate].
  pose proof (only_TypeError_getp keystore "address") as Haddress.
  destruct (getp keystore "address") as [expected' | e]; cbn [outcome snd].
  2: { rewrite (Haddress e eq_refl). discriminate. }
  destruct (strict_eq_string expected' address); discriminate.
Qed.

(** C9.  A keystore returned by [extractKeystore] has ['scrypt'] or
    ['pbkdf2'] under [crypto.kdf], and [getPrivateKey] never fails on it
    with [DECRYPT_KEYSTORE_UNSUPPORTED_ALGO]. *)
Theorem extractKeystore_kdf_supported text keystore :
  extractKeystore text = Return keystore ->
  (keystore_crypto keystore "kdf" = Return (JString "scrypt") \/
   keystore_crypto keystore "kdf" = Return (JString "pbkdf2")) /\
  forall password original,
    outcome (getPrivateKey keystore password) <>
    Throw (CodedClientError DECRYPT_KEYSTORE_UNSUPPORTED_ALGO original).
Proof.
  intros (s & -> & _ & Hvalid)%extractKeystore_Return. split.
  - destruct Hvalid as [? ? ? crypto ? ? ? ? kdf kdfparams ? _ _ _ _ _ Hcrypto
                          _ _ _ _ Hkdf _ Hparams _].
    rewrite !keystore_crypto_Return.
    destruct Hparams as [? ? ? ? ? -> | ? ? ? ? ->]; eauto.
  - intros password original Hrun%unsupported_algo_from_derivedKey.
    pose proof (derivedKey_block_validated keystore password Hvalid) as Hkey.
    rewrite Hrun in Hkey. destruct Hkey; discriminate.
Qed.

(** ** The address check *)

(** What a returned key went through. *)
Lemma getPrivateKey_Return keystore password t privateKey :
  getPrivateKey keystore password = (t, Return privateKey) ->
  exists t1 derivedKey t2 ciphertext mac t3 seed address,
    getPrivateKey_derivedKey keystore password = (t1, Return derivedKey) /\
    getPrivateKey_mac keystore derivedKey = (t2, Return (ciphertext, mac)) /\
    keystore_crypto keystore "mac" = Return (JString mac) /\
    getPrivateKey_seed keystore derivedKey ciphertext = (t3, Return seed) /\
    privateKey = Buffer_toString_hex seed /\
    privateKeyToAddress privateKey = Some address /\
    getp keystore "address" = Return (JString address).
Proof.
  destruct (getPrivateKey_derivedKey keystore password)
    as [t1 [derivedKey | e]] eqn:Ekey.
  2: { rewrite (getPrivateKey_Throw_derivedKey _ _ _ _ Ekey). discriminate. }
  destruct (getPrivateKey_mac keystore derivedKey)
    as [t2 [[ciphertext mac] | e]] eqn:Emac.
  2: { rewrite (getPrivateKey_Throw_mac _ _ _ _ _ _ Ekey Emac). discriminate. }
  rewrite (getPrivateKey_after_mac _ _ _ _ _ _ _ Ekey Emac).
  destruct (keystore_crypto keystore "mac") as [expected | e]; [| discriminate].
  destruct (strict_eq_string expected mac) eqn:Hmac; [| discriminate].
  apply strict_eq_string_true in Hmac as ->.
  destruct (getPrivateKey_seed keystore derivedKey ciphertext)
    as [t3 [seed | e]] eqn:Eseed; [| discriminate].
  destruct (privateKeyToAddress _) as [address |] eqn:Haddress; [| discriminate].
  destruct (getp keystore "address") as [expected |]; [| discriminate].
  destruct (strict_eq_string expected address) eqn:Hexpected; [| discriminate].
  apply strict_eq_string_true in Hexpected as ->.
  intros [= <- <-].
  exists t1, derivedKey, t2, ciphertext, mac, t3, seed, address.
  repeat split; assumption || reflexivity.
Qed.

(** C2.  A key is returned only when it is the hex form of the recovered
    seed and [privateKeyToAddress] sends it to [keystore.address]; when the
    address of the recovered key is another one, the failure is
    [DECRYPT_KEYSTORE_WRONG_ADDRESS], which is not the code of a wrong
    passphrase. *)
Theorem getPrivateKey_address_checked keystore password :
  (forall privateKey,
     outcome (getPrivateKey keystore password) = Return privateKey ->
     (exists seed, privateKey = Buffer_toString_hex seed) /\
     exists address,
       privateKeyToAddress privateKey = Some address /\
       getp keystore "address" = Return (JString address)) /\
  (forall t1 derivedKey t2 ciphertext mac t3 seed address expected,
     getPrivateKey_derivedKey keystore password = (t1, Return derivedKey) ->
     getPrivateKey_mac keystore derivedKey = (t2, Return (ciphertext, mac)) ->
     keystore_crypto keystore "mac" = Return (JString mac) ->
     getPrivateKey_seed keystore derivedKey ciphertext = (t3, Return seed) ->
     privateKeyToAddress (Buffer_toString_hex seed) = Some address ->
     getp keystore "address" = Return expected ->
     expected <> JString address ->
     getPrivateKey keystore password =
     (t1 ++ t2 ++ t3 ++ [CallPrivateKeyToAddress],
      Throw (CodedClientError DECRYPT_KEYSTORE_WRONG_ADDRESS None))) /\
  DECRYPT_KEYSTORE_WRONG_ADDRESS <> DECRYPT_KEYSTORE_WRONG_PASSPHRASE.
Proof.
  split; [| split; [| discriminate]].
  - intros privateKey Hrun.
    destruct (getPrivateKey keystore password) as [t o] eqn:Erun.
    cbn [outcome snd] in Hrun. subst o.
    apply getPrivateKey_Return in Erun
      as (? & ? & ? & ? & ? & ? & seed & address & _ & _ & _ & _ & -> & ? & ?).
    eauto.
  - intros t1 derivedKey t2 ciphertext mac t3 seed address expected
      Hkey Hmac Hexpected Hseed Haddress Hfield Hother%strict_eq_string_false.
    rewrite (getPrivateKey_after_mac _ _ _ _ _ _ _ Hkey Hmac), Hexpected.
    rewrite strict_eq_string_refl, Hseed, Haddress, Hfield, Hother.
    reflexivity.
Qed.

(** ** Long plaintexts *)

(** C10, as the code has it.  [prependKey] leaves a buffer of 32 bytes or
    more as it is.  So when the decipher yields more than 32 bytes,
    [getPrivateKey] hands the whole plaintext in hex, more than 64 digits,
    to [privateKeyToAddress]; it neither trims it nor tests its length.
    What the run ends with is up to the address encoding and the address
    check: the exception of [privateKeyToAddress] when it throws,
    [DECRYPT_KEYSTORE_WRONG_ADDRESS] when the address it yields is not
    [keystore.address], and the key of more than 64 digits when it is. *)
Theorem getPrivateKey_long_plaintext :
  (forall buffer : Buffer, 32 <= length buffer -> prependKey buffer = buffer) /\
  (forall keystore password t1 derivedKey t2 ciphertext mac t3 plaintext,
     getPrivateKey_derivedKey keystore password = (t1, Return derivedKey) ->
     getPrivateKey_mac keystore derivedKey = (t2, Return (ciphertext, mac)) ->
     keystore_crypto keystore "mac" = Return (JString mac) ->
     getPrivateKey_decipher keystore derivedKey ciphertext
     = (t3, Return plaintext) ->
     32 < length plaintext ->
     64 < String.length (Buffer_toString_hex plaintext) /\
     getPrivateKey keystore password =
     (t1 ++ t2 ++ t3 ++ [CallPrivateKeyToAddress],
      match privateKeyToAddress (Buffer_toString_hex plaintext) with
      | None => Throw LibraryError
      | Some address =>
          match getp keystore "address" with
          | Throw e => Throw e
          | Return expected =>
              if strict_eq_string expected address
              then Return (Buffer_toString_hex plaintext)
              else Throw (CodedClientError DECRYPT_KEYSTORE_WRONG_ADDRESS None)
          end
      end)).
Proof.
  split; [exact prependKey_unchanged |].
  intros keystore password t1 derivedKey t2 ciphertext mac t3 plaintext
    Hkey Hmac Hexpected Hplain Hlong.
  split; [rewrite Buffer_toString_hex_length; lia |].
  rewrite (getPrivateKey_after_mac _ _ _ _ _ _ _ Hkey Hmac), Hexpected.
  rewrite strict_eq_string_refl.
  unfold getPrivateKey_seed.
  rewrite try_catch_wrap, Run_bind_eq, Hplain. unfold mret, Run_ret.
  cbn [outcome calls fst snd].
  rewrite app_nil_r, prependKey_unchanged by lia.
  destruct (privateKeyToAddress _); reflexivity.
Qed.

(** ** Inputs that are not keystore texts *)

(** C6.  A [text] that is not a string fails with
    [EXTRACT_KEYSTORE_INVALID_FILE], whatever [JSON.parse] would make of
    it; a string that [JSON.parse] rejects fails with
    [EXTRACT_KEYSTORE_INVALID_JSON]; in neither case is the condition on the
    document evaluated, as there is no document. *)
Theorem extractKeystore_invalid_input text :
  (typeof text <> "string" ->
   extractKeystore text
   = Throw (CodedClientError EXTRACT_KEYSTORE_INVALID_FILE None)) /\
  (forall s,
     text = JString s ->
     JSON_parse s = None ->
     extractKeystore text
     = Throw (CodedClientError EXTRACT_KEYSTORE_INVALID_JSON (Some SyntaxError))).
Proof.
  split.
  - intros Htype. destruct text; try reflexivity. contradiction Htype. reflexivity.
  - intros s -> Hparse. unfold extractKeystore. rewrite Hparse. reflexivity.
Qed.

(** ** The calls of the blocks *)

(** A property of the calls of the three blocks and of the address
    encoding holds of all the calls of [getPrivateKey]. *)
Lemma getPrivateKey_calls_Forall (Q : Call -> Prop) keystore password :
  Forall Q (calls (getPrivateKey_derivedKey keystore password)) ->
  (forall derivedKey, Forall Q (calls (getPrivateKey_mac keystore derivedKey))) ->
  (forall derivedKey ciphertext,
     Forall Q (calls (getPrivateKey_seed keystore derivedKey ciphertext))) ->
  Q CallPrivateKeyToAddress ->
  Forall Q (calls (getPrivateKey keystore password)).
Proof.
  intros Hkey Hmac Hseed Haddress.
  destruct (getPrivateKey_derivedKey keystore password)
    as [t1 [derivedKey | e]] eqn:Ekey; cbn [calls fst] in Hkey.
  2: { rewrite (getPrivateKey_Throw_derivedKey _ _ _ _ Ekey). assumption. }
  specialize (Hmac derivedKey).
  destruct (getPrivateKey_mac keystore derivedKey)
    as [t2 [[ciphertext mac] | e]] eqn:Emac; cbn [calls fst] in Hmac.
  2: { rewrite (getPrivateKey_Throw_mac _ _ _ _ _ _ Ekey Emac).
       apply Forall_app. split; assumption. }
  rewrite (getPrivateKey_after_mac _ _ _ _ _ _ _ Ekey Emac).
  assert (H12 : Forall Q (t1 ++ t2)) by (apply Forall_app; split; assumption).
  destruct (keystore_crypto keystore "mac") as [expected |]; [| assumption].
  destruct (strict_eq_string expected mac); [| assumption].
  specialize (Hseed derivedKey ciphertext).
  destruct (getPrivateKey_seed keystore derivedKey ciphertext) as [t3 [seed | e]];
    cbn [calls fst] in Hseed.
  - assert (Forall Q (t1 ++ t2 ++ t3 ++ [CallPrivateKeyToAddress])).
    { rewrite !Forall_app. repeat split; try assumption.
      repeat constructor. assumption. }
    destruct (privateKeyToAddress _); assumption.
  - cbn [calls fst]. rewrite !Forall_app. repeat split; assumption.
Qed.

(** The third block, once its parameters can be read. *)
Lemma decipher_block keystore derivedKey ciphertext cipher cipherparams iv :
  keystore_crypto keystore "cipher" = Return cipher ->
  keystore_crypto keystore "cipherparams" = Return cipherparams ->
  getp cipherparams "iv" = Return iv ->
  getPrivateKey_decipher keystore derivedKey ciphertext =
  match Buffer_from_hex iv with
  | None => ([CallBufferFromHex iv], Throw LibraryError)
  | Some ivBuffer =>
      match createDecipheriv cipher (Buffer_slice derivedKey 0 16) ivBuffer with
      | None =>
          ([CallBufferFromHex iv; CallCreateDecipheriv cipher],
           Throw LibraryError)
      | Some decipher =>
          match decipher_update decipher ciphertext with
          | None =>
              ([CallBufferFromHex iv; CallCreateDecipheriv cipher;
                CallDecipherUpdate], Throw LibraryError)
          | Some updated =>
              ([CallBufferFromHex iv; CallCreateDecipheriv cipher;
                CallDecipherUpdate; CallDecipherFinal],
               match decipher_final updated.2 with
               | None => Throw LibraryError
               | Some final => Return (updated.1 ++ final)
               end)
          end
      end
  end.
Proof.
  intros Hcipher Hcipherparams Hiv. unfold getPrivateKey_decipher, decipherBuffer.
  rewrite Hcipher, eval_bind, Hcipherparams, eval_bind, Hiv, eval_bind, call_bind.
  destruct (Buffer_from_hex iv) as [ivBuffer |]; [| reflexivity].
  rewrite call_bind.
  destruct (createDecipheriv _ _ _) as [decipher |]; [| reflexivity].
  rewrite call_bind.
  destruct (decipher_update _ _) as [updated |]; [| reflexivity].
  rewrite call_bind.
  destruct (decipher_final _); reflexivity.
Qed.

End Properties.

(** * Runs on the sample platform *)

Lemma getPrivateKey_wrong_passphrase_witness :
  getPrivateKey (P := Sample.platform) Sample.scrypt_keystore "wrong" =
  (Sample.derivation_calls ++ Sample.mac_calls "c0ffee",
   Throw (CodedClientError DECRYPT_KEYSTORE_WRONG_PASSPHRASE None)) /\
  exists t,
    getPrivateKey (P := Sample.platform) Sample.scrypt_keystore "wrong" =
    (t, Throw (CodedClientError DECRYPT_KEYSTORE_WRONG_PASSPHRASE None)).
Proof.
  assert (Haccepted :
    extractKeystore (P := Sample.platform) (JString Sample.scrypt_text)
    = Return Sample.scrypt_keystore) by (vm_compute; reflexivity).
  assert (Hwrong :
    ~ mac_matches (P := Sample.platform) Sample.scrypt_keystore "wrong").
  { intros (t1 & derivedKey & t2 & ciphertext & mac & Hkey & Hmac & Hexpected).
    vm_compute in Hkey. injection Hkey as <- <-.
    vm_compute in Hmac. injection Hmac as <- <- <-.
    vm_compute in Hexpected. discriminate Hexpected. }
  destruct (getPrivateKey_wrong_passphrase (P := Sample.platform)
              _ _ "wrong" Haccepted Hwrong) as (Hcheck & _ & _ & _ & Hopenable).
  split.
  - apply (Hcheck Sample.derivation_calls (Sample.derivedKey "wrong")
             (Sample.mac_calls "c0ffee") [Byte.xc0; Byte.xff; Byte.xee]
             (Buffer_toString_hex
                (take 16 (drop 16 (Sample.derivedKey "wrong"))
                 ++ [Byte.xc0; Byte.xff; Byte.xee])));
      vm_compute; reflexivity.
  - apply Hopenable with (correct := "test123").
    + split.
      * intros ? password' ? n r p dklen. simpl. unfold Sample.sample_scrypt.
        destruct (_ && _); [discriminate | reflexivity].
      * intros ? password' ? c dklen ?. simpl. unfold Sample.sample_pbkdf2.
        destruct (_ && _); [discriminate | reflexivity].
    + exists Sample.derivation_calls, (Sample.derivedKey "test123"),
        (Sample.mac_calls "c0ffee"), [Byte.xc0; Byte.xff; Byte.xee],
        "090a0b0c0d0e0f000000000000000000c0ffee".
      repeat split; vm_compute; reflexivity.
Defined.

(** C1, as the specification has it, fails: the PBKDF2 keystore that names
    ['hmac-sha512'] is accepted by [extractKeystore], and on it every
    password ends in [DECRYPT_KEYSTORE_UNSUPPORTED_PBKDF2_PARAMETERS] before
    any library call: no key is derived, no MAC computed or compared, and
    the failure is not [DECRYPT_KEYSTORE_WRONG_PASSPHRASE]. *)
Lemma wrong_passphrase_not_reached :
  extractKeystore (P := Sample.platform) (JString Sample.pbkdf2_sha512_text)
  = Return Sample.pbkdf2_sha512_keystore /\
  (forall password,
     ~ mac_matches (P := Sample.platform) Sample.pbkdf2_sha512_keystore password /\
     getPrivateKey (P := Sample.platform) Sample.pbkdf2_sha512_keystore password
     = ([], Throw (CodedClientError
                     DECRYPT_KEYSTORE_UNSUPPORTED_PBKDF2_PARAMETERS None))) /\
  ~ (forall (P : Platform) text keystore password,
       extractKeystore text = Return keystore ->
       ~ mac_matches keystore password ->
       outcome (getPrivateKey keystore password)
       = Throw (CodedClientError DECRYPT_KEYSTORE_WRONG_PASSPHRASE None)).
Proof.
  assert (Haccepted :
    extractKeystore (P := Sample.platform) (JString Sample.pbkdf2_sha512_text)
    = Return Sample.pbkdf2_sha512_keystore) by (vm_compute; reflexivity).
  assert (Hrun : forall password,
    ~ mac_matches (P := Sample.platform) Sample.pbkdf2_sha512_keystore password /\
    getPrivateKey (P := Sample.platform) Sample.pbkdf2_sha512_keystore password
    = ([], Throw (CodedClientError
                    DECRYPT_KEYSTORE_UNSUPPORTED_PBKDF2_PARAMETERS None))).
  { intros password. split.
    - intros (t1 & derivedKey & _ & _ & _ & Hkey & _).
      vm_compute in Hkey. discriminate Hkey.
    - vm_compute. reflexivity. }
  split; [exact Haccepted |]. split; [exact Hrun |].
  intros Hclaim.
  specialize (Hclaim Sample.platform _ _ "wrong" Haccepted (proj1 (Hrun "wrong"))).
  rewrite (proj2 (Hrun "wrong")) in Hclaim. discriminate Hclaim.
Qed.

Lemma getPrivateKey_unsupported_algo_witness :
  getPrivateKey (P := Sample.platform)
    Sample.argon2_keystore "test123" =
  ([], Throw (CodedClientError DECRYPT_KEYSTORE_UNSUPPORTED_ALGO None)).
Proof.
  eapply (getPrivateKey_unsupported_algo (P := Sample.platform)).
  - vm_compute. reflexivity.
  - vm_compute. reflexivity.
  - discriminate.
  - discriminate.
Defined.

Lemma unsupported_prf_rejected_by_getPrivateKey_witness :
  getPrivateKey (P := Sample.platform) Sample.pbkdf2_sha512_keystore "test123" =
  ([], Throw (CodedClientError
                DECRYPT_KEYSTORE_UNSUPPORTED_PBKDF2_PARAMETERS None)).
Proof.
  refine (proj1 (unsupported_prf_rejected_by_getPrivateKey (P := Sample.platform)
                   Sample.pbkdf2_sha512_keystore "test123" _
                   (Sample.pbkdf2_params "hmac-sha512") (JString "hmac-sha512")
                   _ _ _ _ _)).
  - vm_compute. reflexivity.
  - vm_compute. reflexivity.
  - vm_compute. reflexivity.
  - vm_compute. reflexivity.
  - discriminate.
Defined.

(** C3, as the specification has it, fails: a PBKDF2 keystore that names
    ['hmac-sha512'] is not rejected by [extractKeystore], which returns the
    document. *)
Lemma prf_not_checked_by_extractKeystore :
  ~ (forall (P : Platform) text keystore kdfparams prf,
       JSON_parse text = Some keystore ->
       keystore_crypto keystore "kdf" = Return (JString "pbkdf2") ->
       keystore_crypto keystore "kdfparams" = Return kdfparams ->
       getp kdfparams "prf" = Return prf ->
       prf <> JString "hmac-sha256" ->
       exists e, extractKeystore (JString text) = Throw e).
Proof.
  intros Hclaim.
  destruct (Hclaim Sample.platform Sample.pbkdf2_sha512_text
              Sample.pbkdf2_sha512_keystore
              (Sample.pbkdf2_params "hmac-sha512") (JString "hmac-sha512"))
    as [e Hrejected].
  - vm_compute. reflexivity.
  - vm_compute. reflexivity.
  - vm_compute. reflexivity.
  - vm_compute. reflexivity.
  - discriminate.
  - vm_compute in Hrejected. discriminate Hrejected.
Qed.

Lemma getPrivateKey_address_checked_witness :
  (exists address,
     Sample.sample_address
       "0000000000000000000000000000000000000000000000000000000000c0ffee"
     = Some address /\
     getp Sample.scrypt_keystore "address" = Return (JString address)) /\
  getPrivateKey (P := Sample.platform) Sample.misaddressed_keystore "test123" =
  (Sample.derivation_calls ++ Sample.mac_calls "c0ffee" ++
   Sample.decipher_calls ++ [CallPrivateKeyToAddress],
   Throw (CodedClientError DECRYPT_KEYSTORE_WRONG_ADDRESS None)).
Proof.
  split.
  - refine (proj2 (proj1 (getPrivateKey_address_checked (P := Sample.platform)
                            Sample.scrypt_keystore "test123") _ _)).
    vm_compute. reflexivity.
  - refine (proj1 (proj2 (getPrivateKey_address_checked (P := Sample.platform)
                            Sample.misaddressed_keystore "test123"))
              Sample.derivation_calls (Sample.derivedKey "test123")
              (Sample.mac_calls "c0ffee") [Byte.xc0; Byte.xff; Byte.xee]
              "090a0b0c0d0e0f000000000000000000c0ffee"
              Sample.decipher_calls
              (prependKey [Byte.xc0; Byte.xff; Byte.xee])
              Sample.address34
              (JString "A111111111111111111111111111111111") _ _ _ _ _ _ _).
    + vm_compute. reflexivity.
    + vm_compute. reflexivity.
    + vm_compute. reflexivity.
    + vm_compute. reflexivity.
    + vm_compute. reflexivity.
    + vm_compute. reflexivity.
    + discriminate.
Defined.

Lemma getPrivateKey_long_plaintext_witness :
  prependKey (replicate 40 Byte.xff) = replicate 40 Byte.xff /\
  64 < String.length Sample.long_ciphertext /\
  getPrivateKey (P := Sample.platform) Sample.long_keystore "test123" =
  (Sample.derivation_calls ++ Sample.mac_calls Sample.long_ciphertext ++
   Sample.decipher_calls ++ [CallPrivateKeyToAddress],
   Return Sample.long_ciphertext).
Proof.
  destruct (getPrivateKey_long_plaintext (P := Sample.platform))
    as [Hunchanged Hlong].
  split.
  - apply Hunchanged. vm_compute. lia.
  - refine (Hlong Sample.long_keystore "test123"
              Sample.derivation_calls (Sample.derivedKey "test123")
              (Sample.mac_calls Sample.long_ciphertext)
              (default [] (Sample.hex_decode Sample.long_ciphertext))
              ("090a0b0c0d0e0f000000000000000000" +:+ Sample.long_ciphertext)
              Sample.decipher_calls
              (default [] (Sample.hex_decode Sample.long_ciphertext))
              _ _ _ _ _).
    + vm_compute. reflexivity.
    + vm_compute. reflexivity.
    + vm_compute. reflexivity.
    + vm_compute. reflexivity.
    + vm_compute. lia.
Defined.

(** C10, as the specification has it, fails: with an address encoding that
    takes keys of 32 bytes only, on a keystore that passes the integrity
    check and whose plaintext has 33 bytes, [getPrivateKey] hands the 66
    digits to [privateKeyToAddress], which throws: the run ends with that
    exception and returns no key. *)
Lemma long_plaintext_rejected_by_encoder :
  (exists t plaintext,
     getPrivateKey_decipher (P := Sample.strict_platform) Sample.long_keystore
       (Sample.derivedKey "test123")
       (default [] (Sample.hex_decode Sample.long_ciphertext))
     = (t, Return plaintext) /\
     length plaintext = 33) /\
  getPrivateKey (P := Sample.strict_platform) Sample.long_keystore "test123" =
  (Sample.derivation_calls ++ Sample.mac_calls Sample.long_ciphertext ++
   Sample.decipher_calls ++ [CallPrivateKeyToAddress],
   Throw LibraryError) /\
  ~ (forall (P : Platform) keystore password t1 derivedKey t2 ciphertext mac t3
            plaintext,
       getPrivateKey_derivedKey keystore password = (t1, Return derivedKey) ->
       getPrivateKey_mac keystore derivedKey = (t2, Return (ciphertext, mac)) ->
       keystore_crypto keystore "mac" = Return (JString mac) ->
       getPrivateKey_decipher keystore derivedKey ciphertext
       = (t3, Return plaintext) ->
       32 < length plaintext ->
       exists privateKey,
         outcome (getPrivateKey keystore password) = Return privateKey /\
         64 < String.length privateKey).
Proof.
  assert (Hrun :
    getPrivateKey (P := Sample.strict_platform) Sample.long_keystore "test123" =
    (Sample.derivation_calls ++ Sample.mac_calls Sample.long_ciphertext ++
     Sample.decipher_calls ++ [CallPrivateKeyToAddress],
     Throw LibraryError)) by (vm_compute; reflexivity).
  split; [| split; [exact Hrun |]].
  - eexists _, _. split; vm_compute; reflexivity.
  - intros Hclaim.
    destruct (Hclaim Sample.strict_platform Sample.long_keystore "test123"
                Sample.derivation_calls (Sample.derivedKey "test123")
                (Sample.mac_calls Sample.long_ciphertext)
                (default [] (Sample.hex_decode Sample.long_ciphertext))
                ("090a0b0c0d0e0f000000000000000000" +:+ Sample.long_ciphertext)
                Sample.decipher_calls
                (default [] (Sample.hex_decode Sample.long_ciphertext)))
      as (privateKey & Hreturned & _).
    + vm_compute. reflexivity.
    + vm_compute. reflexivity.
    + vm_compute. reflexivity.
    + vm_compute. reflexivity.
    + vm_compute. lia.
    + rewrite Hrun in Hreturned. discriminate Hreturned.
Qed.

Lemma extractKeystore_invalid_input_witness :
  extractKeystore (P := Sample.platform) (JNumber (number_of_nat 42))
  = Throw (CodedClientError EXTRACT_KEYSTORE_INVALID_FILE None) /\
  extractKeystore (P := Sample.platform) (JString "{version: 3")
  = Throw (CodedClientError EXTRACT_KEYSTORE_INVALID_JSON (Some SyntaxError)).
Proof.
  split.
  - apply (proj1 (extractKeystore_invalid_input (P := Sample.platform) _)).
    discriminate.
  - apply (proj2 (extractKeystore_invalid_input (P := Sample.platform) _)
             "{version: 3").
    + reflexivity.
    + vm_compute. reflexivity.
Defined.

Lemma extractKeystore_kdf_supported_witness :
  (keystore_crypto Sample.scrypt_keystore "kdf" = Return (JString "scrypt") \/
   keystore_crypto Sample.scrypt_keystore "kdf" = Return (JString "pbkdf2")) /\
  forall password original,
    outcome (getPrivateKey (P := Sample.platform) Sample.scrypt_keystore password)
    <> Throw (CodedClientError DECRYPT_KEYSTORE_UNSUPPORTED_ALGO original).
Proof.
  apply (extractKeystore_kdf_supported (P := Sample.platform)
           (JString Sample.scrypt_text)).
  vm_compute. reflexivity.
Defined.

(** C4 fails on the text [null]: [JSON.parse] returns [null], whose [typeof]
    is ['object'], and the read of [keystore.version] throws a [TypeError]
    where [EXTRACT_KEYSTORE_INVALID_FORMAT] was to be raised. *)
Theorem extractKeystore_null_text :
  extractKeystore (P := Sample.platform) (JString "null") = Throw TypeError.
Proof. vm_compute. reflexivity. Qed.

(** The same with [null] under [crypto] in a document that is well-formed
    up to there. *)
Example extractKeystore_check_null_crypto :
  extractKeystore_check
    (Sample.object [("version", Sample.num 3); ("id", JString "3198bc9c");
                    ("address", JString Sample.address34); ("crypto", JNull)])
  = Throw TypeError.
Proof. vm_compute. reflexivity. Qed.

(** A missing property, by contrast, makes the condition false. *)
Example extractKeystore_check_missing_crypto :
  extractKeystore_check
    (Sample.object [("version", Sample.num 3); ("id", JString "3198bc9c");
                    ("address", JString Sample.address34)])
  = Return false.
Proof. vm_compute. reflexivity. Qed.

(** * Properties of the routines over the store *)

(** ** The document in the store *)

Lemma store_typeof_string v :
  Mutable.typeof v = "string" <-> exists s, v = Mutable.VString s.
Proof.
  split; [destruct v; try discriminate; eauto | intros [s ->]; reflexivity].
Qed.

Lemma store_typeof_number v :
  Mutable.typeof v = "number" <-> exists n, v = Mutable.VNumber n.
Proof.
  split; [destruct v; try discriminate; eauto | intros [n ->]; reflexivity].
Qed.

Lemma store_typeof_is_true e t :
  Mutable.typeof_is e t = Return true <->
  exists v, e = Return v /\ Mutable.typeof v = t.
Proof.
  unfold Mutable.typeof_is, mbind, Outcome_bind, mret, Outcome_ret.
  destruct e as [v |].
  - split.
    + intros [= Ht%bool_decide_eq_true]. eauto.
    + intros (? & [= <-] & Ht). f_equal. apply bool_decide_eq_true. assumption.
  - split; [discriminate | intros (? & ? & _); discriminate].
Qed.

Lemma store_isValidKDFParams_true h kdf kdfparams :
  Mutable.isValidKDFParams h (Mutable.VString kdf) kdfparams = Return true ->
  Mutable.ValidKDFParams h kdf kdfparams.
Proof.
  unfold Mutable.isValidKDFParams.
  rewrite !and_then_true, or_else_true, !and_then_true, !store_typeof_is_true.
  setoid_rewrite store_typeof_number. setoid_rewrite store_typeof_string.
  unfold mret, Outcome_ret.
  intros [[(? & Hd & dklen & ->) (? & Hs & salt & ->)] Hvariant].
  destruct Hvariant as [Hs1 | [_ Hp]].
  - destruct Hs1 as [[[[= Hk%bool_decide_eq_true] (? & Hn & n & ->)]
                        (? & Hr & r & ->)] (? & Hp & p & ->)].
    eapply Mutable.valid_scrypt; eauto.
  - destruct Hp as [[[= Hk%bool_decide_eq_true] (? & Hc & c & ->)]
                      (? & Hprf & prf & ->)].
    eapply Mutable.valid_pbkdf2; eauto.
Qed.

Lemma store_extractKeystore_check_true h keystore :
  Mutable.extractKeystore_check h keystore = Return true ->
  Mutable.Validated h keystore.
Proof.
  unfold Mutable.extractKeystore_check.
  rewrite !and_then_true, !store_typeof_is_true.
  intros H0.
  repeat match type of H0 with
         | _ /\ _ => let H' := fresh "K" in destruct H0 as [H0 H']
         end.
  destruct K7 as (crypto & Hcrypto & _).
  unfold Mutable.keystore_crypto, mbind, Outcome_bind, mret, Outcome_ret in *.
  rewrite Hcrypto in *. clear H0.
  destruct K12 as (? & Hversion & [version ->]%store_typeof_number).
  rewrite Hversion in K11. injection K11 as K11. simpl in K11.
  destruct K10 as (? & Hid & [id ->]%store_typeof_string).
  destruct K9 as (? & Haddress & [address ->]%store_typeof_string).
  rewrite Haddress in K8. injection K8 as K8. simpl in K8.
  apply number_of_nat_eq in K8.
  destruct K6 as (? & Hciphertext & [ciphertext ->]%store_typeof_string).
  destruct K5 as (cipherparams & Hcipherparams & _).
  rewrite Hcipherparams in K4.
  destruct K4 as (? & Hiv & [iv ->]%store_typeof_string).
  destruct K3 as (? & Hcipher & [cipher ->]%store_typeof_string).
  destruct K2 as (? & Hkdf & [kdf ->]%store_typeof_string).
  destruct K1 as (kdfparams & Hkdfparams & _).
  rewrite Hkdf, Hkdfparams in K0. apply store_isValidKDFParams_true in K0.
  destruct K as (? & Hmac & [mac ->]%store_typeof_string).
  eapply Mutable.validated; eauto.
Qed.

Section Store.
Context `{L : Mutable.Library}.

Lemma store_extractKeystore_Return text h0 h keystore :
  Mutable.extractKeystore text h0 = (h, Return keystore) ->
  Mutable.Validated h keystore.
Proof.
  unfold Mutable.extractKeystore. destruct text; try discriminate.
  unfold mbind, Mutable.Step_bind, Mutable.try_catch, Mutable.throw,
    Mutable.read.
  destruct (Mutable.JSON_parse s h0) as [h1 [parsed |]];
    cbv beta iota zeta delta [from_option]; [| discriminate].
  destruct (Mutable.extractKeystore_check h1 parsed) as [[] |] eqn:Hcheck;
    cbv beta iota delta [negb mret Mutable.Step_ret]; try discriminate.
  intros [= <- <-]. apply store_extractKeystore_check_true. assumption.
Qed.

(** *** Reads of a document that two stores hold alike *)

Lemma same_document_refl h v : Mutable.same_document h h v.
Proof. intros l _. reflexivity. Qed.

Lemma getp_same h h' v p :
  Mutable.same_document h h' v -> Mutable.getp h' v p = Mutable.getp h v p.
Proof.
  intros Hsame. destruct v; try reflexivity.
  simpl. rewrite (Hsame l) by constructor. reflexivity.
Qed.

Lemma same_document_getp h h' v p v' :
  Mutable.same_document h h' v ->
  Mutable.getp h v p = Return v' ->
  Mutable.same_document h h' v'.
Proof.
  intros Hsame Hread l' Hreach.
  destruct v; simpl in Hread; try (injection Hread as <-).
  - discriminate.
  - discriminate.
  - inversion Hreach.
  - inversion Hreach.
  - destruct (bool_decide _); inversion Hreach.
  - destruct (h !! l) as [[fields | items] |] eqn:Hcell.
    + injection Hread as <-.
      destruct (fields !! p) as [v |] eqn:Hfield; simpl in Hreach.
      * apply Hsame. eapply Mutable.Reach_field; eassumption.
      * inversion Hreach.
    + injection Hread as <-. destruct (bool_decide _); inversion Hreach.
    + injection Hread as <-. inversion Hreach.
Qed.

Lemma keystore_crypto_same h h' keystore p :
  Mutable.same_document h h' keystore ->
  Mutable.keystore_crypto h' keystore p = Mutable.keystore_crypto h keystore p.
Proof.
  intros Hsame. unfold Mutable.keystore_crypto.
  rewrite (getp_same _ _ _ _ Hsame).
  destruct (Mutable.getp h keystore "crypto") as [crypto |] eqn:Hcrypto;
    [| reflexivity].
  simpl. apply getp_same. eapply same_document_getp; eassumption.
Qed.

(** The document stays within the objects at [locs], and these are the
    same in the two stores. *)
Lemma same_document_within (locs : list Mutable.Loc) h h' v :
  (forall l, v = Mutable.VRef l -> l ∈ locs) ->
  Forall (fun l =>
            match h !! l with
            | Some (Mutable.ObjectCell fields) =>
                Forall (fun field => forall l', field.2 = Mutable.VRef l' -> l' ∈ locs)
                  (map_to_list fields)
            | Some (Mutable.ArrayCell items) =>
                Forall (fun item => forall l', item = Mutable.VRef l' -> l' ∈ locs)
                  items
            | None => True
            end) locs ->
  Forall (fun l => h' !! l = h !! l) locs ->
  Mutable.same_document h h' v.
Proof.
  intros Hroot Hclosed Hsame l Hreach.
  rewrite Forall_forall in Hsame. apply Hsame. clear Hsame.
  rewrite Forall_forall in Hclosed.
  induction Hreach as [l | l fields p v l' Hcell Hfield _ IH
                         | l items i v l' Hcell Hitem _ IH].
  - apply Hroot. reflexivity.
  - apply IH. intros l0 ->.
    specialize (Hclosed l (Hroot l eq_refl)). rewrite Hcell in Hclosed.
    rewrite Forall_forall in Hclosed.
    apply (Hclosed (p, Mutable.VRef l0)); [| reflexivity].
    apply elem_of_map_to_list. assumption.
  - apply IH. intros l0 ->.
    specialize (Hclosed l (Hroot l eq_refl)). rewrite Hcell in Hclosed.
    rewrite Forall_forall in Hclosed.
    apply (Hclosed (Mutable.VRef l0)); [| reflexivity].
    eapply list_elem_of_lookup_2. eassumption.
Qed.

(** *** Routines that leave two stores alone and end alike *)

Lemma unobserved_ret {A} (a : A) h h' : Mutable.unobserved (mret a) h h'.
Proof. repeat split. Qed.

Lemma unobserved_throw {A} e h h' :
  Mutable.unobserved (Mutable.throw (A := A) e) h h'.
Proof. repeat split. Qed.

Lemma unobserved_read {A} (expression : Mutable.Store -> Outcome A) h h' :
  expression h' = expression h ->
  Mutable.unobserved (Mutable.read expression) h h'.
Proof. intros Hsame. repeat split. exact Hsame. Qed.

Lemma unobserved_call_pure {A} (result : option A) h h' :
  Mutable.unobserved (Mutable.call_pure result) h h'.
Proof. repeat split. Qed.

Lemma unobserved_call {A} (routine : Mutable.Store -> Mutable.Store * option A)
    h h' :
  (forall h1 h2, routine h1 = (h1, (routine h2).2)) ->
  Mutable.unobserved (Mutable.call routine) h h'.
Proof.
  intros Hlocal. unfold Mutable.unobserved, Mutable.call.
  rewrite (Hlocal h h), (Hlocal h' h).
  destruct (routine h) as [h1 result]. repeat split.
Qed.

Lemma unobserved_bind {A B} (m : Mutable.Step A) (k : A -> Mutable.Step B) h h' :
  Mutable.unobserved m h h' ->
  (forall a, (m h).2 = Return a -> Mutable.unobserved (k a) h h') ->
  Mutable.unobserved (m ≫= k) h h'.
Proof.
  unfold Mutable.unobserved, mbind, Mutable.Step_bind.
  destruct (m h) as [h1 o], (m h') as [h1' o']. cbn [fst snd].
  intros (-> & -> & ->) Hrest.
  destruct o as [a | e]; [apply Hrest; reflexivity | repeat split].
Qed.

Lemma unobserved_try_catch {A} (body : Mutable.Step A) handler h h' :
  Mutable.unobserved body h h' ->
  (forall e, (body h).2 = Throw e -> Mutable.unobserved (handler e) h h') ->
  Mutable.unobserved (Mutable.try_catch body handler) h h'.
Proof.
  unfold Mutable.unobserved, Mutable.try_catch.
  destruct (body h) as [h1 o], (body h') as [h1' o']. cbn [fst snd].
  intros (-> & -> & ->) Hhandler.
  destruct o as [a | e]; [repeat split | apply Hhandler; reflexivity].
Qed.

(** *** The blocks of [getPrivateKey] on a validated document *)

Context (Hlocal : Mutable.Library_local L).

Lemma store_keystore_crypto h keystore crypto p v :
  Mutable.getp h keystore "crypto" = Return crypto ->
  Mutable.getp h crypto p = Return v ->
  Mutable.keystore_crypto h keystore p = Return v.
Proof.
  intros Hcrypto Hread. unfold Mutable.keystore_crypto. rewrite Hcrypto.
  exact Hread.
Qed.

(** A read whose value is known, and a call that is handed primitives. *)
Ltac read_as H :=
  apply unobserved_bind;
  [ apply unobserved_read;
    first [apply getp_same | apply keystore_crypto_same]; assumption
  | let Hread := fresh "Hread" in
    intros ? Hread; unfold Mutable.read in Hread; cbn [snd] in Hread;
    rewrite H in Hread; injection Hread as <- ].
Ltac call_local :=
  apply unobserved_call; intros h1 h2;
  first [ apply (Mutable.local_Buffer_from_hex _ Hlocal)
        | apply (Mutable.local_scrypt _ Hlocal)
        | apply (Mutable.local_pbkdf2 _ Hlocal)
        | apply (Mutable.local_createDecipheriv _ Hlocal) ];
  reflexivity.

Lemma derivedKey_unobserved h h' keystore password :
  Mutable.Validated h keystore ->
  Mutable.same_document h h' keystore ->
  Mutable.unobserved (Mutable.getPrivateKey_derivedKey keystore password) h h'.
Proof.
  intros [version id address crypto ciphertext cipherparams iv cipher kdf
            kdfparams mac Hversion H3 Hid Haddress H34 Hcrypto Hciphertext
            Hcipherparams Hiv Hcipher Hkdf Hkdfparams Hvalid Hmac] Hsame.
  assert (Hsame1 : Mutable.same_document h h' crypto)
    by (eapply same_document_getp; eassumption).
  assert (Hsame2 : Mutable.same_document h h' kdfparams)
    by (eapply same_document_getp; eassumption).
  pose proof (store_keystore_crypto _ _ _ _ _ Hcrypto Hkdf) as Hkdf'.
  unfold Mutable.getPrivateKey_derivedKey.
  read_as Hcrypto. read_as Hkdfparams. read_as Hkdf'.
  destruct Hvalid as [dklen salt n r p -> Hdklen Hsalt Hn Hr Hp
                     | dklen salt c prf -> Hdklen Hsalt Hc Hprf].
  - change (Mutable.strict_eq_string (Mutable.VString "scrypt") "scrypt")
      with true. cbv iota.
    apply unobserved_try_catch; [| intros; apply unobserved_throw].
    read_as Hsalt.
    apply unobserved_bind; [call_local |]. intros saltBuffer _.
    read_as Hn. read_as Hr. read_as Hp. read_as Hdklen.
    call_local.
  - change (Mutable.strict_eq_string (Mutable.VString "pbkdf2") "scrypt")
      with false. cbv iota.
    read_as Hkdf'.
    change (Mutable.strict_eq_string (Mutable.VString "pbkdf2") "pbkdf2")
      with true. cbv iota.
    read_as Hprf.
    destruct (negb _); [apply unobserved_throw |].
    apply unobserved_try_catch; [| intros; apply unobserved_throw].
    read_as Hsalt.
    apply unobserved_bind; [call_local |]. intros saltBuffer _.
    read_as Hc. read_as Hdklen.
    call_local.
Qed.

Lemma mac_unobserved h h' keystore derivedKey :
  Mutable.Validated h keystore ->
  Mutable.same_document h h' keystore ->
  Mutable.unobserved (Mutable.getPrivateKey_mac keystore derivedKey) h h'.
Proof.
  intros [version id address crypto ciphertext cipherparams iv cipher kdf
            kdfparams mac Hversion H3 Hid Haddress H34 Hcrypto Hciphertext
            Hcipherparams Hiv Hcipher Hkdf Hkdfparams Hvalid Hmac] Hsame.
  pose proof (store_keystore_crypto _ _ _ _ _ Hcrypto Hciphertext) as Htext.
  unfold Mutable.getPrivateKey_mac.
  apply unobserved_try_catch; [| intros; apply unobserved_throw].
  read_as Htext.
  apply unobserved_bind; [call_local |]. intros decoded _.
  apply unobserved_bind; [apply unobserved_call_pure |]. intros digest _.
  apply unobserved_ret.
Qed.

Lemma seed_unobserved h h' keystore derivedKey ciphertext :
  Mutable.Validated h keystore ->
  Mutable.same_document h h' keystore ->
  Mutable.unobserved
    (Mutable.getPrivateKey_seed keystore derivedKey ciphertext) h h'.
Proof.
  intros [version id address crypto text cipherparams iv cipher kdf
            kdfparams mac Hversion H3 Hid Haddress H34 Hcrypto Hciphertext
            Hcipherparams Hiv Hcipher Hkdf Hkdfparams Hvalid Hmac] Hsame.
  assert (Hsame1 : Mutable.same_document h h' crypto)
    by (eapply same_document_getp; eassumption).
  assert (Hsame2 : Mutable.same_document h h' cipherparams)
    by (eapply same_document_getp; eassumption).
  pose proof (store_keystore_crypto _ _ _ _ _ Hcrypto Hcipher) as Hcipher'.
  pose proof (store_keystore_crypto _ _ _ _ _ Hcrypto Hcipherparams)
    as Hcipherparams'.
  unfold Mutable.getPrivateKey_seed, Mutable.getPrivateKey_decipher,
    Mutable.decipherBuffer.
  apply unobserved_try_catch; [| intros; apply unobserved_throw].
  apply unobserved_bind; [| intros; apply unobserved_ret].
  read_as Hcipher'. read_as Hcipherparams'. read_as Hiv.
  apply unobserved_bind; [call_local |]. intros ivBuffer _.
  apply unobserved_bind; [call_local |]. intros decipher _.
  apply unobserved_bind; [apply unobserved_call_pure |]. intros updated _.
  apply unobserved_bind; [apply unobserved_call_pure |]. intros final _.
  apply unobserved_ret.
Qed.

Lemma getPrivateKey_unobserved h h' keystore password :
  Mutable.Validated h keystore ->
  Mutable.same_document h h' keystore ->
  Mutable.unobserved (Mutable.getPrivateKey keystore password) h h'.
Proof.
  intros Hvalid Hsame.
  pose proof Hvalid
    as [version id address crypto text cipherparams iv cipher kdf
          kdfparams mac Hversion H3 Hid Haddress H34 Hcrypto Hciphertext
          Hcipherparams Hiv Hcipher Hkdf Hkdfparams Hparams Hmac].
  pose proof (store_keystore_crypto _ _ _ _ _ Hcrypto Hmac) as Hmac'.
  unfold Mutable.getPrivateKey.
  apply unobserved_bind; [apply derivedKey_unobserved; assumption |].
  intros derivedKey _.
  apply unobserved_bind; [apply mac_unobserved; assumption |].
  intros [ciphertext digest] _.
  read_as Hmac'.
  destruct (negb _); [apply unobserved_throw |].
  apply unobserved_bind; [apply seed_unobserved; assumption |].
  intros seed _. cbv zeta.
  apply unobserved_bind; [apply unobserved_call_pure |]. intros encoded _.
  read_as Haddress.
  destruct (negb _); [apply unobserved_throw | apply unobserved_ret].
Qed.

End Store.

(** C8.  [getPrivateKey] over the store, on a document [extractKeystore]
    returned and with library routines that have no way into the store
    when they are handed primitives only: the run leaves the whole store,
    and so the document, as it was; a second run, on the store the first
    one left, ends as the first did; and so does a run on any other store
    that holds the document alike, whatever else that store holds: the
    result is a function of the document and the password. *)
Theorem getPrivateKey_leaves_document `{L : Mutable.Library} text h0 h keystore
    password :
  Mutable.Library_local L ->
  Mutable.extractKeystore text h0 = (h, Return keystore) ->
  (Mutable.getPrivateKey keystore password h).1 = h /\
  (Mutable.getPrivateKey keystore password
     (Mutable.getPrivateKey keystore password h).1).2
  = (Mutable.getPrivateKey keystore password h).2 /\
  (forall h',
     Mutable.same_document h h' keystore ->
     (Mutable.getPrivateKey keystore password h').1 = h' /\
     (Mutable.getPrivateKey keystore password h').2
     = (Mutable.getPrivateKey keystore password h).2).
Proof.
  intros Hlocal Hvalid%store_extractKeystore_Return.
  assert (Hrun : forall h',
    Mutable.same_document h h' keystore ->
    Mutable.unobserved (Mutable.getPrivateKey keystore password) h h')
    by (intros h' Hsame; apply getPrivateKey_unobserved; assumption).
  destruct (Hrun h (same_document_refl h keystore)) as (Hleft & _ & _).
  split; [exact Hleft |]. split; [rewrite Hleft; reflexivity |].
  intros h' Hsame. destruct (Hrun h' Hsame) as (_ & Hleft' & Hsame').
  split; assumption.
Qed.

(** ** Runs on the sample store *)

Lemma sample_library_local : Mutable.Library_local SampleStore.library.
Proof.
  constructor.
  - intros v h h' Hprimitive. destruct v; try discriminate; reflexivity.
  - reflexivity.
  - reflexivity.
  - reflexivity.
Qed.

Lemma getPrivateKey_leaves_document_witness :
  Mutable.getPrivateKey (L := SampleStore.library) (Mutable.VRef 0) "test123"
    SampleStore.document
  = (SampleStore.document,
     Return "0000000000000000000000000000000000000000000000000000000000c0ffee") /\
  Mutable.getPrivateKey (L := SampleStore.library) (Mutable.VRef 0) "test123"
    SampleStore.crowded
  = (SampleStore.crowded,
     Return "0000000000000000000000000000000000000000000000000000000000c0ffee").
Proof.
  assert (Haccepted :
    Mutable.extractKeystore (L := SampleStore.library)
      (Mutable.VString Sample.scrypt_text) ∅
    = (SampleStore.document, Return (Mutable.VRef 0)))
    by (vm_compute; reflexivity).
  destruct (getPrivateKey_leaves_document (L := SampleStore.library)
              _ _ _ _ "test123" sample_library_local Haccepted)
    as (Hleft & _ & Hother).
  assert (Hresult :
    (Mutable.getPrivateKey (L := SampleStore.library) (Mutable.VRef 0) "test123"
       SampleStore.document).2
    = Return "0000000000000000000000000000000000000000000000000000000000c0ffee")
    by (vm_compute; reflexivity).
  split.
  - apply injective_projections; cbn [fst snd]; [exact Hleft | exact Hresult].
  - destruct (Hother SampleStore.crowded) as [Hleft' Hsame'].
    + apply (same_document_within [0; 1; 2; 3]).
      * intros l [= <-]. apply list_elem_of_here.
      * repeat (apply Forall_cons_2; [vm_compute |]); try apply Forall_nil_2.
        all: intros l' Href; try discriminate Href; injection Href as <-.
        all: repeat first [apply list_elem_of_here | apply list_elem_of_further].
      * repeat (apply Forall_cons_2; [vm_compute; reflexivity |]).
        apply Forall_nil_2.
    + apply injective_projections; cbn [fst snd];
        [exact Hleft' | rewrite Hsame'; exact Hresult].
Defined.

(** What the theorem rules out can be told in the model: on a document
    that [extractKeystore] does not accept, with an object where the salt
    is to be, [Buffer.from] is handed a reference, and the sample library
    writes through it. *)
Example getPrivateKey_hands_over_reference :
  Mutable.extractKeystore_check SampleStore.bent (Mutable.VRef 0) = Return false /\
  SampleStore.bent !! 4
  = Some (SampleStore.object
            [("hex", Mutable.VString "000102030405060708090a0b0c0d0e0f")]) /\
  (Mutable.getPrivateKey (L := SampleStore.library) (Mutable.VRef 0) "test123"
     SampleStore.bent).1 !! 4
  = Some (Mutable.ObjectCell ∅).
Proof. repeat split; vm_compute; reflexivity. Qed.

(** * Properties of the other utilities *)

(** ** Names, hashes and paths *)

#[local] Arguments String.append : simpl nomatch.

Lemma String_length_app (a b : string) :
  String.length (a +:+ b) = String.length a + String.length b.
Proof. induction a as [| c a IH]; simpl; [reflexivity | f_equal; exact IH]. Qed.

Lemma String_app_nil_r (a : string) : a +:+ "" = a.
Proof. induction a as [| c a IH]; simpl; [reflexivity | f_equal; exact IH]. Qed.

Lemma String_startsWith_app (value prefix : string) :
  String_startsWith (prefix +:+ value) prefix = true.
Proof.
  unfold String_startsWith.
  induction prefix as [| c prefix IH]; simpl.
  - destruct value; reflexivity.
  - destruct (ascii_dec c c); [assumption | contradiction].
Qed.

Lemma String_startsWith_inv (value prefix : string) :
  String_startsWith value prefix = true ->
  value = prefix +:+ String_slice (String.length prefix) value.
Proof.
  unfold String_startsWith. revert value.
  induction prefix as [| c prefix IH]; intros value; simpl.
  - reflexivity.
  - destruct value as [| d value]; simpl; [discriminate |].
    destruct (ascii_dec c d) as [<- |]; [| discriminate].
    intros Hrest. f_equal. apply IH. assumption.
Qed.

Lemma String_slice_app (a b : string) :
  String_slice (String.length a) (a +:+ b) = b.
Proof. induction a as [| c a IH]; simpl; [destruct b; reflexivity | assumption]. Qed.

Lemma add0x_prefixed value : String_startsWith (add0x value) "0x" = true.
Proof.
  unfold add0x. destruct (String_startsWith value "0x") eqn:Hprefix.
  - assumption.
  - apply String_startsWith_app.
Qed.

Lemma strip0x_app value : strip0x ("0x" +:+ value) = value.
Proof.
  unfold strip0x. rewrite String_startsWith_app.
  apply (String_slice_app "0x").
Qed.

(** X1.  [add0x] puts the prefix on once: its result starts with ['0x'], a
    second application changes nothing, and [strip0x] takes off what [add0x]
    put on, so that a value with the prefix and the same value without it
    end up the same. *)
Theorem add0x_strip0x value :
  String_startsWith (add0x value) "0x" = true /\
  add0x (add0x value) = add0x value /\
  strip0x (add0x value) = strip0x value /\
  strip0x (add0x ("0x" +:+ value)) = value.
Proof.
  split; [apply add0x_prefixed |]. split; [| split].
  - unfold add0x at 1. rewrite add0x_prefixed. reflexivity.
  - unfold add0x. destruct (String_startsWith value "0x") eqn:Hprefix.
    + reflexivity.
    + rewrite strip0x_app. unfold strip0x. rewrite Hprefix. reflexivity.
  - unfold add0x. rewrite String_startsWith_app. apply strip0x_app.
Qed.

(** X2.  [strip0x] takes off one prefix only.  So [add0x] gives back the
    value [strip0x] was applied to exactly when that value started with
    ['0x'] and what followed did not. *)
Theorem strip0x_add0x value :
  add0x (strip0x value) = value <->
  String_startsWith value "0x" = true /\
  String_startsWith (String_slice 2 value) "0x" = false.
Proof.
  unfold strip0x. destruct (String_startsWith value "0x") eqn:Hprefix.
  - apply String_startsWith_inv in Hprefix. simpl String.length in Hprefix.
    unfold add0x.
    destruct (String_startsWith (String_slice 2 value) "0x") eqn:Hrest.
    + split; [| intros [_ ?]; discriminate].
      intros Hsame. exfalso.
      assert (Hlen := f_equal String.length Hprefix).
      rewrite <- Hsame in Hlen at 1. rewrite String_length_app in Hlen.
      simpl in Hlen. lia.
    + split; [auto | ]. intros _. symmetry. exact Hprefix.
  - split; [| intros [? _]; discriminate].
    unfold add0x. rewrite Hprefix. intros Hsame. exfalso.
    assert (Hlen := f_equal String.length Hsame).
    rewrite String_length_app in Hlen. simpl in Hlen. lia.
Qed.

Lemma String_app_inj_r (a b suffix : string) :
  a +:+ suffix = b +:+ suffix -> a = b.
Proof.
  revert b. induction a as [| c a IH]; intros [| d b] Hsame; simpl in Hsame.
  - reflexivity.
  - apply (f_equal String.length) in Hsame.
    simpl in Hsame. rewrite String_length_app in Hsame. lia.
  - apply (f_equal String.length) in Hsame.
    simpl in Hsame. rewrite String_length_app in Hsame. lia.
  - injection Hsame as -> Hrest. f_equal. apply IH. assumption.
Qed.

Lemma String_substring_app (a b : string) :
  String.substring 0 (String.length a) (a +:+ b) = a.
Proof.
  induction a as [| c a IH]; simpl; [destruct b; reflexivity | f_equal; exact IH].
Qed.

(** X3.  [validateName] lets through exactly the names of 1 to 34
    characters: the empty name is too short, a name of 35 characters or more
    too long. *)
Theorem validateName_range name :
  (validateName name = inr tt <->
   1 <= String.length name <= MAX_NAME_CHARACTERS) /\
  (validateName name = inl NAME_TOO_SHORT_ERROR <-> name = "") /\
  (validateName name = inl NAME_TOO_LONG_ERROR <->
   MAX_NAME_CHARACTERS < String.length name).
Proof.
  unfold validateName, MAX_NAME_CHARACTERS.
  destruct (Nat.eqb_spec (String.length name) 0) as [Hempty | Hnonempty].
  - assert (name = "") as -> by (destruct name; [reflexivity | discriminate]).
    repeat split; try discriminate; try (simpl; lia); try reflexivity.
  - assert (name <> "") by (intros ->; contradiction Hnonempty; reflexivity).
    destruct (Nat.ltb_spec 34 (String.length name)) as [Hlong | Hshort].
    + repeat split; try discriminate; try lia; try congruence.
    + repeat split; try discriminate; try lia; try congruence.
Qed.

(** X4.  Two addresses with the same keystore file name are the same
    address, and the name is the address with four more characters. *)
Theorem createKeystoreFilename_inj a b :
  String.length (createKeystoreFilename a) = String.length a + 4 /\
  (createKeystoreFilename a = createKeystoreFilename b -> a = b).
Proof.
  unfold createKeystoreFilename. split.
  - apply String_length_app.
  - apply String_app_inj_r.
Qed.

Lemma App_path_slash pathname : App_path (pathname +:+ "/") = pathname.
Proof.
  unfold App_path, String_endsWith, String_slice_0_minus1.
  rewrite String_length_app. simpl String.length.
  replace (String.length pathname + 1 - 1) with (String.length pathname) by lia.
  rewrite String_slice_app, String_substring_app.
  rewrite bool_decide_eq_true_2 by reflexivity.
  destruct (Nat.leb_spec 1 (String.length pathname + 1)); [reflexivity | lia].
Qed.

(** X5.  The canonical URL drops one trailing slash of the path: a path and
    the same path followed by a slash have the same canonical URL, when the
    path did not end with a slash already. *)
Theorem App_canonicalURL_trailing_slash url pathname :
  String_endsWith pathname "/" = false ->
  App_canonicalURL url (pathname +:+ "/") = App_canonicalURL url pathname /\
  App_canonicalURL url pathname = url +:+ pathname.
Proof.
  intros Hplain. unfold App_canonicalURL. rewrite App_path_slash.
  unfold App_path. rewrite Hplain. split; reflexivity.
Qed.

(** ** More on the keystore routines *)

Section More.
Context `{P : Platform}.

(** *** The padded seed *)

Lemma prependKey_length (seed : Buffer) :
  length (prependKey seed) = Nat.max 32 (length seed).
Proof. rewrite prependKey_replicate, length_app, length_replicate. lia. Qed.

(** X6.  [prependKey] yields at least 32 bytes, exactly as many as the seed
    had beyond that, and padding a padded seed changes nothing. *)
Theorem prependKey_idempotent (seed : Buffer) :
  length (prependKey seed) = Nat.max 32 (length seed) /\
  prependKey (prependKey seed) = prependKey seed.
Proof.
  split; [apply prependKey_length |].
  apply prependKey_unchanged. rewrite prependKey_length. lia.
Qed.

Lemma hex_digit_in n : hex_digit n ∈ hex_digits.
Proof.
  unfold hex_digit, hex_digits. destruct (N.to_nat n) as [| m]; simpl.
  { set_solver. }
  do 15 (destruct m as [| m]; simpl; [set_solver |]).
  set_solver.
Qed.

Lemma Buffer_toString_hex_digits (b : Buffer) :
  Forall (fun c => c ∈ hex_digits) (String.list_ascii_of_string (Buffer_toString_hex b)).
Proof.
  induction b as [| x rest IH]; simpl; [constructor |].
  constructor; [apply hex_digit_in |].
  constructor; [apply hex_digit_in | assumption].
Qed.

Lemma seed_block_length keystore derivedKey ciphertext t seed :
  getPrivateKey_seed keystore derivedKey ciphertext = (t, Return seed) ->
  32 <= length seed.
Proof.
  unfold getPrivateKey_seed. rewrite try_catch_wrap, Run_bind_eq.
  destruct (getPrivateKey_decipher keystore derivedKey ciphertext)
    as [t3 [deciphered | e]]; cbn; [| discriminate].
  intros [= _ <-]. rewrite prependKey_length. lia.
Qed.

(** X7.  Whatever the keystore, a private key that [getPrivateKey] returns
    is the lower-case hex form of at least 32 bytes: 64 digits or more, an
    even number of them. *)
Theorem getPrivateKey_key_format keystore password t privateKey :
  getPrivateKey keystore password = (t, Return privateKey) ->
  64 <= String.length privateKey /\
  Nat.Even (String.length privateKey) /\
  Forall (fun c => c ∈ hex_digits) (String.list_ascii_of_string privateKey).
Proof.
  intros (? & derivedKey & ? & ciphertext & ? & ? & seed & ? & _ & _ & _
          & Hseed%seed_block_length & -> & _)%getPrivateKey_Return.
  rewrite Buffer_toString_hex_length. repeat split.
  - lia.
  - exists (length seed). lia.
  - apply Buffer_toString_hex_digits.
Qed.

(** *** The order of the library calls *)

Lemma derivedKey_block_shape keystore password :
  exists salt kdf,
    is_key_derivation kdf = true /\
    calls (getPrivateKey_derivedKey keystore password)
      `prefix_of` [CallBufferFromHex salt; kdf] /\
    (forall derivedKey,
       outcome (getPrivateKey_derivedKey keystore password) = Return derivedKey ->
       calls (getPrivateKey_derivedKey keystore password)
       = [CallBufferFromHex salt; kdf]).
Proof.
  pose (other := CallPbkdf2 JUndefined JUndefined).
  assert (Hnone : forall e : Exn,
    exists salt kdf,
      is_key_derivation kdf = true /\
      calls (A := Buffer) ([], Throw e) `prefix_of` [CallBufferFromHex salt; kdf] /\
      (forall derivedKey,
         outcome (A := Buffer) ([], Throw e) = Return derivedKey ->
         calls (A := Buffer) ([], Throw e) = [CallBufferFromHex salt; kdf])).
  { intros e. exists JUndefined, other.
    repeat split; [apply prefix_nil | discriminate]. }
  assert (Hone : forall salt (e : Exn),
    exists salt' kdf,
      is_key_derivation kdf = true /\
      calls (A := Buffer) ([CallBufferFromHex salt], Throw e)
        `prefix_of` [CallBufferFromHex salt'; kdf] /\
      (forall derivedKey,
         outcome (A := Buffer) ([CallBufferFromHex salt], Throw e)
         = Return derivedKey ->
         calls (A := Buffer) ([CallBufferFromHex salt], Throw e)
         = [CallBufferFromHex salt'; kdf])).
  { intros salt e. exists salt, other.
    repeat split; [exists [other]; reflexivity | discriminate]. }
  unfold getPrivateKey_derivedKey. rewrite eval_bind.
  destruct (getp keystore "crypto") as [crypto |]; [| apply Hnone].
  rewrite eval_bind.
  destruct (getp crypto "kdfparams") as [kdfparams |]; [| apply Hnone].
  rewrite eval_bind.
  destruct (keystore_crypto keystore "kdf") as [kdf |]; [| apply Hnone].
  destruct (strict_eq_string kdf "scrypt").
  - rewrite try_catch_wrap, eval_bind.
    destruct (getp kdfparams "salt") as [salt |]; [| apply Hnone].
    rewrite call_bind.
    destruct (Buffer_from_hex salt); [| apply Hone].
    rewrite eval_bind.
    destruct (getp kdfparams "n") as [n |]; [| apply Hone].
    rewrite eval_bind.
    destruct (getp kdfparams "r") as [r |]; [| apply Hone].
    rewrite eval_bind.
    destruct (getp kdfparams "p") as [p |]; [| apply Hone].
    rewrite eval_bind.
    destruct (getp kdfparams "dklen") as [dklen |]; [| apply Hone].
    exists salt, (CallScrypt n r p dklen). repeat split; reflexivity.
  - rewrite eval_bind.
    destruct (strict_eq_string kdf "pbkdf2"); [| apply Hnone].
    rewrite eval_bind.
    destruct (getp kdfparams "prf") as [prf |]; [| apply Hnone].
    destruct (negb (strict_eq_string prf "hmac-sha256")); [apply Hnone |].
    rewrite try_catch_wrap, eval_bind.
    destruct (getp kdfparams "salt") as [salt |]; [| apply Hnone].
    rewrite call_bind.
    destruct (Buffer_from_hex salt); [| apply Hone].
    rewrite eval_bind.
    destruct (getp kdfparams "c") as [c |]; [| apply Hone].
    rewrite eval_bind.
    destruct (getp kdfparams "dklen") as [dklen |]; [| apply Hone].
    exists salt, (CallPbkdf2 c dklen). repeat split; reflexivity.
Qed.

Lemma mac_block_shape keystore derivedKey :
  exists text,
    calls (getPrivateKey_mac keystore derivedKey)
      `prefix_of` [CallBufferFromHex text; CallSha3] /\
    (forall result,
       outcome (getPrivateKey_mac keystore derivedKey) = Return result ->
       calls (getPrivateKey_mac keystore derivedKey)
       = [CallBufferFromHex text; CallSha3]).
Proof.
  unfold getPrivateKey_mac. rewrite try_catch_wrap, eval_bind.
  destruct (keystore_crypto keystore "ciphertext") as [text |].
  - exists text. rewrite call_bind.
    destruct (Buffer_from_hex text); cbn.
    + split; [reflexivity | intros; reflexivity].
    + split; [exists [CallSha3]; reflexivity | discriminate].
  - exists JUndefined. cbn. split; [apply prefix_nil | discriminate].
Qed.

Lemma seed_block_shape keystore derivedKey ciphertext :
  exists iv cipher,
    calls (getPrivateKey_seed keystore derivedKey ciphertext)
      `prefix_of` [CallBufferFromHex iv; CallCreateDecipheriv cipher;
                   CallDecipherUpdate; CallDecipherFinal] /\
    (forall seed,
       outcome (getPrivateKey_seed keystore derivedKey ciphertext) = Return seed ->
       calls (getPrivateKey_seed keystore derivedKey ciphertext)
       = [CallBufferFromHex iv; CallCreateDecipheriv cipher;
          CallDecipherUpdate; CallDecipherFinal]).
Proof.
  unfold getPrivateKey_seed, getPrivateKey_decipher, decipherBuffer.
  rewrite try_catch_wrap, Run_bind_eq, eval_bind.
  destruct (keystore_crypto keystore "cipher") as [cipher |];
    [| exists JUndefined, JUndefined; cbn [calls outcome fst snd];
       split; [apply prefix_nil | discriminate]].
  rewrite eval_bind.
  destruct (keystore_crypto keystore "cipherparams") as [cipherparams |];
    [| exists JUndefined, JUndefined; cbn [calls outcome fst snd];
       split; [apply prefix_nil | discriminate]].
  rewrite eval_bind.
  destruct (getp cipherparams "iv") as [iv |];
    [| exists JUndefined, JUndefined; cbn [calls outcome fst snd];
       split; [apply prefix_nil | discriminate]].
  exists iv, cipher. rewrite call_bind.
  destruct (Buffer_from_hex iv); cbn [calls outcome fst snd];
    [| split; [eexists; reflexivity | discriminate]].
  rewrite call_bind.
  destruct (createDecipheriv _ _ _); cbn [calls outcome fst snd];
    [| split; [eexists; reflexivity | discriminate]].
  rewrite call_bind.
  destruct (decipher_update _ _); cbn [calls outcome fst snd];
    [| split; [eexists; reflexivity | discriminate]].
  destruct (decipher_final _); cbn [calls outcome fst snd].
  - split; [reflexivity | intros; reflexivity].
  - split; [reflexivity | discriminate].
Qed.

(** X8.  Whatever the keystore and the password, the library calls of a run
    of [getPrivateKey] are an initial segment of one sequence: hex decoding
    of the salt, one key derivation, hex decoding of the ciphertext, the
    digest, hex decoding of the IV, the decipher (creation, [update],
    [final]) and the address encoding; a key is only returned at the end of
    the sequence. *)
Theorem getPrivateKey_call_order keystore password :
  exists salt kdf text iv cipher,
    let sequence :=
      [CallBufferFromHex salt; kdf; CallBufferFromHex text; CallSha3;
       CallBufferFromHex iv; CallCreateDecipheriv cipher;
       CallDecipherUpdate; CallDecipherFinal; CallPrivateKeyToAddress] in
    is_key_derivation kdf = true /\
    calls (getPrivateKey keystore password) `prefix_of` sequence /\
    (forall privateKey,
       outcome (getPrivateKey keystore password) = Return privateKey ->
       calls (getPrivateKey keystore password) = sequence).
Proof.
  destruct (derivedKey_block_shape keystore password)
    as (salt & kdf & Hkdf & Hprefix1 & Hfull1).
  destruct (getPrivateKey_derivedKey keystore password)
    as [t1 [derivedKey | e]] eqn:Ekey; cbn [calls outcome fst snd] in *.
  2: { exists salt, kdf, JUndefined, JUndefined, JUndefined.
       rewrite (getPrivateKey_Throw_derivedKey _ _ _ _ Ekey).
       cbn [calls outcome fst snd]. repeat split; [assumption | | discriminate].
       destruct Hprefix1 as [rest Hrest].
       destruct t1 as [| ? [| ? [| ? ?]]]; simplify_eq/=; eexists; reflexivity. }
  rewrite (Hfull1 _ eq_refl) in *. clear Hprefix1 Hfull1.
  destruct (mac_block_shape keystore derivedKey) as (text & Hprefix2 & Hfull2).
  destruct (getPrivateKey_mac keystore derivedKey)
    as [t2 [[ciphertext mac] | e]] eqn:Emac; cbn [calls outcome fst snd] in *.
  2: { exists salt, kdf, text, JUndefined, JUndefined.
       rewrite (getPrivateKey_Throw_mac _ _ _ _ _ _ Ekey Emac).
       cbn [calls outcome fst snd]. repeat split; [assumption | | discriminate].
       destruct Hprefix2 as [rest Hrest].
       destruct t2 as [| ? [| ? [| ? ?]]]; simplify_eq/=; eexists; reflexivity. }
  rewrite (Hfull2 _ eq_refl) in *. clear Hprefix2 Hfull2.
  rewrite (getPrivateKey_after_mac _ _ _ _ _ _ _ Ekey Emac).
  destruct (keystore_crypto keystore "mac") as [expected |];
    [| exists salt, kdf, text, JUndefined, JUndefined;
       cbn [calls outcome fst snd];
       repeat split; [assumption | eexists; reflexivity | discriminate]].
  destruct (strict_eq_string expected mac);
    [| exists salt, kdf, text, JUndefined, JUndefined;
       cbn [calls outcome fst snd];
       repeat split; [assumption | eexists; reflexivity | discriminate]].
  destruct (seed_block_shape keystore derivedKey ciphertext)
    as (iv & cipher & Hprefix3 & Hfull3).
  exists salt, kdf, text, iv, cipher.
  destruct (getPrivateKey_seed keystore derivedKey ciphertext)
    as [t3 [seed | e]]; cbn [calls outcome fst snd] in *.
  - rewrite (Hfull3 _ eq_refl).
    destruct (privateKeyToAddress _); cbn [calls outcome fst snd];
      repeat split; try assumption; try reflexivity.
  - repeat split; [assumption | | discriminate].
    destruct Hprefix3 as [rest Hrest].
    destruct t3 as [| ? [| ? [| ? [| ? [| ? ?]]]]]; simplify_eq/=;
      eexists; reflexivity.
Qed.

(** *** Integrity before decryption *)

Lemma Forall_prefix {A} (Q : A -> Prop) (l1 l2 : list A) :
  l1 `prefix_of` l2 -> Forall Q l2 -> Forall Q l1.
Proof. intros [rest ->] [? _]%Forall_app. assumption. Qed.

(** X9.  Whatever the keystore, validated or not: a run in which the
    decipher is touched or the address encoded, and so every run that
    returns a key, is a run whose password passed the integrity check. *)
Theorem getPrivateKey_integrity_first keystore password :
  (Exists (fun c => is_decryption c = true \/ c = CallPrivateKeyToAddress)
     (calls (getPrivateKey keystore password)) ->
   mac_matches keystore password) /\
  (forall privateKey,
     outcome (getPrivateKey keystore password) = Return privateKey ->
     mac_matches keystore password).
Proof.
  assert (Hquiet : forall (t : list Call) salt kdf text,
    is_key_derivation kdf = true ->
    t `prefix_of` [CallBufferFromHex salt; kdf; CallBufferFromHex text; CallSha3] ->
    ~ Exists (fun c => is_decryption c = true \/ c = CallPrivateKeyToAddress) t).
  { intros t salt kdf text Hkdf Hprefix Hexists.
    apply Exists_exists in Hexists as (c & Hc & Hbad).
    assert (Hall : Forall (fun c => is_decryption c = false /\
                                    c <> CallPrivateKeyToAddress) t).
    { eapply Forall_prefix; [exact Hprefix |].
      repeat constructor; try discriminate.
      - destruct kdf; try discriminate; reflexivity.
      - destruct kdf; discriminate. }
    rewrite Forall_forall in Hall. destruct (Hall c Hc) as [Hno Hne].
    destruct Hbad; congruence. }
  destruct (derivedKey_block_shape keystore password)
    as (salt & kdf & Hkdf & Hprefix1 & Hfull1).
  destruct (getPrivateKey_derivedKey keystore password)
    as [t1 [derivedKey | e]] eqn:Ekey; cbn [calls outcome fst snd] in *.
  2: { rewrite (getPrivateKey_Throw_derivedKey _ _ _ _ Ekey).
       cbn [calls outcome fst snd]. split; [| discriminate].
       intros Hexists. exfalso.
       apply (Hquiet t1 salt kdf JUndefined Hkdf); [| assumption].
       destruct Hprefix1 as [rest Hrest].
       destruct t1 as [| ? [| ? [| ? ?]]]; simplify_eq/=; eexists; reflexivity. }
  rewrite (Hfull1 _ eq_refl) in *. clear Hprefix1 Hfull1.
  destruct (mac_block_shape keystore derivedKey) as (text & Hprefix2 & Hfull2).
  destruct (getPrivateKey_mac keystore derivedKey)
    as [t2 [[ciphertext mac] | e]] eqn:Emac; cbn [calls outcome fst snd] in *.
  2: { rewrite (getPrivateKey_Throw_mac _ _ _ _ _ _ Ekey Emac).
       cbn [calls outcome fst snd]. split; [| discriminate].
       intros Hexists. exfalso.
       apply (Hquiet _ salt kdf text Hkdf) in Hexists; [assumption |].
       destruct Hprefix2 as [rest Hrest].
       destruct t2 as [| ? [| ? [| ? ?]]]; simplify_eq/=; eexists; reflexivity. }
  rewrite (Hfull2 _ eq_refl) in *. clear Hprefix2 Hfull2.
  rewrite (getPrivateKey_after_mac _ _ _ _ _ _ _ Ekey Emac).
  destruct (keystore_crypto keystore "mac") as [expected |] eqn:Hexpected.
  2: { cbn [calls outcome fst snd]. split; [| discriminate].
       intros Hexists. exfalso.
       apply (Hquiet _ salt kdf text Hkdf) in Hexists; [assumption |].
       reflexivity. }
  destruct (strict_eq_string expected mac) eqn:Hsame.
  - apply strict_eq_string_true in Hsame as ->.
    assert (mac_matches keystore password)
      by (unfold mac_matches; eauto 10).
    split; intros; assumption.
  - cbn [calls outcome fst snd]. split; [| discriminate].
    intros Hexists. exfalso.
    apply (Hquiet _ salt kdf text Hkdf) in Hexists; [assumption |].
    reflexivity.
Qed.

(** *** The failures of [getPrivateKey] on a validated keystore *)

(** X10.  On a validated keystore [getPrivateKey] throws one of seven
    values: the six coded errors of its steps, each with the library's error
    as original error or with none, and the error of [privateKeyToAddress],
    which is outside every [try] and so is not wrapped.  It never throws a
    [TypeError]. *)
Theorem getPrivateKey_failures keystore password e :
  Validated keystore ->
  outcome (getPrivateKey keystore password) = Throw e ->
  e ∈ [CodedClientError DECRYPT_KEYSTORE_DERIVED_KEY_ERROR (Some LibraryError);
       CodedClientError DECRYPT_KEYSTORE_UNSUPPORTED_PBKDF2_PARAMETERS None;
       CodedClientError DECRYPT_KEYSTORE_UNKNOWN_CRYPTO_ERROR (Some LibraryError);
       CodedClientError DECRYPT_KEYSTORE_WRONG_PASSPHRASE None;
       CodedClientError DECRYPT_KEYSTORE_DECIPHER_ERROR (Some LibraryError);
       LibraryError;
       CodedClientError DECRYPT_KEYSTORE_WRONG_ADDRESS None].
Proof.
  intros Hvalid.
  pose proof (derivedKey_block_validated keystore password Hvalid) as Hkey.
  destruct Hvalid as [version id address crypto ciphertext cipherparams iv
    cipher kdf kdfparams mac _ _ _ Haddress _ Hcrypto Hciphertext
    Hcipherparams Hiv Hcipher _ _ _ Hmac].
  destruct (getPrivateKey_derivedKey keystore password)
    as [t1 [derivedKey | e1]] eqn:Ekey; cbn [outcome snd] in Hkey.
  2: { rewrite (getPrivateKey_Throw_derivedKey _ _ _ _ Ekey).
       intros [= <-]. destruct Hkey as [-> | ->]; set_solver. }
  assert (Htext : keystore_crypto keystore "ciphertext"
                  = Return (JString ciphertext))
    by (apply keystore_crypto_Return; eauto).
  pose proof (mac_block keystore derivedKey _ Htext) as Emac.
  destruct (Buffer_from_hex (JString ciphertext)) as [decoded |].
  2: { rewrite (getPrivateKey_Throw_mac _ _ _ _ _ _ Ekey Emac).
       intros [= <-]. set_solver. }
  rewrite (getPrivateKey_after_mac _ _ _ _ _ _ _ Ekey Emac).
  rewrite (proj2 (keystore_crypto_Return keystore "mac" (JString mac)))
    by eauto.
  destruct (strict_eq_string _ _); [| intros [= <-]; set_solver].
  unfold getPrivateKey_seed. rewrite try_catch_wrap, Run_bind_eq.
  erewrite decipher_block by (try apply keystore_crypto_Return; eauto).
  destruct (Buffer_from_hex (JString iv));
    [| intros [= <-]; set_solver].
  destruct (createDecipheriv _ _ _); [| intros [= <-]; set_solver].
  destruct (decipher_update _ _); [| intros [= <-]; set_solver].
  cbn [outcome calls fst snd].
  destruct (decipher_final _); [| intros [= <-]; set_solver].
  unfold mret, Run_ret. cbn [outcome calls fst snd].
  destruct (privateKeyToAddress _); [| intros [= <-]; set_solver].
  rewrite Haddress.
  destruct (strict_eq_string _ _); [discriminate | intros [= <-]; set_solver].
Qed.

(** *** Which key derivation runs *)

(** X11.  [scrypt] is only called for a keystore whose [kdf] is ['scrypt'],
    and [crypto.pbkdf2] only for one whose [kdf] is ['pbkdf2'] and whose
    [prf] is ['hmac-sha256']. *)
Theorem key_derivation_follows_kdf keystore password :
  Forall
    (fun c =>
       match c with
       | CallScrypt _ _ _ _ =>
           keystore_crypto keystore "kdf" = Return (JString "scrypt")
       | CallPbkdf2 _ _ =>
           keystore_crypto keystore "kdf" = Return (JString "pbkdf2") /\
           (kdfparams ← keystore_crypto keystore "kdfparams";
            getp kdfparams "prf") = Return (JString "hmac-sha256")
       | _ => True
       end)
    (calls (getPrivateKey keystore password)).
Proof.
  apply getPrivateKey_calls_Forall.
  - unfold getPrivateKey_derivedKey, keystore_crypto. rewrite eval_bind.
    destruct (getp keystore "crypto") as [crypto |]; [| constructor].
    change (Return crypto ≫= (fun c => getp c "kdf")) with (getp crypto "kdf").
    change (Return crypto ≫= (fun c => getp c "kdfparams"))
      with (getp crypto "kdfparams").
    rewrite eval_bind.
    destruct (getp crypto "kdfparams") as [kdfparams |]; [| constructor].
    change (Return kdfparams ≫= (fun k => getp k "prf"))
      with (getp kdfparams "prf").
    rewrite eval_bind.
    destruct (getp crypto "kdf") as [kdf |] eqn:Hkdf; [| constructor].
    destruct (strict_eq_string kdf "scrypt") eqn:Hscrypt.
    + apply strict_eq_string_true in Hscrypt as ->.
      rewrite try_catch_wrap_calls, eval_bind.
      destruct (getp kdfparams "salt") as [salt |]; [| constructor].
      rewrite call_bind.
      destruct (Buffer_from_hex salt); [| repeat constructor].
      rewrite !eval_bind.
      destruct (getp kdfparams "n"); [| repeat constructor].
      destruct (getp kdfparams "r"); [| repeat constructor].
      destruct (getp kdfparams "p"); [| repeat constructor].
      destruct (getp kdfparams "dklen"); repeat constructor.
    + rewrite eval_bind.
      destruct (strict_eq_string kdf "pbkdf2") eqn:Hpbkdf2; [| constructor].
      apply strict_eq_string_true in Hpbkdf2 as ->.
      rewrite eval_bind.
      destruct (getp kdfparams "prf") as [prf |] eqn:Hprf; [| constructor].
      destruct (strict_eq_string prf "hmac-sha256") eqn:Hsha; [| constructor].
      apply strict_eq_string_true in Hsha as ->. cbn [negb].
      rewrite try_catch_wrap_calls, eval_bind.
      destruct (getp kdfparams "salt") as [salt |]; [| constructor].
      rewrite call_bind.
      destruct (Buffer_from_hex salt); [| repeat constructor].
      rewrite !eval_bind.
      destruct (getp kdfparams "c"); [| repeat constructor].
      destruct (getp kdfparams "dklen"); repeat constructor.
  - intros derivedKey.
    destruct (mac_block_shape keystore derivedKey) as (text & Hprefix & _).
    eapply Forall_prefix; [exact Hprefix | repeat constructor].
  - intros derivedKey ciphertext.
    destruct (seed_block_shape keystore derivedKey ciphertext)
      as (iv & cipher & Hprefix & _).
    eapply Forall_prefix; [exact Hprefix | repeat constructor].
  - exact I.
Qed.

(** *** Properties the routines do not read *)

(** The routines look at a keystore through its [crypto] and [address]
    (and, for the validation, [version] and [id]) only. *)
Lemma getPrivateKey_reads keystore keystore' password :
  getp keystore "crypto" = getp keystore' "crypto" ->
  getp keystore "address" = getp keystore' "address" ->
  getPrivateKey keystore password = getPrivateKey keystore' password.
Proof.
  intros Hcrypto Haddress.
  unfold getPrivateKey, getPrivateKey_derivedKey, getPrivateKey_mac,
    getPrivateKey_seed, getPrivateKey_decipher, keystore_crypto.
  rewrite Hcrypto, Haddress. reflexivity.
Qed.

Lemma extractKeystore_check_reads fields fields' :
  (forall p, p ∈ ["version"; "id"; "address"; "crypto"] ->
             fields !! p = fields' !! p) ->
  extractKeystore_check (JObject fields) = extractKeystore_check (JObject fields').
Proof.
  intros Hsame.
  unfold extractKeystore_check, keystore_crypto, typeof_is, getp.
  rewrite !(Hsame "version"), !(Hsame "id"), !(Hsame "address"),
    !(Hsame "crypto") by set_solver.
  reflexivity.
Qed.

(** X12.  Setting or removing a top-level property other than [version],
    [id], [address] and [crypto] changes neither the verdict of the
    validation nor the run of [getPrivateKey]. *)
Theorem unknown_properties_ignored fields name value password :
  name ∉ ["version"; "id"; "address"; "crypto"] ->
  extractKeystore_check (JObject (<[name := value]> fields))
  = extractKeystore_check (JObject fields) /\
  extractKeystore_check (JObject (delete name fields))
  = extractKeystore_check (JObject fields) /\
  getPrivateKey (JObject (<[name := value]> fields)) password
  = getPrivateKey (JObject fields) password /\
  getPrivateKey (JObject (delete name fields)) password
  = getPrivateKey (JObject fields) password.
Proof.
  intros Hunknown.
  assert (Hinsert : forall p, p ∈ ["version"; "id"; "address"; "crypto"] ->
                              <[name := value]> fields !! p = fields !! p).
  { intros p Hp. apply lookup_insert_ne. intros ->. contradiction. }
  assert (Hdelete : forall p, p ∈ ["version"; "id"; "address"; "crypto"] ->
                              delete name fields !! p = fields !! p).
  { intros p Hp. apply lookup_delete_ne. intros ->. contradiction. }
  repeat split.
  - apply extractKeystore_check_reads. assumption.
  - apply extractKeystore_check_reads. assumption.
  - apply getPrivateKey_reads; cbn [getp]; rewrite Hinsert by set_solver;
      reflexivity.
  - apply getPrivateKey_reads; cbn [getp]; rewrite Hdelete by set_solver;
      reflexivity.
Qed.

(** *** What [extractKeystore] accepts *)

(** X13.  [extractKeystore] returns a value exactly when its argument is a
    string that [JSON.parse] turns into that value and the value has the
    properties [Validated] lists; what it returns is the parsed value
    itself. *)
Theorem extractKeystore_accepts text keystore :
  extractKeystore text = Return keystore <->
  exists s,
    text = JString s /\ JSON_parse s = Some keystore /\ Validated keystore.
Proof. apply extractKeystore_Return. Qed.
End More.

(** ** The wallet utilities *)

Section Flows.
Context `{P : Platform} `{C : Client}.

(** Unfolds the combinators of a run and splits on the reply of each call. *)
Ltac flow_unfold :=
  unfold mbind, Flow_bind, Flow_try, invoke, reject, await_run, async_call,
    mret, Flow_ret, callOnProgress in *.
Ltac flow_cases :=
  flow_unfold; repeat case_match; simplify_eq/=;
  repeat match goal with u : unit |- _ => destruct u end.

(** Membership in an explicit list of events. *)
Ltac not_listed H :=
  repeat (apply elem_of_cons in H as [H | H]; [discriminate H |]);
  apply elem_of_nil in H; contradiction.
Ltac listed :=
  repeat first [apply list_elem_of_here | apply list_elem_of_further].

(** *** [unlockWalletDeprecated] *)

(** X14.  The deprecated wallet is deleted last, and only when its key was
    recovered and stored.  A keystore the password does not open leaves the
    world as it was: the promise is rejected with what [getPrivateKey]
    threw, and neither the client nor [deleteWallet] is called.  When
    [deleteWallet] is called, the password passed the integrity check, the
    account stored under the wallet's name holds the recovered key, whose
    address is the keystore's, and storing it was the one call before. *)
Theorem unlockWalletDeprecated_deletes_last appContext wallet password
    deleteWallet w :
  let recovery := getPrivateKey (wallet_keystore wallet) password in
  let run := unlockWalletDeprecated appContext wallet password deleteWallet w in
  (forall e,
     outcome recovery = Throw e ->
     run = (Crypto <$> calls recovery, w, Rejected (KeystoreThrown e))) /\
  (DeleteWallet ∈ events run ->
   exists privateKey address stored w',
     let options := {|
       add_network := appContext_network appContext;
       add_name := Some (wallet_name wallet);
       add_privateKey := Some privateKey;
       add_password := Some password;
       add_nep2 := None;
       add_address := None;
     |} in
     outcome recovery = Return privateKey /\
     mac_matches (wallet_keystore wallet) password /\
     privateKeyToAddress privateKey = Some address /\
     getp (wallet_keystore wallet) "address" = Return (JString address) /\
     localStorage_addAccount options w = (w', inr stored) /\
     events run
     = (Crypto <$> calls recovery) ++ [LocalStorageAddAccount options; DeleteWallet] /\
     world run = (deleteWallet w').1) /\
  (settled run = Fulfilled tt -> DeleteWallet ∈ events run).
Proof.
  intros recovery run. subst run. unfold unlockWalletDeprecated.
  fold recovery.
  assert (Hcrypto : DeleteWallet ∉ Crypto <$> calls recovery).
  { intros (c & Hc & _)%list_elem_of_fmap. discriminate. }
  destruct recovery as [t [privateKey | e]] eqn:Erecovery;
    cbn [calls outcome fst snd] in *.
  - destruct (getPrivateKey_Return _ _ _ _ Erecovery)
      as (t1 & derivedKey & t2 & ciphertext & mac & _ & _ & address &
          Hkey & Hmac & Hexpected & _ & _ & Haddress & Hfield).
    assert (Hchecked : mac_matches (wallet_keystore wallet) password)
      by (unfold mac_matches; eauto 10).
    split; [discriminate |].
    flow_unfold. cbn [calls outcome fst snd].
    destruct (localStorage_addAccount _ w) as [w' [failure | stored]] eqn:Eadd.
    + cbn [events settled fst snd]. split; [| discriminate].
      intros [? | Hin]%elem_of_app; [contradiction |].
      apply list_elem_of_singleton in Hin. discriminate.
    + destruct (deleteWallet w') as [w'' reply] eqn:Edelete.
      cbn [events world settled fst snd]. split.
      * intros _. exists privateKey, address, stored, w'.
        rewrite Edelete. repeat split; try assumption; reflexivity.
      * intros _. set_solver.
  - split; [intros ? [= <-]; reflexivity |].
    flow_unfold. cbn [calls outcome events settled fst snd].
    split; [contradiction | discriminate].
Qed.

(** *** [doConvertAccount] and [convertAccount] *)

(** X15.  [doConvertAccount] settles as its first three calls do (the
    deletion from memory, the addition to the local storage, the selection):
    a failure of the attempt to put the account back in memory is swallowed,
    and the first error is thrown again.  A run that is fulfilled made these
    three calls and no other.  The client is asked to put the account back
    exactly when the deletion went through and the addition or the selection
    failed. *)
Theorem doConvertAccount_rethrows wallet password w :
  let id := account_id (wallet_account wallet) in
  let primary :=
    (_ ← invoke (MemoryDeleteAccount id) (memory_deleteAccount id);
     doConvertAccount_store wallet password) w in
  let run := doConvertAccount wallet password w in
  settled run = settled primary /\
  events primary `prefix_of` events run /\
  (settled run = Fulfilled tt ->
   run = primary /\
   exists options,
     add_privateKey options = Some (wallet_privateKey wallet) /\
     add_password options = Some password /\
     events run
     = [MemoryDeleteAccount id; LocalStorageAddAccount options;
        SelectAccount (Some id)]) /\
  ((exists options, MemoryAddAccount options ∈ events run) <->
   exists w', memory_deleteAccount id w = (w', inr tt) /\
              settled primary <> Fulfilled tt).
Proof.
  intros id primary run. subst primary run id.
  unfold doConvertAccount, doConvertAccount_store, doConvertAccount_restore.
  flow_cases; cbn [events settled world fst snd].
  all: split; [reflexivity |].
  all: split; [eexists; simpl; reflexivity |].
  all: split; [try discriminate |].
  all: try (intros _; split; [reflexivity |]; eexists; repeat split; reflexivity).
  all: split.
  all: try (intros [? Hin]; exfalso; not_listed Hin).
  all: try (intros [? [Hdeleted Hfailed]]; congruence).
  all: try (intros _; eexists; split; [reflexivity | discriminate]).
  all: intros _; eexists; listed.
Qed.

(** X16.  The [catch] clause of [convertAccount] is never entered: the
    promise of [doConvertAccount] is returned, not awaited, inside the [try]
    block.  So [convertAccount] runs and settles as [doConvertAccount] does,
    and a rejection is the client's own error, whether or not it is a
    [ClientError]: never one wrapped with [CREATE_NEP2_ERROR]. *)
Theorem convertAccount_unwrapped wallet password w :
  convertAccount wallet password w = doConvertAccount wallet password w /\
  (forall e,
     settled (convertAccount wallet password w) = Rejected e ->
     exists failure, e = ClientThrown failure).
Proof.
  assert (Hsame : convertAccount wallet password w
                  = doConvertAccount wallet password w).
  { unfold convertAccount, async_call, Flow_try.
    unfold mbind at 1. unfold Flow_bind at 1. unfold mret, Flow_ret.
    destruct (doConvertAccount wallet password w) as [[t w'] r].
    destruct r; reflexivity. }
  split; [exact Hsame |]. rewrite Hsame.
  unfold doConvertAccount, doConvertAccount_store, doConvertAccount_restore.
  flow_cases; cbn [settled snd]; intros e [=]; subst; eexists; reflexivity.
Qed.

(** *** [deleteAccount] *)

(** X17.  [deleteAccount] selects an account only after the deletion went
    through and the accounts were listed: the first account the client then
    lists, or none when it lists none; these three calls are then all it
    makes.  So when the client no longer lists the account it deleted, that
    account is not selected again. *)
Theorem deleteAccount_selects_another id w :
  (forall selected,
     SelectAccount selected ∈ events (deleteAccount id w) ->
     exists w1 w2 accounts,
       client_deleteAccount id w = (w1, inr tt) /\
       client_getAccounts w1 = (w2, inr accounts) /\
       selected = account_id <$> head accounts) /\
  (forall w1 w2 accounts,
     client_deleteAccount id w = (w1, inr tt) ->
     client_getAccounts w1 = (w2, inr accounts) ->
     events (deleteAccount id w)
     = [DeleteAccount id; GetAccounts;
        SelectAccount (account_id <$> head accounts)]) /\
  ((forall w1 w2 accounts,
      client_deleteAccount id w = (w1, inr tt) ->
      client_getAccounts w1 = (w2, inr accounts) ->
      id ∉ account_id <$> accounts) ->
   SelectAccount (Some id) ∉ events (deleteAccount id w)).
Proof.
  assert (Hselected : forall selected,
    SelectAccount selected ∈ events (deleteAccount id w) ->
    exists w1 w2 accounts,
      client_deleteAccount id w = (w1, inr tt) /\
      client_getAccounts w1 = (w2, inr accounts) /\
      selected = account_id <$> head accounts).
  { intros selected. unfold deleteAccount.
    flow_cases; cbn [events fst snd]; intros Hin; try not_listed Hin.
    all: repeat (apply elem_of_cons in Hin as [Hin | Hin];
                 [try discriminate Hin |]);
      try (apply elem_of_nil in Hin; contradiction).
    all: injection Hin as ->; eauto 10. }
  split; [exact Hselected |]. split.
  - intros w1 w2 accounts Hdelete Hlist. unfold deleteAccount.
    unfold mbind, Flow_bind, invoke. rewrite Hdelete, Hlist.
    destruct (client_selectAccount _ w2) as [w3 reply]. reflexivity.
  - intros Hgone (w1 & w2 & accounts & Hdelete & Hlist & Hhead)%Hselected.
    apply (Hgone _ _ _ Hdelete Hlist).
    destruct accounts as [| account accounts]; [discriminate |].
    injection Hhead as ->. apply list_elem_of_here.
Qed.

(** *** [doSendAsset] *)

Lemma strip0x_prefixed value :
  String_startsWith (strip0x value) "0x" = true ->
  String_startsWith value "0x0x" = true.
Proof.
  unfold strip0x. destruct (String_startsWith value "0x") eqn:Hprefix.
  - intros Hrest.
    apply String_startsWith_inv in Hprefix, Hrest.
    simpl String.length in Hprefix, Hrest.
    rewrite Hprefix, Hrest.
    apply (String_startsWith_app (String_slice 2 (String_slice 2 value)) "0x0x").
  - congruence.
Qed.

(** X18.  Whatever the spelling of the asset hash handed in, the hash the
    client is given starts with ['0x'], once, and is otherwise the one
    handed in; the transaction hash returned is the client's with one ['0x']
    taken off.  A NEP5 asset is sent by its contract, from the address of
    the account, and never by [client.transfer]; any other asset by one call
    of [client.transfer] and nothing else. *)
Theorem doSendAsset_hashes appContext account toAddress amount assetType
    assetHashIn w :
  let run := doSendAsset appContext account toAddress amount assetType
               assetHashIn w in
  Forall (fun e =>
            match e with
            | GetDecimals asset | CreateNEP5SmartContract _ asset _
            | Transfer _ asset _ _ =>
                String_startsWith asset "0x" = true /\
                strip0x asset = strip0x assetHashIn
            | ContractTransfer from to _ options_from =>
                from = id_address account /\ to = toAddress /\
                options_from = account
            | _ => False
            end) (events run) /\
  (forall hash,
     settled run = Fulfilled hash ->
     exists result : TransactionResult,
       hash = strip0x (transaction_hash result) /\
       (String_startsWith hash "0x" = true ->
        String_startsWith (transaction_hash result) "0x0x" = true)) /\
  (if bool_decide (assetType = "NEP5")
   then exists decimals,
          events run
          `prefix_of` [GetDecimals (add0x assetHashIn);
                       CreateNEP5SmartContract (appContext_network appContext)
                         (add0x assetHashIn) decimals;
                       ContractTransfer (id_address account) toAddress amount
                         account]
   else events run = [Transfer amount (add0x assetHashIn) toAddress account]).
Proof.
  intros run. subst run. unfold doSendAsset.
  assert (Hasset : String_startsWith (add0x assetHashIn) "0x" = true /\
                   strip0x (add0x assetHashIn) = strip0x assetHashIn).
  { split; [apply add0x_prefixed |].
    unfold add0x. destruct (String_startsWith assetHashIn "0x") eqn:Hprefix.
    - reflexivity.
    - rewrite strip0x_app. unfold strip0x. rewrite Hprefix. reflexivity. }
  destruct (bool_decide (assetType = "NEP5")).
  - flow_cases; cbn [events settled fst snd].
    all: split; [repeat constructor; apply Hasset |].
    all: split; [try discriminate |].
    all: try (exists NaN; eexists; simpl; reflexivity).
    all: try (eexists; eexists; simpl; reflexivity).
    intros hash [= <-]. eexists. split; [reflexivity | apply strip0x_prefixed].
  - flow_cases; cbn [events settled fst snd].
    all: split; [repeat constructor; apply Hasset |].
    all: split; [try discriminate | reflexivity].
    intros hash [= <-]. eexists. split; [reflexivity | apply strip0x_prefixed].
Qed.

(** *** [claimAllGAS] *)

(** One step of a run: an awaited call followed by the rest, outside and
    inside a [try] block. *)
Lemma invoke_bind {A B} e (operation : World -> World * (Failure + A))
    (f : A -> Flow B) w :
  (invoke e operation ≫= f) w
  = match (operation w).2 with
    | inl failure => ([e], (operation w).1, Rejected (ClientThrown failure))
    | inr a =>
        (e :: (f a (operation w).1).1.1, (f a (operation w).1).1.2,
         (f a (operation w).1).2)
    end.
Proof.
  unfold mbind, Flow_bind, invoke.
  destruct (operation w) as [w' [failure | a]]; cbn [fst snd]; [reflexivity |].
  destruct (f a w') as [[t w''] r]. reflexivity.
Qed.

Lemma Flow_bind_assoc {A B D} (m : Flow A) (f : A -> Flow B) (g : B -> Flow D) w :
  ((m ≫= f) ≫= g) w = (m ≫= (fun a => f a ≫= g)) w.
Proof.
  unfold mbind, Flow_bind.
  destruct (m w) as [[t1 w1] [a | e]]; [| reflexivity].
  destruct (f a w1) as [[t2 w2] [b | e]]; [| reflexivity].
  destruct (g b w2) as [[t3 w3] r]. rewrite app_assoc. reflexivity.
Qed.

Lemma Flow_ret_bind {A B} (a : A) (f : A -> Flow B) w : (mret a ≫= f) w = f a w.
Proof.
  unfold mbind, Flow_bind, mret, Flow_ret.
  destruct (f a w) as [[t w'] r]. reflexivity.
Qed.

Lemma Flow_try_invoke_bind {A B} e (operation : World -> World * (Failure + A))
    (f : A -> Flow B) handler w :
  Flow_try (invoke e operation ≫= f) handler w
  = match (operation w).2 with
    | inl failure =>
        (e :: (handler (ClientThrown failure) (operation w).1).1.1,
         (handler (ClientThrown failure) (operation w).1).1.2,
         (handler (ClientThrown failure) (operation w).1).2)
    | inr a =>
        (e :: (Flow_try (f a) handler (operation w).1).1.1,
         (Flow_try (f a) handler (operation w).1).1.2,
         (Flow_try (f a) handler (operation w).1).2)
    end.
Proof.
  unfold Flow_try, mbind, Flow_bind, invoke.
  destruct (operation w) as [w' [failure | a]]; cbn [fst snd].
  - destruct (handler _ w') as [[t w''] r]. reflexivity.
  - destruct (f a w') as [[t w''] [b | error]]; [reflexivity |].
    destruct (handler error w'') as [[t' w3] r]. reflexivity.
Qed.

Lemma Flow_try_invoke {A} e (operation : World -> World * (Failure + A))
    handler w :
  Flow_try (invoke e operation) handler w
  = match (operation w).2 with
    | inl failure =>
        (e :: (handler (ClientThrown failure) (operation w).1).1.1,
         (handler (ClientThrown failure) (operation w).1).1.2,
         (handler (ClientThrown failure) (operation w).1).2)
    | inr a => ([e], (operation w).1, Fulfilled a)
    end.
Proof.
  unfold Flow_try, invoke.
  destruct (operation w) as [w' [failure | a]]; cbn [fst snd]; [| reflexivity].
  destruct (handler _ w') as [[t w''] r]. reflexivity.
Qed.

Lemma Flow_try_ret_bind {A B} (a : A) (f : A -> Flow B) handler w :
  Flow_try (mret a ≫= f) handler w = Flow_try (f a) handler w.
Proof. unfold Flow_try. rewrite Flow_ret_bind. reflexivity. Qed.

Lemma invoke_run {A} e (operation : World -> World * (Failure + A)) w :
  invoke e operation w
  = ([e], (operation w).1,
     match (operation w).2 with
     | inl failure => Rejected (ClientThrown failure)
     | inr a => Fulfilled a
     end).
Proof. unfold invoke. destruct (operation w). reflexivity. Qed.

(** Takes the next step of the run in the goal and splits on the reply. *)
Ltac flow_step :=
  first
    [ rewrite invoke_bind | rewrite Flow_try_invoke_bind
    | rewrite Flow_try_invoke | rewrite Flow_ret_bind
    | rewrite Flow_try_ret_bind | rewrite Flow_bind_assoc
    | rewrite invoke_run
    | progress unfold reject, is_NOTHING_TO_CLAIM
    | match goal with
      | |- context [if ?b then _ else _] => destruct b eqn:?
      end ];
  try match goal with
      | |- context [match snd ?reply with _ => _ end] =>
          let E := fresh "Ereply" in
          destruct reply as [? [? | ?]] eqn:E
      end;
  cbn [fst snd];
  repeat match goal with u : unit |- _ => destruct u end.

Ltac claimAllGAS_unfold :=
  unfold claimAllGAS, claimAllGAS_spend, claimAllGAS_claim, callOnProgress,
    events, world, settled in *;
  cbn [fst snd].

(** X19.  What [claimAllGAS] asks of the client.  A transfer is of the whole
    NEO balance of the account fetched, a balance that is there and greater
    than zero, to the address of that account and from the account the claim
    is for; nothing is transferred when the balance is absent, zero,
    negative or NaN.  The claim is for the same account, confirmations are
    awaited with the time limit of the options, and a report is made only to
    a callback that was given.  The client is asked nothing else. *)
Theorem claimAllGAS_spends_balance appContext accountID onProgress w :
  let run := claimAllGAS appContext accountID onProgress w in
  let w0 := world (callOnProgress onProgress fetch_unspent_sending w) in
  Forall (fun e =>
            match e with
            | Transfer amount asset to options_from =>
                exists w1 account,
                  readClient_getAccount (id_address accountID) w0
                  = (w1, inr account) /\
                  Account_balances account !! NEO_ASSET_HASH_0X = Some amount /\
                  BigNumber_gt amount numbers_ZERO = true /\
                  asset = NEO_ASSET_HASH_0X /\
                  to = Account_address account /\
                  options_from = accountID
            | Claim options_from => options_from = accountID
            | GetAccount address => address = id_address accountID
            | Confirmed _ timeoutMS =>
                timeoutMS = appOptions_confirmLimitMS appContext
            | OnProgress _ => is_Some onProgress
            | _ => False
            end) (events run).
Proof.
  intros run w0. subst run w0.
  claimAllGAS_unfold.
  destruct onProgress as [callback |];
    [rewrite invoke_run; cbn [fst snd] | unfold mret at 1, Flow_ret at 1];
    repeat flow_step.
  all: repeat match goal with |- Forall _ _ => constructor end.
  all: try reflexivity.
  all: try (eexists; reflexivity).
  all: eexists _, _; split; [reflexivity |].
  all: match goal with
       | H : BigNumber_gt (default _ ?balance) _ = true |- _ =>
           destruct balance; [auto 10 | vm_compute in H; discriminate H]
       end.
Qed.

(** Picks an element of an explicit list, with backtracking. *)
Ltac choose :=
  apply list_elem_of_here + (apply list_elem_of_further; choose).
Ltac sublist_search :=
  repeat first [apply sublist_nil_l | apply sublist_skip | apply sublist_cons].

(** X20.  The reports a callback receives follow one protocol: the two of
    the fetch, then either the three of the transfer or the skip, then
    [claim-gas-sending] and what follows it.  A run stops the protocol where
    it fails; [fetch-unclaimed-sending] and [fetch-unclaimed-done] are never
    reported.  A run that is fulfilled has reported the end of the claim
    last, as confirmed or as skipped.  Without a callback nothing is
    reported. *)
Theorem claimAllGAS_reports appContext accountID callback w :
  let run := claimAllGAS appContext accountID (Some callback) w in
  let reports := omap progress_of (events run) in
  (exists h1 h2 spend claim,
     spend ∈ [[spend_all_sending; spend_all_confirming h1; spend_all_confirmed];
              [spend_all_skip]] /\
     claim ∈ [[claim_gas_confirming h2; claim_gas_confirmed];
              [claim_gas_confirming h2]; []] /\
     reports `prefix_of`
       [fetch_unspent_sending; fetch_unspent_done] ++ spend ++
       [claim_gas_sending] ++ claim ++ [claim_gas_skip]) /\
  (settled run = Fulfilled tt ->
   last reports = Some claim_gas_confirmed \/
   last reports = Some claim_gas_skip) /\
  omap progress_of (events (claimAllGAS appContext accountID None w)) = [].
Proof.
  intros run reports. subst run reports.
  assert (Hsilent :
    omap progress_of (events (claimAllGAS appContext accountID None w)) = []).
  { claimAllGAS_unfold. repeat flow_step; reflexivity. }
  cut ((exists h1 h2 spend claim,
     spend ∈ [[spend_all_sending; spend_all_confirming h1; spend_all_confirmed];
              [spend_all_skip]] /\
     claim ∈ [[claim_gas_confirming h2; claim_gas_confirmed];
              [claim_gas_confirming h2]; []] /\
     omap progress_of
       (events (claimAllGAS appContext accountID (Some callback) w))
     `prefix_of`
       [fetch_unspent_sending; fetch_unspent_done] ++ spend ++
       [claim_gas_sending] ++ claim ++ [claim_gas_skip]) /\
    (settled (claimAllGAS appContext accountID (Some callback) w) = Fulfilled tt ->
     last (omap progress_of
             (events (claimAllGAS appContext accountID (Some callback) w)))
     = Some claim_gas_confirmed \/
     last (omap progress_of
             (events (claimAllGAS appContext accountID (Some callback) w)))
     = Some claim_gas_skip)).
  { intros [? ?]. repeat split; assumption. }
  clear Hsilent. claimAllGAS_unfold.
  repeat flow_step.
  all: split;
    [| try discriminate; intros _; simpl; first [left; reflexivity | right; reflexivity]].
  all: simpl omap.
  all: unshelve
         (eexists _, _, _, _;
          split; [choose | split; [choose | eexists; simpl; reflexivity]]);
       exact "".
Qed.

(** X21.  A claim for which there is nothing to claim is not a failure: the
    error with the code [NOTHING_TO_CLAIM] stays inside the [try] block.  A
    run rejected with such an error was rejected before the block was
    entered, or by the callback on the report [claim-gas-skip]. *)
Theorem claimAllGAS_nothing_to_claim appContext accountID onProgress w e :
  let run := claimAllGAS appContext accountID onProgress w in
  settled run = Rejected e ->
  is_NOTHING_TO_CLAIM e = true ->
  ((Claim accountID ∉ events run) /\ (OnProgress claim_gas_sending ∉ events run)) \/
  last (events run) = Some (OnProgress claim_gas_skip).
Proof.
  intros run. subst run. claimAllGAS_unfold.
  destruct onProgress as [callback |]; repeat flow_step.
  all: intros [= <-] Hcode; try discriminate Hcode.
  all: try (right; reflexivity).
  all: try (left; split; intros Hin; not_listed Hin).
  all: unfold is_NOTHING_TO_CLAIM in Hcode; congruence.
Qed.

(** X22.  The claim is sent after the NEO of the account was spent: in a run
    that sends the claim, either nothing was transferred (there was no
    balance to spend), or the transfer went through and its confirmation was
    awaited, with success, before the claim. *)
Theorem claimAllGAS_claims_after_spend appContext accountID onProgress w :
  let run := claimAllGAS appContext accountID onProgress w in
  let limit := appOptions_confirmLimitMS appContext in
  Claim accountID ∈ events run ->
  Forall (fun e => match e with Transfer _ _ _ _ => False | _ => True end)
    (events run) \/
  exists amount to result wa wb wc wd,
    client_transfer amount NEO_ASSET_HASH_0X to accountID wa = (wb, inr result) /\
    result_confirmed result limit wc = (wd, inr tt) /\
    [Transfer amount NEO_ASSET_HASH_0X to accountID;
     Confirmed (transaction_hash result) limit;
     Claim accountID] `sublist_of` events run.
Proof.
  intros run limit. subst run limit. claimAllGAS_unfold.
  destruct onProgress as [callback |]; repeat flow_step.
  all: intros Hin; try (exfalso; not_listed Hin).
  all: try (left; repeat constructor; fail).
  all: right; eexists _, _, _, _, _, _, _;
    split; [eassumption | split; [eassumption | sublist_search]].
Qed.

End Flows.

(** ** The utilities on the samples *)

Lemma App_canonicalURL_trailing_slash_witness :
  App_canonicalURL "https://wallet.cron.global" "/wallet/"
  = App_canonicalURL "https://wallet.cron.global" "/wallet" /\
  App_canonicalURL "https://wallet.cron.global" "/wallet"
  = "https://wallet.cron.global/wallet".
Proof.
  apply (App_canonicalURL_trailing_slash "https://wallet.cron.global" "/wallet").
  vm_compute. reflexivity.
Defined.

Lemma getPrivateKey_key_format_witness :
  64 <= String.length SampleClient.key /\
  Nat.Even (String.length SampleClient.key) /\
  Forall (fun c => c ∈ hex_digits) (String.list_ascii_of_string SampleClient.key).
Proof.
  apply (getPrivateKey_key_format (P := Sample.platform)
           Sample.scrypt_keystore "test123"
           (Sample.derivation_calls ++ Sample.mac_calls "c0ffee" ++
            Sample.decipher_calls ++ [CallPrivateKeyToAddress])).
  vm_compute. reflexivity.
Defined.

Lemma getPrivateKey_failures_witness :
  CodedClientError DECRYPT_KEYSTORE_UNSUPPORTED_PBKDF2_PARAMETERS None
  ∈ [CodedClientError DECRYPT_KEYSTORE_DERIVED_KEY_ERROR (Some LibraryError);
     CodedClientError DECRYPT_KEYSTORE_UNSUPPORTED_PBKDF2_PARAMETERS None;
     CodedClientError DECRYPT_KEYSTORE_UNKNOWN_CRYPTO_ERROR (Some LibraryError);
     CodedClientError DECRYPT_KEYSTORE_WRONG_PASSPHRASE None;
     CodedClientError DECRYPT_KEYSTORE_DECIPHER_ERROR (Some LibraryError);
     LibraryError;
     CodedClientError DECRYPT_KEYSTORE_WRONG_ADDRESS None].
Proof.
  apply (getPrivateKey_failures (P := Sample.platform)
           Sample.pbkdf2_sha512_keystore "test123").
  - apply extractKeystore_check_true. vm_compute. reflexivity.
  - vm_compute. reflexivity.
Defined.

Lemma unknown_properties_ignored_witness :
  extractKeystore_check (JObject (<["name" := JString "savings"]> ∅))
  = extractKeystore_check (JObject ∅) /\
  extractKeystore_check (JObject (delete "name" ∅))
  = extractKeystore_check (JObject ∅) /\
  getPrivateKey (P := Sample.platform)
    (JObject (<["name" := JString "savings"]> ∅)) "test123"
  = getPrivateKey (P := Sample.platform) (JObject ∅) "test123" /\
  getPrivateKey (P := Sample.platform) (JObject (delete "name" ∅)) "test123"
  = getPrivateKey (P := Sample.platform) (JObject ∅) "test123".
Proof.
  apply (unknown_properties_ignored (P := Sample.platform)).
  intros Hin. repeat (apply elem_of_cons in Hin as [Hin | Hin]; [discriminate Hin |]).
  apply elem_of_nil in Hin. contradiction.
Defined.

Lemma deleteAccount_selects_another_witness :
  events (deleteAccount (C := SampleClient.client) SampleClient.id SampleClient.crowded)
  = [DeleteAccount SampleClient.id; GetAccounts; SelectAccount (Some SampleClient.other_id)] /\
  (SelectAccount (Some SampleClient.id)
   ∉ events (deleteAccount (C := SampleClient.client) SampleClient.id SampleClient.crowded)).
Proof.
  destruct (deleteAccount_selects_another (C := SampleClient.client)
              SampleClient.id SampleClient.crowded) as (_ & Hevents & Hanother).
  split.
  - apply (Hevents
             {| SampleClient.memory := [SampleClient.other]; SampleClient.stored := [];
                SampleClient.current := Some SampleClient.id;
                SampleClient.neo := Finite 5; SampleClient.claimable := true |}
             {| SampleClient.memory := [SampleClient.other]; SampleClient.stored := [];
                SampleClient.current := Some SampleClient.id;
                SampleClient.neo := Finite 5; SampleClient.claimable := true |}
             [wallet_account SampleClient.other]);
      vm_compute; reflexivity.
  - apply Hanother. intros w1 w2 accounts Hdelete Hlist.
    vm_compute in Hdelete. injection Hdelete as <-.
    vm_compute in Hlist. injection Hlist as <- <-.
    intros Hin. apply list_elem_of_singleton in Hin. discriminate Hin.
Defined.

Lemma claimAllGAS_nothing_to_claim_witness :
  let run :=
    claimAllGAS (C := SampleClient.client) SampleClient.appContext
      SampleClient.id (Some SampleClient.failing_callback) SampleClient.spent in
  ((Claim SampleClient.id ∉ events run) /\
   (OnProgress claim_gas_sending ∉ events run)) \/
  last (events run) = Some (OnProgress claim_gas_skip).
Proof.
  apply (claimAllGAS_nothing_to_claim (C := SampleClient.client)
           SampleClient.appContext SampleClient.id
           (Some SampleClient.failing_callback) SampleClient.spent
           (ClientThrown "NOTHING_TO_CLAIM")).
  - vm_compute. reflexivity.
  - vm_compute. reflexivity.
Defined.

Lemma claimAllGAS_claims_after_spend_witness :
  let run :=
    claimAllGAS (C := SampleClient.client) SampleClient.appContext
      SampleClient.id None SampleClient.funded in
  Forall (fun e => match e with Transfer _ _ _ _ => False | _ => True end)
    (events run) \/
  exists amount to result wa wb wc wd,
    @client_transfer SampleClient.client amount SampleClient.neo_hash to
      SampleClient.id wa
    = (wb, inr result) /\
    @result_confirmed SampleClient.client result (Finite 180000) wc
    = (wd, inr tt) /\
    [Transfer amount SampleClient.neo_hash to SampleClient.id;
     Confirmed result (Finite 180000);
     Claim SampleClient.id] `sublist_of` events run.
Proof.
  apply (claimAllGAS_claims_after_spend (C := SampleClient.client)
           SampleClient.appContext SampleClient.id None SampleClient.funded).
  vm_compute.
  repeat first [apply list_elem_of_here | apply list_elem_of_further].
Defined.
